(** * grpcweb: the gRPC-Web frame translator, embedded and verified

    A shallow embedding of [grpcweb.go]: the request decoder
    ([FrameReader]), the streaming response encoder
    ([StreamingResponseWriter]) with its deferred header emission and
    in-band trailer frame, the base64 body writer, the negotiation
    helpers and the status mapping.

    Conventions.
    - A Go [[]byte] is a [list byte]; a Go [string] is a [string].
    - Go's [int] and [uint32] values are [Z]; every conversion to
      [uint32] and every [uint32] addition is written out with its
      wrap-around modulo 2^32.  Lengths are not bounded: an [int] is
      the 64-bit integer of the usual platforms, which no buffer
      outgrows.
    - [http.Header] is a finite map from field names to value lists.
    - The objects the translator is wired to (the request body, the
      transport's [http.ResponseWriter]) are explicit state that every
      operation threads through. *)

From Stdlib Require Import ZArith List Lia.
From Stdlib.Strings Require Import String Ascii Byte.
From Stdlib Require DecimalString.
From stdpp Require Import base option list sorting gmap strings.
From Equations Require Import Equations.

Import ListNotations.
Local Open Scope Z_scope.

(** ** Bytes and fixed-width integers *)

Definition byte_to_Z (b : byte) : Z := Z.of_N (Byte.to_N b).

(** Go's [byte(v)]: keep the low eight bits. *)
Definition byte_of_Z (v : Z) : byte :=
  match Byte.of_N (Z.to_N (v mod 256)) with
  | Some b => b
  | None => x00
  end.

(** Go's [uint32(v)] on an integer [v]. *)
Definition uint32 (v : Z) : Z := v mod 2 ^ 32.

(** [len(b)] as a Go [int]. *)
Definition len {A} (l : list A) : Z := Z.of_nat (length l).

(** The first [n] elements of [l] (all of [l] when it is shorter), and
    what follows them, for a count [n] that is a Go integer. *)
Fixpoint takeZ {A} (n : Z) (l : list A) : list A :=
  match l with
  | [] => []
  | x :: l' => if 0 <? n then x :: takeZ (n - 1) l' else []
  end.

Fixpoint dropZ {A} (n : Z) (l : list A) : list A :=
  match l with
  | [] => []
  | x :: l' => if 0 <? n then dropZ (n - 1) l' else l
  end.

Module BigEndian.

(** [binary.BigEndian.Uint32]: the first four bytes, most significant
    first.  The callers always pass slices of at least four bytes; a
    missing byte reads as zero here. *)
Definition Uint32 (b : list byte) : Z :=
  let at_ i := byte_to_Z (nth i b x00) in
  Z.lor (Z.lor (Z.lor (at_ 3%nat) (Z.shiftl (at_ 2%nat) 8))
               (Z.shiftl (at_ 1%nat) 16))
        (Z.shiftl (at_ 0%nat) 24).

(** [binary.BigEndian.PutUint32]: the four bytes written. *)
Definition PutUint32 (v : Z) : list byte :=
  [byte_of_Z (Z.shiftr v 24); byte_of_Z (Z.shiftr v 16);
   byte_of_Z (Z.shiftr v 8); byte_of_Z v].

End BigEndian.

(** ** Strings: the functions of package [strings] the code calls *)

Module strings.

(** [strings.HasPrefix]. *)
Definition HasPrefix (s prefix : string) : bool := String.prefix prefix s.

(** [strings.HasSuffix]: [len(s) >= len(suffix) &&
    s[len(s)-len(suffix):] == suffix]. *)
Definition HasSuffix (s suffix : string) : bool :=
  (String.length suffix <=? String.length s)%nat
  && String.eqb
       (String.substring (String.length s - String.length suffix)
                         (String.length suffix) s)
       suffix.

(** [strings.Contains]: [substr] occurs somewhere in [s]. *)
Fixpoint Contains (s substr : string) : bool :=
  String.prefix substr s
  || match s with
     | EmptyString => false
     | String _ s' => Contains s' substr
     end.

(** [strings.Split(s, ",")]: the pieces between the commas, one more
    than there are commas. *)
Fixpoint SplitComma (s : string) : list string :=
  match s with
  | EmptyString => [EmptyString]
  | String c s' =>
      if Ascii.eqb c ","%char then EmptyString :: SplitComma s'
      else match SplitComma s' with
           | piece :: rest => String c piece :: rest
           | [] => [String c EmptyString]
           end
  end.

Definition chr (n : nat) : ascii := ascii_of_nat n.
Definition str1 (a : nat) : string := String (chr a) EmptyString.
Definition str2 (a b : nat) : string := String (chr a) (str1 b).
Definition str3 (a b c : nat) : string := String (chr a) (str2 b c).

(** The UTF-8 encodings of the code points for which
    [unicode.IsSpace] holds: tab, LF, VT, FF, CR, space, U+0085,
    U+00A0, U+1680, U+2000..U+200A, U+2028, U+2029, U+202F, U+205F,
    U+3000. *)
Definition spaces : list string :=
  [str1 9; str1 10; str1 11; str1 12; str1 13; str1 32;
   str2 194 133; str2 194 160; str3 225 154 128;
   str3 226 128 128; str3 226 128 129; str3 226 128 130;
   str3 226 128 131; str3 226 128 132; str3 226 128 133;
   str3 226 128 134; str3 226 128 135; str3 226 128 136;
   str3 226 128 137; str3 226 128 138;
   str3 226 128 168; str3 226 128 169; str3 226 128 175;
   str3 226 129 159; str3 227 128 128]%nat.

(** The length of the white-space rune [s] starts with, if any. *)
Definition leadingSpace (s : string) : option nat :=
  String.length <$> List.find (fun sp => String.prefix sp s) spaces.

(** The length of the white-space rune [s] ends with, if any. *)
Definition trailingSpace (s : string) : option nat :=
  String.length <$> List.find (fun sp => HasSuffix s sp) spaces.

Fixpoint trimLeft (fuel : nat) (s : string) : string :=
  match fuel with
  | O => s
  | S fuel' =>
      match leadingSpace s with
      | Some n =>
          trimLeft fuel' (String.substring n (String.length s - n) s)
      | None => s
      end
  end.

Fixpoint trimRight (fuel : nat) (s : string) : string :=
  match fuel with
  | O => s
  | S fuel' =>
      match trailingSpace s with
      | Some n => trimRight fuel' (String.substring 0 (String.length s - n) s)
      | None => s
      end
  end.

(** [strings.TrimSpace]: drop leading and trailing white space.  Each
    round drops at least one byte, so [length s] rounds are enough. *)
Definition TrimSpace (s : string) : string :=
  let s1 := trimLeft (String.length s) s in
  trimRight (String.length s1) s1.

End strings.

(** ** gRPC status codes *)

Module codes.
(** [codes.Code] is a [uint32]; these are the constants the mapping
    uses. *)
Definition Code := Z.
Definition OK : Code := 0.
Definition Unknown : Code := 2.
Definition PermissionDenied : Code := 7.
Definition Unimplemented : Code := 12.
Definition Internal : Code := 13.
Definition Unavailable : Code := 14.
Definition Unauthenticated : Code := 16.
End codes.

(** ** Package [net/http]: headers, status texts, the transport *)

Module http.
Definition StatusOK : Z := 200.
Definition StatusBadRequest : Z := 400.
Definition StatusUnauthorized : Z := 401.
Definition StatusForbidden : Z := 403.
Definition StatusNotFound : Z := 404.
Definition StatusTooManyRequests : Z := 429.
Definition StatusBadGateway : Z := 502.
Definition StatusServiceUnavailable : Z := 503.
Definition StatusGatewayTimeout : Z := 504.
Definition MethodPost : string := "POST".

(** [http.StatusText]: the registered reason phrases, and the empty
    string for every other code. *)
Definition statusTexts : list (Z * string) :=
  [(100, "Continue"); (101, "Switching Protocols"); (102, "Processing");
   (103, "Early Hints");
   (200, "OK"); (201, "Created"); (202, "Accepted");
   (203, "Non-Authoritative Information"); (204, "No Content");
   (205, "Reset Content"); (206, "Partial Content"); (207, "Multi-Status");
   (208, "Already Reported"); (226, "IM Used");
   (300, "Multiple Choices"); (301, "Moved Permanently"); (302, "Found");
   (303, "See Other"); (304, "Not Modified"); (305, "Use Proxy");
   (307, "Temporary Redirect"); (308, "Permanent Redirect");
   (400, "Bad Request"); (401, "Unauthorized"); (402, "Payment Required");
   (403, "Forbidden"); (404, "Not Found"); (405, "Method Not Allowed");
   (406, "Not Acceptable"); (407, "Proxy Authentication Required");
   (408, "Request Timeout"); (409, "Conflict"); (410, "Gone");
   (411, "Length Required"); (412, "Precondition Failed");
   (413, "Request Entity Too Large"); (414, "Request URI Too Long");
   (415, "Unsupported Media Type");
   (416, "Requested Range Not Satisfiable"); (417, "Expectation Failed");
   (418, "I'm a teapot"); (421, "Misdirected Request");
   (422, "Unprocessable Entity"); (423, "Locked");
   (424, "Failed Dependency"); (425, "Too Early");
   (426, "Upgrade Required"); (428, "Precondition Required");
   (429, "Too Many Requests"); (431, "Request Header Fields Too Large");
   (451, "Unavailable For Legal Reasons");
   (500, "Internal Server Error"); (501, "Not Implemented");
   (502, "Bad Gateway"); (503, "Service Unavailable");
   (504, "Gateway Timeout"); (505, "HTTP Version Not Supported");
   (506, "Variant Also Negotiates"); (507, "Insufficient Storage");
   (508, "Loop Detected"); (510, "Not Extended");
   (511, "Network Authentication Required")].

Definition StatusText (code : Z) : string :=
  match List.find (fun e => fst e =? code) statusTexts with
  | Some e => snd e
  | None => ""
  end.

(** [http.Header], a Go [map[string][]string]. *)
Abbreviation Header := (gmap string (list string)).

Definition code (c : ascii) : N := N_of_ascii c.
Definition isLower (c : ascii) : bool := (97 <=? code c)%N && (code c <=? 122)%N.
Definition isUpper (c : ascii) : bool := (65 <=? code c)%N && (code c <=? 90)%N.
Definition isDigit (c : ascii) : bool := (48 <=? code c)%N && (code c <=? 57)%N.

(** The token characters of RFC 7230, the bytes a header field name
    may hold ([validHeaderFieldByte]). *)
Definition validHeaderFieldByte (c : ascii) : bool :=
  isLower c || isUpper c || isDigit c
  || existsb (Ascii.eqb c) (list_ascii_of_string "!#$%&'*+-.^_`|~").

Definition allValid (s : string) : bool :=
  forallb validHeaderFieldByte (list_ascii_of_string s).

(** The rewriting pass of [canonicalMIMEHeaderKey]: upper case at the
    start and after each dash, lower case elsewhere. *)
Fixpoint canonicalize (upper : bool) (s : string) : string :=
  match s with
  | EmptyString => EmptyString
  | String c s' =>
      let c' :=
        if upper && isLower c then ascii_of_N (code c - 32)
        else if negb upper && isUpper c then ascii_of_N (code c + 32)
        else c in
      String c' (canonicalize (Ascii.eqb c' "-"%char) s')
  end.

(** [http.CanonicalHeaderKey]: a key holding a byte that is not a
    token character (a space included) is returned unchanged. *)
Definition CanonicalHeaderKey (s : string) : string :=
  if allValid s then canonicalize true s else s.

(** [Header.Get]: the first value under the canonical key, or "". *)
Definition Get (h : Header) (key : string) : string :=
  match h !! CanonicalHeaderKey key with
  | Some (v :: _) => v
  | _ => ""
  end.

(** [Header.Set]. *)
Definition Set_ (h : Header) (key value : string) : Header :=
  <[CanonicalHeaderKey key := [value]]> h.

(** [Header.Add]. *)
Definition Add (h : Header) (key value : string) : Header :=
  let k := CanonicalHeaderKey key in
  <[k := default [] (h !! k) ++ [value]]> h.

(** [Header.Del]. *)
Definition Del (h : Header) (key : string) : Header :=
  delete (CanonicalHeaderKey key) h.

(** [httpguts.ValidHeaderFieldName]. *)
Definition ValidHeaderFieldName (k : string) : bool :=
  negb (String.eqb k "") && allValid k.

(** [headerNewlineToSpace.Replace]. *)
Fixpoint headerNewlineToSpace (v : string) : string :=
  match v with
  | EmptyString => EmptyString
  | String c v' =>
      String (if Ascii.eqb c (ascii_of_nat 10) || Ascii.eqb c (ascii_of_nat 13)
              then " "%char else c)
             (headerNewlineToSpace v')
  end.

Definition isASCIISpace (c : ascii) : bool :=
  Ascii.eqb c " "%char || Ascii.eqb c (ascii_of_nat 9).

Fixpoint trimLeading (v : string) : string :=
  match v with
  | String c v' => if isASCIISpace c then trimLeading v' else v
  | EmptyString => EmptyString
  end.

(** [textproto.TrimString]: drop leading and trailing spaces and
    tabs. *)
Definition TrimString (v : string) : string :=
  String.rev (trimLeading (String.rev (trimLeading v))).

(** The keys in the order [sortedKeyValues] visits them. *)
Definition keyOrder (a b : string * list string) : Prop :=
  String.le (fst a) (fst b).

Definition sortedKeyValues (h : Header) : list (string * list string) :=
  merge_sort keyOrder (map_to_list h).

Definition headerLine (k v : string) : list byte :=
  list_byte_of_string
    (k ++ ": " ++ TrimString (headerNewlineToSpace v)
       ++ String (ascii_of_nat 13) (String (ascii_of_nat 10) ""))%string.

(** [Header.Write] into a [bytes.Buffer] (which never fails): one
    line per value, keys sorted, invalid field names skipped. *)
Definition Write (h : Header) : list byte :=
  flat_map
    (fun kv =>
       if ValidHeaderFieldName (fst kv)
       then flat_map (headerLine (fst kv)) (snd kv)
       else [])
    (sortedKeyValues h).

(** The part of an [*http.Request] the helpers inspect. *)
Record Request := { Method : string; Header_ : Header }.

(** The transport's [http.ResponseWriter], as the translator sees
    it: the header map [Header()] returns, the codes passed to
    [WriteHeader] (latest first), the body bytes accepted so far, and
    the number of [Flush] calls when it is an [http.Flusher].  [room]
    is how many more body bytes the peer accepts before [Write] starts
    to fail ([None]: it never fails). *)
Record ResponseWriter := {
  rw_header : Header;
  rw_status : list Z;
  rw_body : list byte;
  rw_room : option nat;
  rw_flusher : bool;
  rw_flushes : nat;
}.

End http.

(** [strconv.Itoa]. *)
Definition Itoa (n : Z) : string :=
  DecimalString.NilZero.string_of_int (Z.to_int n).


(** ** The status mapping and the negotiation helpers *)

Definition httpStatusToGrpcCode (httpStatusCode : Z) : codes.Code :=
  if httpStatusCode =? http.StatusOK then codes.OK
  else if httpStatusCode =? http.StatusBadRequest then codes.Internal
  else if httpStatusCode =? http.StatusUnauthorized then codes.Unauthenticated
  else if httpStatusCode =? http.StatusForbidden then codes.PermissionDenied
  else if httpStatusCode =? http.StatusNotFound then codes.Unimplemented
  else if (httpStatusCode =? http.StatusTooManyRequests)
          || (httpStatusCode =? http.StatusBadGateway)
          || (httpStatusCode =? http.StatusServiceUnavailable)
          || (httpStatusCode =? http.StatusGatewayTimeout)
       then codes.Unavailable
  else codes.Unknown.

Definition ContentTypeGRPCWeb : string := "application/grpc-web".
Definition ContentTypeGRPCWebText : string := "application/grpc-web-text".
Definition ContentTypeGRPCWebProto : string := "application/grpc-web+proto".
Definition ContentTypeGRPCWebTextProto : string := "application/grpc-web-text+proto".
Definition ContentTypeGRPC : string := "application/grpc".

Definition grpcDataFrame : byte := x00.
Definition grpcTrailerFrame : byte := x80.

Definition IsGRPCWebRequest (r : http.Request) : bool :=
  String.eqb (http.Method r) http.MethodPost
  && strings.HasPrefix (http.Get (http.Header_ r) "Content-Type") ContentTypeGRPCWeb.

Definition IsTextRequest (r : http.Request) : bool :=
  let contentType := http.Get (http.Header_ r) "Content-Type" in
  let accept := http.Get (http.Header_ r) "Accept" in
  strings.HasSuffix contentType "-text"
  || strings.Contains accept ContentTypeGRPCWebText.

(** ** Errors and package [io] *)

(** The error values that flow through the translator. *)
Inductive error : Type :=
| EOF                                   (* io.EOF *)
| ErrUnexpectedEOF                      (* io.ErrUnexpectedEOF *)
| CorruptInputError                     (* base64.CorruptInputError *)
| ErrBroken (what : string)             (* a failure of the wrapped source or sink *)
| Errorf (msg : string) (cause : error) (* fmt.Errorf(msg + ": %w", cause) *).

(** [err == io.EOF], the test callers use for a clean end of stream. *)
Definition isEOF (e : error) : bool :=
  match e with EOF => true | _ => false end.

(** [errors.Is(err, target)] for a sentinel [target]: follow the
    wrapped causes. *)
Fixpoint Is (e target : error) : bool :=
  match e, target with
  | EOF, EOF | ErrUnexpectedEOF, ErrUnexpectedEOF
  | CorruptInputError, CorruptInputError => true
  | Errorf _ cause, _ => Is cause target
  | _, _ => false
  end.

Module io.

(** An [io.Reader] as a stream: the bytes it still delivers, then the
    error every further read reports: [EOF] at a clean end, any other
    error when the source breaks at that point. *)
Record Reader := { pending : list byte; final : error }.

(** [io.ReadFull(r, buf)] with [len(buf) = n]: the bytes read and the
    error: [EOF] when the stream is already at its clean end,
    [ErrUnexpectedEOF] when it ends after some but not all bytes, the
    source's own error when it breaks. *)
Definition ReadFull (r : Reader) (n : nat) : Reader * list byte * option error :=
  let got := take n (pending r) in
  let r' := {| pending := drop n (pending r); final := final r |} in
  if (n <=? length (pending r))%nat then (r', got, None)
  else match got with
       | [] => (r', got, Some (final r))
       | _ => (r', got,
               Some (if isEOF (final r) then ErrUnexpectedEOF else final r))
       end.

(** [io.CopyN(dst, r, n)] into a [bytes.Buffer] [dst]: the bytes
    copied, and [EOF] or the source's error when fewer than [n]
    arrive. *)
Definition CopyN (r : Reader) (n : Z) : Reader * list byte * option error :=
  let r' := {| pending := dropZ n (pending r); final := final r |} in
  (r', takeZ n (pending r),
   if n <=? len (pending r) then None else Some (final r)).

End io.

Module Buffer.
(** [bytes.Buffer.Read(p)] with [len(p) = n]: the rest of the buffer,
    the bytes delivered and the error. *)
Definition Read (b : list byte) (n : nat) : list byte * list byte * option error :=
  match b with
  | [] => ([], [], if (n =? 0)%nat then None else Some EOF)
  | _ => (drop n b, take n b, None)
  end.
End Buffer.

(** [ResponseWriter.Write]: the peer takes the bytes while there is
    room, then the write stops short with an error. *)
Definition rwWrite (w : http.ResponseWriter) (p : list byte)
  : http.ResponseWriter * option error :=
  let put (q : list byte) (room : option nat) :=
    {| http.rw_header := http.rw_header w;
       http.rw_status := http.rw_status w;
       http.rw_body := http.rw_body w ++ q;
       http.rw_room := room;
       http.rw_flusher := http.rw_flusher w;
       http.rw_flushes := http.rw_flushes w |} in
  match http.rw_room w with
  | None => (put p None, None)
  | Some r =>
      if (length p <=? r)%nat then (put p (Some (r - length p)%nat), None)
      else (put (take r p) (Some 0%nat), Some (ErrBroken "write"))
  end.

(** [ResponseWriter.WriteHeader]. *)
Definition rwWriteHeader (w : http.ResponseWriter) (statusCode : Z) : http.ResponseWriter :=
  {| http.rw_header := http.rw_header w;
     http.rw_status := statusCode :: http.rw_status w;
     http.rw_body := http.rw_body w;
     http.rw_room := http.rw_room w;
     http.rw_flusher := http.rw_flusher w;
     http.rw_flushes := http.rw_flushes w |}.

(** Assignments through the map [ResponseWriter.Header()] returns. *)
Definition rwSetHeader (w : http.ResponseWriter) (h : http.Header) : http.ResponseWriter :=
  {| http.rw_header := h;
     http.rw_status := http.rw_status w;
     http.rw_body := http.rw_body w;
     http.rw_room := http.rw_room w;
     http.rw_flusher := http.rw_flusher w;
     http.rw_flushes := http.rw_flushes w |}.

(** [Flusher.Flush]. *)
Definition rwFlush (w : http.ResponseWriter) : http.ResponseWriter :=
  {| http.rw_header := http.rw_header w;
     http.rw_status := http.rw_status w;
     http.rw_body := http.rw_body w;
     http.rw_room := http.rw_room w;
     http.rw_flusher := http.rw_flusher w;
     http.rw_flushes := S (http.rw_flushes w) |}.

(** ** Package [encoding/base64], standard encoding with padding *)

Module base64.

Definition encodeStd : list byte :=
  list_byte_of_string
    "ABCDEFGHIJKLMNOPQRSTUVWXYZabcdefghijklmnopqrstuvwxyz0123456789+/".

Definition padChar : byte := "="%byte.

(** [enc.encode[i]]. *)
Definition encodeChar (i : Z) : byte := nth (Z.to_nat i) encodeStd x00.

Fixpoint indexOf (c : byte) (l : list byte) (i : Z) : option Z :=
  match l with
  | [] => None
  | x :: l' => if Byte.eqb x c then Some i else indexOf c l' (i + 1)
  end.

(** [enc.decodeMap[c]], with [None] for the table's 0xFF. *)
Definition decodeChar (c : byte) : option Z := indexOf c encodeStd 0.

Definition sextet (val : Z) (shift : Z) : byte :=
  encodeChar (Z.land (Z.shiftr val shift) 63).

(** [Encoding.Encode]: three bytes become four characters; a last
    group of one or two bytes is padded with [=]. *)
Fixpoint Encode (src : list byte) : list byte :=
  match src with
  | [] => []
  | [a] =>
      let val := Z.shiftl (byte_to_Z a) 16 in
      [sextet val 18; sextet val 12; padChar; padChar]
  | [a; b] =>
      let val := Z.lor (Z.shiftl (byte_to_Z a) 16) (Z.shiftl (byte_to_Z b) 8) in
      [sextet val 18; sextet val 12; sextet val 6; padChar]
  | a :: b :: c :: rest =>
      let val := Z.lor (Z.lor (Z.shiftl (byte_to_Z a) 16)
                              (Z.shiftl (byte_to_Z b) 8))
                       (byte_to_Z c) in
      [sextet val 18; sextet val 12; sextet val 6; sextet val 0] ++ Encode rest
  end.

(** The value of [n] characters of a quantum, the missing ones read
    as zero. *)
Definition quantumValue (c0 c1 : byte) (c2 c3 : option byte) : option Z :=
  s0 ← decodeChar c0;
  s1 ← decodeChar c1;
  s2 ← match c2 with Some c => decodeChar c | None => Some 0 end;
  s3 ← match c3 with Some c => decodeChar c | None => Some 0 end;
  Some (Z.lor (Z.lor (Z.lor (Z.shiftl s0 18) (Z.shiftl s1 12))
                     (Z.shiftl s2 6))
              s3).

Definition bytesOf (val : Z) (n : nat) : list byte :=
  take n [byte_of_Z (Z.shiftr val 16); byte_of_Z (Z.shiftr val 8); byte_of_Z val].

(** A quantum with no padding. *)
Definition decodeFull (c0 c1 c2 c3 : byte) : option (list byte) :=
  val ← quantumValue c0 c1 (Some c2) (Some c3); Some (bytesOf val 3).

(** A quantum that may end in [=] or [==]. *)
Definition decodeQuantum (c0 c1 c2 c3 : byte) : option (list byte) :=
  if Byte.eqb c3 padChar then
    if Byte.eqb c2 padChar
    then val ← quantumValue c0 c1 None None; Some (bytesOf val 1)
    else val ← quantumValue c0 c1 (Some c2) None; Some (bytesOf val 2)
  else decodeFull c0 c1 c2 c3.

(** Decoding of input without line breaks: padding is accepted in
    the last quantum only, and every other character must belong to
    the alphabet. *)
Fixpoint decodeQuanta (src : list byte) : option (list byte) :=
  match src with
  | [] => Some []
  | [c0; c1; c2; c3] => decodeQuantum c0 c1 c2 c3
  | c0 :: c1 :: c2 :: c3 :: rest =>
      bs ← decodeFull c0 c1 c2 c3;
      tl ← decodeQuanta rest;
      Some (bs ++ tl)
  | _ => None
  end.

Definition isNewline (c : byte) : bool :=
  Byte.eqb c "010"%byte || Byte.eqb c "013"%byte.

(** [StdEncoding.DecodeString]: carriage returns and line feeds are
    skipped, the rest is decoded strictly; [None] stands for a
    [CorruptInputError]. *)
Definition DecodeString (s : list byte) : option (list byte) :=
  decodeQuanta (List.filter (fun c => negb (isNewline c)) s).

(** Text that is standard base64 as it stands: quanta of four
    characters of the alphabet, the last one possibly ending in one
    or two [=], and nothing else (no line breaks). *)
Definition inAlphabet (c : byte) : bool := bool_decide (is_Some (decodeChar c)).

Fixpoint wellFormed (s : list byte) : bool :=
  match s with
  | [] => true
  | [c0; c1; c2; c3] =>
      inAlphabet c0 && inAlphabet c1
      && ((inAlphabet c2 && (inAlphabet c3 || Byte.eqb c3 padChar))
          || (Byte.eqb c2 padChar && Byte.eqb c3 padChar))
  | c0 :: c1 :: c2 :: c3 :: rest =>
      inAlphabet c0 && inAlphabet c1 && inAlphabet c2 && inAlphabet c3
      && wellFormed rest
  | _ => false
  end.

(** The streaming encoder [base64.NewEncoder] returns: a sticky
    error and the one or two bytes that wait for the rest of their
    group ([buf[:nbuf]]). *)
Record encoder := { err : option error; buf : list byte }.

Definition NewEncoder : encoder := {| err := None; buf := [] |}.

(** The interior and the trailing fringe of [encoder.Write]: whole
    groups are encoded and written, the rest is kept.  The sink takes
    a byte stream, so the blocks of at most 768 bytes the loop writes
    are handed over as one write. *)
Definition writeGroups (w : http.ResponseWriter) (p : list byte)
  : encoder * http.ResponseWriter * option error :=
  let nn := (length p - length p mod 3)%nat in
  if (3 <=? length p)%nat then
    match rwWrite w (Encode (take nn p)) with
    | (w1, Some x) => ({| err := Some x; buf := [] |}, w1, Some x)
    | (w1, None) => ({| err := None; buf := drop nn p |}, w1, None)
    end
  else ({| err := None; buf := p |}, w, None).

(** [encoder.Write]. *)
Definition Write (e : encoder) (w : http.ResponseWriter) (p : list byte)
  : encoder * http.ResponseWriter * option error :=
  match err e with
  | Some x => (e, w, Some x)
  | None =>
      match buf e with
      | [] => writeGroups w p
      | _ =>
          let i := Nat.min (length p) (3 - length (buf e)) in
          let buf1 := buf e ++ take i p in
          if (length buf1 <? 3)%nat then ({| err := None; buf := buf1 |}, w, None)
          else match rwWrite w (Encode buf1) with
               | (w1, Some x) => ({| err := Some x; buf := buf1 |}, w1, Some x)
               | (w1, None) => writeGroups w1 (drop i p)
               end
      end
  end.

(** [encoder.Close]: the waiting bytes go out as a padded group. *)
Definition Close (e : encoder) (w : http.ResponseWriter)
  : encoder * http.ResponseWriter * option error :=
  match err e, buf e with
  | None, _ :: _ =>
      let '(w1, r) := rwWrite w (Encode (buf e)) in
      ({| err := r; buf := [] |}, w1, r)
  | _, _ => (e, w, err e)
  end.

(** What a decoding reader delivers from the characters [src] (line
    breaks removed) of a source that then reports [final]: the bytes
    of the quanta that decode, then [CorruptInputError] at a bad
    quantum or at input after padding, [ErrUnexpectedEOF] when a clean
    end cuts a quantum, and the source's [final] otherwise. *)
Fixpoint decodeStream (src : list byte) (final : error) : list byte * error :=
  match src with
  | [] => ([], final)
  | c0 :: c1 :: c2 :: c3 :: rest =>
      match decodeQuantum c0 c1 c2 c3 with
      | None => ([], CorruptInputError)
      | Some bs =>
          if Byte.eqb c3 padChar then
            (bs, match rest with [] => final | _ => CorruptInputError end)
          else let '(tl, e) := decodeStream rest final in (bs ++ tl, e)
      end
  | _ => ([], if isEOF final then ErrUnexpectedEOF else final)
  end.

(** [base64.NewDecoder(base64.StdEncoding, r)]. *)
Definition NewDecoder (r : io.Reader) : io.Reader :=
  let '(bs, e) :=
    decodeStream (List.filter (fun c => negb (isNewline c)) (io.pending r))
                 (io.final r) in
  {| io.pending := bs; io.final := e |}.

End base64.

(** ** The request decoder *)

Module FrameReader.

(** [FrameReader]: the source still to be read, and the translated
    bytes not yet handed to the consumer. *)
Record t := { source : io.Reader; buffer : list byte }.

Definition NewFrameReader (r : io.Reader) (isTextEncoded : bool) : t :=
  let bodyReader := if isTextEncoded then base64.NewDecoder r else r in
  {| source := bodyReader; buffer := [] |}.

(** [Read(p)] with [len(p) = n]: the new state, the bytes stored
    into [p] and the error. *)
Definition Read (fr : t) (n : nat) : t * list byte * option error :=
  if (0 <? length (buffer fr))%nat then
    let '(b, out, e) := Buffer.Read (buffer fr) n in
    ({| source := source fr; buffer := b |}, out, e)
  else
    let '(src1, frameHeader, herr) := io.ReadFull (source fr) 5 in
    match herr with
    | Some e => ({| source := src1; buffer := buffer fr |}, [], Some e)
    | None =>
        if negb (Byte.eqb (nth 0 frameHeader x00) grpcDataFrame)
        then ({| source := src1; buffer := buffer fr |}, [], Some EOF)
        else
          let length_ := BigEndian.Uint32 (drop 1 frameHeader) in
          let grpcHeader := x00 :: BigEndian.PutUint32 length_ in
          let buffer1 := buffer fr ++ grpcHeader in
          let '(src2, copied, cerr) :=
            if 0 <? length_ then io.CopyN src1 length_ else (src1, [], None) in
          match cerr with
          | Some e =>
              ({| source := src2; buffer := buffer1 ++ copied |}, [],
               Some (Errorf "error copying frame data" e))
          | None =>
              let '(b, out, e) := Buffer.Read (buffer1 ++ copied) n in
              ({| source := src2; buffer := b |}, out, e)
          end
    end.

End FrameReader.

(** ** The streaming response encoder *)

(** What [bodyWriter] holds: the transport itself, or the
    [flushingBase64Writer] around it with its encoder.  Both write into
    the one transport [w] of the response writer.  Of the two only the
    [flushingBase64Writer] is an [io.Closer]. *)
Inductive BodyWriter : Type :=
| Direct
| flushingBase64Writer (encoder : base64.encoder).

Definition newFlushingBase64Writer : BodyWriter :=
  flushingBase64Writer base64.NewEncoder.

(** [bodyWriter.Write(p)]. *)
Definition bodyWrite (bw : BodyWriter) (w : http.ResponseWriter) (p : list byte)
  : BodyWriter * http.ResponseWriter * option error :=
  match bw with
  | Direct => let '(w1, e) := rwWrite w p in (Direct, w1, e)
  | flushingBase64Writer enc =>
      let '(enc1, w1, e) := base64.Write enc w p in
      (flushingBase64Writer enc1, w1, e)
  end.

(** [io.CopyN(bodyWriter, frameBuffer, n)] where [chunk] is what the
    buffer has of the [n] bytes asked for: the bytes go to the writer
    (no call is made when there are none), and a buffer that runs out
    early makes it [EOF].  The copy is taken as one piece: when the
    writer fails, the whole of [chunk] has left the buffer. *)
Definition bodyCopyN (bw : BodyWriter) (w : http.ResponseWriter)
    (chunk : list byte) (n : Z)
  : BodyWriter * http.ResponseWriter * option error :=
  let '(bw1, w1, e) :=
    match chunk with
    | [] => (bw, w, None)
    | _ => bodyWrite bw w chunk
    end in
  match e with
  | Some x => (bw1, w1, Some x)
  | None => (bw1, w1, if len chunk <? n then Some EOF else None)
  end.

(** The loop of [Write]: while the buffer holds a header and, by the
    32-bit comparison, the frame it declares, turn the frame at its
    head into a web DATA frame. *)
Equations? drain (bw : BodyWriter) (w : http.ResponseWriter) (frameBuffer : list byte)
  : BodyWriter * http.ResponseWriter * list byte * option error
  by wf (length frameBuffer) lt :=
  drain bw w frameBuffer with decide (5 <= len frameBuffer) := {
    | right _ => (bw, w, frameBuffer, None)
    | left _ =>
        let grpcHeader := take 5 frameBuffer in
        let length_ := BigEndian.Uint32 (drop 1 grpcHeader) in
        if uint32 (len frameBuffer) <? uint32 (5 + length_)
        then (bw, w, frameBuffer, None)
        else
          let rest := drop 5 frameBuffer in
          let grpcWebFrameHeader := grpcDataFrame :: BigEndian.PutUint32 length_ in
          match bodyWrite bw w grpcWebFrameHeader with
          | (bw1, w1, Some e) => (bw1, w1, rest, Some e)
          | (bw1, w1, None) =>
              match bodyCopyN bw1 w1 (takeZ length_ rest) length_ with
              | (bw2, w2, Some e) => (bw2, w2, dropZ length_ rest, Some e)
              | (bw2, w2, None) => drain bw2 w2 (dropZ length_ rest)
              end
          end }.
Proof.
  assert (Hdrop : forall (bs : list byte) n, (length (dropZ n bs) <= length bs)%nat).
  { induction bs as [|x bs IH]; simpl; intros n; [lia|].
    destruct (0 <? n); simpl; [specialize (IH (n - 1))|]; lia. }
  specialize (Hdrop rest length_). subst rest.
  unfold len in *. rewrite length_drop in Hdrop. lia.
Qed.

Module StreamingResponseWriter.

Record t := {
  w : http.ResponseWriter;
  isTextResponse : bool;
  headers : http.Header;
  trailers : http.Header;
  capturedStatusCode : Z;
  headersWritten : bool;
  bodyWriter : BodyWriter;
  flusher : bool;
  frameBuffer : list byte;
}.

Definition NewStreamingResponseWriter (w : http.ResponseWriter) (isText : bool) : t :=
  {| w := w;
     isTextResponse := isText;
     headers := ∅;
     trailers := ∅;
     capturedStatusCode := http.StatusOK;
     headersWritten := false;
     bodyWriter := if isText then newFlushingBase64Writer else Direct;
     flusher := http.rw_flusher w;
     frameBuffer := [] |}.

(** [Header()] hands out the map itself; the caller's changes to it
    are a replacement of [headers]. *)
Definition Header (s : t) : http.Header := headers s.

Definition withHeader (s : t) (h : http.Header) : t :=
  {| w := w s; isTextResponse := isTextResponse s; headers := h;
     trailers := trailers s; capturedStatusCode := capturedStatusCode s;
     headersWritten := headersWritten s; bodyWriter := bodyWriter s;
     flusher := flusher s; frameBuffer := frameBuffer s |}.

Definition WriteHeader (s : t) (statusCode : Z) : t :=
  if headersWritten s then s
  else {| w := w s; isTextResponse := isTextResponse s; headers := headers s;
          trailers := trailers s; capturedStatusCode := statusCode;
          headersWritten := headersWritten s; bodyWriter := bodyWriter s;
          flusher := flusher s; frameBuffer := frameBuffer s |}.

(** One round of the promotion loop of [writeHeaders]: a field named
    in a [Trailer] value moves from the headers to the trailers. *)
Definition promote (ht : http.Header * http.Header) (key : string)
  : http.Header * http.Header :=
  let canonicalKey := http.CanonicalHeaderKey (strings.TrimSpace key) in
  match fst ht !! canonicalKey with
  | Some val => (delete canonicalKey (fst ht), <[canonicalKey := val]> (snd ht))
  | None => ht
  end.

(** The keys the two nested loops visit, in order. *)
Definition announced (h : http.Header) : list string :=
  match h !! "Trailer" with
  | Some trailers => flat_map strings.SplitComma trailers
  | None => []
  end.

Definition forwarded (k : string) : bool :=
  negb (String.eqb k "Content-Type") && negb (String.eqb k "Content-Length").

Definition writeHeaders (s : t) : t :=
  if headersWritten s then s
  else
    let '(headers1, trailers1) :=
      fold_left promote (announced (headers s)) (headers s, trailers s) in
    let headers2 := delete "Trailer" headers1 in
    let h1 := filter (fun kv => forwarded (fst kv) = true) headers2
              ∪ http.rw_header (w s) in
    let finalContentType :=
      if isTextResponse s then ContentTypeGRPCWebTextProto
      else ContentTypeGRPCWebProto in
    let h2 := http.Set_ h1 "Content-Type" finalContentType in
    let h3 := http.Add h2 "Access-Control-Expose-Headers"
                       "grpc-status, grpc-message" in
    {| w := rwWriteHeader (rwSetHeader (w s) h3) http.StatusOK;
       isTextResponse := isTextResponse s;
       headers := headers2;
       trailers := trailers1;
       capturedStatusCode := capturedStatusCode s;
       headersWritten := true;
       bodyWriter := bodyWriter s;
       flusher := flusher s;
       frameBuffer := frameBuffer s |}.

(** The state after the body writer, the transport and the buffer
    have moved on. *)
Definition withBody (s : t) (bw : BodyWriter) (w1 : http.ResponseWriter)
    (b : list byte) : t :=
  {| w := w1; isTextResponse := isTextResponse s; headers := headers s;
     trailers := trailers s; capturedStatusCode := capturedStatusCode s;
     headersWritten := headersWritten s; bodyWriter := bw;
     flusher := flusher s; frameBuffer := b |}.

(** [Write(p)]: the new state, the count returned and the error. *)
Definition Write (s : t) (p : list byte) : t * Z * option error :=
  let s1 := writeHeaders s in
  let '(bw, w1, b, e) := drain (bodyWriter s1) (w s1) (frameBuffer s1 ++ p) in
  match e with
  | Some x => (withBody s1 bw w1 b, 0, Some x)
  | None => (withBody s1 bw w1 b, len p, None)
  end.

Definition Flush (s : t) : t :=
  let s1 := writeHeaders s in
  if flusher s1
  then withBody s1 (bodyWriter s1) (rwFlush (w s1)) (frameBuffer s1)
  else s1.

Definition withTrailers (s : t) (tr : http.Header) : t :=
  {| w := w s; isTextResponse := isTextResponse s; headers := headers s;
     trailers := tr; capturedStatusCode := capturedStatusCode s;
     headersWritten := headersWritten s; bodyWriter := bodyWriter s;
     flusher := flusher s; frameBuffer := frameBuffer s |}.

(** The trailer set [Finish] serializes: the status and the message
    are filled in when [Get] finds none. *)
Definition finalTrailers (tr : http.Header) (capturedStatusCode : Z) : http.Header :=
  let tr1 :=
    if String.eqb (http.Get tr "Grpc-Status") ""
    then http.Set_ tr "Grpc-Status" (Itoa (httpStatusToGrpcCode capturedStatusCode))
    else tr in
  if String.eqb (http.Get tr1 "Grpc-Message") ""
     && negb (capturedStatusCode =? http.StatusOK)
  then http.Set_ tr1 "Grpc-Message" (http.StatusText capturedStatusCode)
  else tr1.

(** [Finish()]: the new state and the error. *)
Definition Finish (s : t) : t * option error :=
  let s1 := writeHeaders s in
  let s2 := withTrailers s1 (finalTrailers (trailers s1) (capturedStatusCode s1)) in
  let trailerBuf := http.Write (trailers s2) in
  let frameHeader :=
    grpcTrailerFrame :: BigEndian.PutUint32 (uint32 (len trailerBuf)) in
  match bodyWrite (bodyWriter s2) (w s2) frameHeader with
  | (bw1, w1, Some e) =>
      (withBody s2 bw1 w1 (frameBuffer s2),
       Some (Errorf "failed to write trailer frame header" e))
  | (bw1, w1, None) =>
      match bodyWrite bw1 w1 trailerBuf with
      | (bw2, w2, Some e) =>
          (withBody s2 bw2 w2 (frameBuffer s2),
           Some (Errorf "failed to write trailer payload" e))
      | (bw2, w2, None) =>
          match bw2 with
          | flushingBase64Writer enc =>
              match base64.Close enc w2 with
              | (enc1, w3, Some e) =>
                  (withBody s2 (flushingBase64Writer enc1) w3 (frameBuffer s2),
                   Some (Errorf "failed closing body writer" e))
              | (enc1, w3, None) =>
                  (Flush (withBody s2 (flushingBase64Writer enc1) w3 (frameBuffer s2)),
                   None)
              end
          | Direct => (Flush (withBody s2 Direct w2 (frameBuffer s2)), None)
          end
      end
  end.

End StreamingResponseWriter.

Import StreamingResponseWriter.

(** A sequence of calls a handler makes on the response writer before
    it finishes the response. *)
Inductive call : Type :=
| CallHeaderSet (key value : string)      (* w.Header().Set(key, value) *)
| CallHeaderAdd (key value : string)      (* w.Header().Add(key, value) *)
| CallHeaderDel (key : string)            (* w.Header().Del(key) *)
| CallHeaderAssign (key : string) (values : list string)
                                          (* w.Header()[key] = values *)
| CallWriteHeader (statusCode : Z)
| CallWrite (p : list byte)
| CallFlush.

Definition step (s : t) (c : call) : t :=
  match c with
  | CallHeaderSet k v => withHeader s (http.Set_ (Header s) k v)
  | CallHeaderAdd k v => withHeader s (http.Add (Header s) k v)
  | CallHeaderDel k => withHeader s (http.Del (Header s) k)
  | CallHeaderAssign k vs => withHeader s (<[k := vs]> (Header s))
  | CallWriteHeader c => WriteHeader s c
  | CallWrite p => fst (fst (Write s p))
  | CallFlush => Flush s
  end.

Definition run (s : t) (calls : list call) : t := fold_left step calls s.

(** [Write] once per chunk, stopping at the first error as a caller
    does: the state reached and the error, if any. *)
Fixpoint writeAll (s : t) (chunks : list (list byte)) : t * option error :=
  match chunks with
  | [] => (s, None)
  | p :: rest =>
      match Write s p with
      | (s1, _, Some e) => (s1, Some e)
      | (s1, _, None) => writeAll s1 rest
      end
  end.

(** ** Frames on the wire *)

(** A native frame as the backend writes it ([writeGrpcFrame] writes
    compression flag 0), and the web DATA frame of a payload. *)
Definition nativeFrame (flag : byte) (payload : list byte) : list byte :=
  flag :: BigEndian.PutUint32 (len payload) ++ payload.

Definition webDataFrame (payload : list byte) : list byte :=
  grpcDataFrame :: BigEndian.PutUint32 (len payload) ++ payload.

Definition nativeStream (frames : list (byte * list byte)) : list byte :=
  flat_map (fun f => nativeFrame (fst f) (snd f)) frames.

Definition webStream (frames : list (byte * list byte)) : list byte :=
  flat_map (fun f => webDataFrame (snd f)) frames.

(** [readGrpcWebFrame], the client-side decoder of the test suite: the
    frame type, the payload and the error. *)
Definition readGrpcWebFrame (r : io.Reader) : io.Reader * byte * list byte * option error :=
  let '(r1, header, herr) := io.ReadFull r 5 in
  match herr with
  | Some e => (r1, x00, [], Some e)
  | None =>
      let frameType := nth 0 header x00 in
      let length_ := BigEndian.Uint32 (drop 1 header) in
      if length_ =? 0 then (r1, frameType, [], None)
      else
        let '(r2, payload, perr) := io.ReadFull r1 (Z.to_nat length_) in
        match perr with
        | Some e => (r2, x00, [], Some e)
        | None => (r2, frameType, payload, None)
        end
  end.

(** The transport of a test: an empty recorder that never refuses a
    write. *)
Definition NewRecorder : http.ResponseWriter :=
  {| http.rw_header := ∅; http.rw_status := []; http.rw_body := [];
     http.rw_room := None; http.rw_flusher := true; http.rw_flushes := 0 |}.

(** ** The callers: the test suite's helpers and a reader's loop *)

(** [flushingBase64Writer.Flush]: the flush goes to the transport when
    it is an [http.Flusher]; the encoder is not touched. *)
Definition flushingBase64Writer_Flush (w0 : http.ResponseWriter) : http.ResponseWriter :=
  if http.rw_flusher w0 then rwFlush w0 else w0.

(** [writeGrpcFrame]: the bytes the backend writes for a payload. *)
Definition writeGrpcFrame (payload : list byte) : list byte :=
  (x00 :: BigEndian.PutUint32 (uint32 (len payload))) ++ payload.

(** [createGrpcWebRequestBody]: one web DATA frame around the payload,
    base64 encoded as a whole for a text request. *)
Definition createGrpcWebRequestBody (payload : list byte) (textEncode : bool) : list byte :=
  let buf := (x00 :: BigEndian.PutUint32 (uint32 (len payload))) ++ payload in
  if textEncode then base64.Encode buf else buf.

(** [readGrpcFrame], the backend-side decoder of the test suite: the
    payload of the next native frame and the error. *)
Definition readGrpcFrame (r : io.Reader) : io.Reader * list byte * option error :=
  let '(r1, header, herr) := io.ReadFull r 5 in
  match herr with
  | Some e => (r1, [], Some e)
  | None =>
      let length_ := BigEndian.Uint32 (drop 1 header) in
      if length_ =? 0 then (r1, [], None)
      else
        let '(r2, payload, perr) := io.ReadFull r1 (Z.to_nat length_) in
        match perr with
        | Some e => (r2, [], Some e)
        | None => (r2, payload, None)
        end
  end.

(** The loop of a consumer of the translated body: [Read] into a
    buffer of [n] bytes, keep what arrives, until [Read] reports an
    error ([io.EOF] included).  [None] as the error: the rounds of
    [fuel] did not reach the end. *)
Fixpoint readAll (fuel : nat) (fr : FrameReader.t) (n : nat) : list byte * option error :=
  match fuel with
  | O => ([], None)
  | S fuel' =>
      match FrameReader.Read fr n with
      | (_, out, Some e) => (out, Some e)
      | (fr', out, None) =>
          let '(rest, e) := readAll fuel' fr' n in (out ++ rest, e)
      end
  end.

(** The loop ends, given rounds enough, with the bytes [out] and the
    error [e]. *)
Definition readsToEnd (fr : FrameReader.t) (n : nat) (out : list byte) (e : error) : Prop :=
  exists fuel0, forall fuel, (fuel0 <= fuel)%nat -> readAll fuel fr n = (out, Some e).

(** A user of the [flushingBase64Writer] on its own: [Write] once per
    chunk with a [Flush] behind each, stopping at the first error,
    then [Close].  The encoder, the transport and the error. *)
Fixpoint writeFlushed (enc : base64.encoder) (w0 : http.ResponseWriter)
    (chunks : list (list byte)) : base64.encoder * http.ResponseWriter * option error :=
  match chunks with
  | [] => base64.Close enc w0
  | p :: rest =>
      match base64.Write enc w0 p with
      | (enc1, w1, Some e) => (enc1, w1, Some e)
      | (enc1, w1, None) => writeFlushed enc1 (flushingBase64Writer_Flush w1) rest
      end
  end.

(** A request body of web DATA frames, one per payload. *)
Definition webFrames (payloads : list (list byte)) : list byte :=
  flat_map webDataFrame payloads.

(** The native frames, compression flag 0, of the same payloads. *)
Definition nativeFrames (payloads : list (list byte)) : list byte :=
  flat_map (nativeFrame x00) payloads.

(** ** The vocabulary of the statements *)

(** Writing body bytes or flushing leaves the transport's header map
    and status line as they are. *)
Definition sameHead (w1 w2 : http.ResponseWriter) : Prop :=
  http.rw_header w1 = http.rw_header w2 /\ http.rw_status w1 = http.rw_status w2.

(** The length the header at the head of the buffer declares. *)
Definition declared (frameBuffer : list byte) : Z :=
  BigEndian.Uint32 (drop 1 (take 5 frameBuffer)).

(** The header [Write] emits for the frame at the head of the buffer. *)
Definition emittedHeader (frameBuffer : list byte) : list byte :=
  grpcDataFrame :: BigEndian.PutUint32 (declared frameBuffer).

(** What header finalization leaves on the transport: status 200 on
    top of the status log, the forced content type of the mode, and
    the exposure entry at the end of its field. *)
Definition finalized (s s' : t) : Prop :=
  headersWritten s' = true
  /\ http.rw_status (w s') = http.StatusOK :: http.rw_status (w s)
  /\ http.rw_header (w s') !! "Content-Type"
     = Some [if isTextResponse s then ContentTypeGRPCWebTextProto
             else ContentTypeGRPCWebProto]
  /\ http.Get (http.rw_header (w s')) "Content-Type"
     = (if isTextResponse s then ContentTypeGRPCWebTextProto
        else ContentTypeGRPCWebProto)
  /\ exists before,
       http.rw_header (w s') !! "Access-Control-Expose-Headers"
       = Some (before ++ ["grpc-status, grpc-message"]).

(** The canonical name the promotion loop looks up for an announced
    key. *)
Definition promotedKey (key : string) : string :=
  http.CanonicalHeaderKey (strings.TrimSpace key).

(** The response writer of the example: "Trailer: X-Foo" and
    "X-Foo: bar" buffered, nothing sent yet. *)
Definition announcingXFoo (isText : bool) : t :=
  step (step (NewStreamingResponseWriter NewRecorder isText)
             (CallHeaderSet "Trailer" "X-Foo"))
       (CallHeaderSet "X-Foo" "bar").

(** The status codes [http.StatusText] knows. *)
Definition registered (statusCode : Z) : bool :=
  existsb (fun e => fst e =? statusCode) http.statusTexts.

(** C4 as the specification words it: with no Grpc-Status among the
    trailers, [Finish] sets it to 0 for a captured 200, and otherwise
    to the nonzero mapped code together with a Grpc-Message that is
    not empty. *)
Definition synthesizesStatusAndMessage (s : t) : Prop :=
  http.Get (trailers (writeHeaders s)) "Grpc-Status" = "" ->
  let tr := trailers (fst (Finish s)) in
  (capturedStatusCode s = 200 -> http.Get tr "Grpc-Status" = "0")
  /\ (capturedStatusCode s <> 200 ->
      http.Get tr "Grpc-Status" = Itoa (httpStatusToGrpcCode (capturedStatusCode s))
      /\ httpStatusToGrpcCode (capturedStatusCode s) <> 0
      /\ http.Get tr "Grpc-Message" <> "").

(** The source ends, or breaks, after 1 to 4 bytes of a header. *)
Definition cutInHeader (bs : list byte) : Prop := 1 <= len bs <= 4.

(** The source ends, or breaks, before the payload the header at its
    head declares is complete. *)
Definition cutInPayload (bs : list byte) : Prop :=
  5 <= len bs /\ len bs - 5 < declared bs.

(** A read that delivers nothing and fails with an error other than
    [io.EOF]. *)
Definition hardFailure (r : FrameReader.t * list byte * option error) : Prop :=
  snd (fst r) = [] /\ exists e, snd r = Some e /\ isEOF e = false.

(** C6 as the specification words it: every cut in a header or in a
    payload is a hard failure of the [Read] that meets it. *)
Definition truncationIsHardFailure (fr : FrameReader.t) (n : nat) : Prop :=
  FrameReader.buffer fr = [] ->
  cutInHeader (io.pending (FrameReader.source fr)) \/ cutInPayload (io.pending (FrameReader.source fr)) ->
  hardFailure (FrameReader.Read fr n).

(** The transport after it has accepted the bytes [q]. *)
Definition accepted (w0 : http.ResponseWriter) (q : list byte) : http.ResponseWriter :=
  {| http.rw_header := http.rw_header w0;
     http.rw_status := http.rw_status w0;
     http.rw_body := http.rw_body w0 ++ q;
     http.rw_room := http.rw_room w0;
     http.rw_flusher := http.rw_flusher w0;
     http.rw_flushes := http.rw_flushes w0 |}.

(** What is left in the buffer is less than the next frame. *)
Definition incomplete (P : list byte) (G : list (byte * list byte)) : Prop :=
  match G with
  | [] => P = []
  | g :: _ => len P < len (nativeFrame (fst g) (snd g))
  end.

(** The header of a native frame that declares 4294967295 payload
    bytes. *)
Definition largestFrameHeader : list byte := [x00; xff; xff; xff; xff].

(** The six bits of [val] from bit [shift] up. *)
Definition sixBits (val shift : Z) : Z := (val / 2 ^ shift) mod 64.

(** The characters [Encode] produces, in terms of six-bit digits. *)
Definition quantum3 (a b c : byte) : list byte :=
  let val := byte_to_Z a * 2 ^ 16 + byte_to_Z b * 2 ^ 8 + byte_to_Z c in
  [base64.encodeChar (sixBits val 18); base64.encodeChar (sixBits val 12);
   base64.encodeChar (sixBits val 6); base64.encodeChar (sixBits val 0)].

Definition quantum2 (a b : byte) : list byte :=
  let val := byte_to_Z a * 2 ^ 16 + byte_to_Z b * 2 ^ 8 in
  [base64.encodeChar (sixBits val 18); base64.encodeChar (sixBits val 12);
   base64.encodeChar (sixBits val 6); base64.padChar].

Definition quantum1 (a : byte) : list byte :=
  let val := byte_to_Z a * 2 ^ 16 in
  [base64.encodeChar (sixBits val 18); base64.encodeChar (sixBits val 12);
   base64.padChar; base64.padChar].

(** The encoder in mid-stream: of the bytes [bin] written to it so
    far, whole groups of three have gone out encoded behind [base] on
    the transport, and the last one or two wait in the encoder. *)
Definition textState (base : list byte) (enc : base64.encoder)
    (wt : http.ResponseWriter) (bin : list byte) : Prop :=
  base64.err enc = None
  /\ http.rw_room wt = None
  /\ (length (base64.buf enc) < 3)%nat
  /\ exists sent,
       bin = sent ++ base64.buf enc
       /\ (length sent mod 3 = 0)%nat
       /\ http.rw_body wt = base ++ base64.Encode sent.

(** Two transports that differ in their bodies at most. *)
Definition sameMeta (w1 w2 : http.ResponseWriter) : Prop :=
  http.rw_header w1 = http.rw_header w2
  /\ http.rw_status w1 = http.rw_status w2
  /\ http.rw_room w1 = http.rw_room w2
  /\ http.rw_flusher w1 = http.rw_flusher w2
  /\ http.rw_flushes w1 = http.rw_flushes w2.

(** A response writer in text mode and one in binary mode that have
    been driven alike: the same buffered state, and the text-mode
    encoder in mid-stream over the bytes the binary transport holds
    behind [base]. *)
Definition mirrors (base : list byte) (st sb : t) : Prop :=
  headers st = headers sb
  /\ trailers st = trailers sb
  /\ capturedStatusCode st = capturedStatusCode sb
  /\ headersWritten st = headersWritten sb
  /\ frameBuffer st = frameBuffer sb
  /\ flusher st = flusher sb
  /\ bodyWriter sb = Direct
  /\ http.rw_room (w sb) = None
  /\ exists enc bin,
       bodyWriter st = flushingBase64Writer enc
       /\ http.rw_body (w sb) = base ++ bin
       /\ textState base enc (w st) bin.

(** What the body writer has been given since the transport held
    [base]: in binary mode the transport's body itself, in text mode
    what the encoder has sent on and what it still holds.  The body
    writer is in working order: no sticky error, and a transport that
    takes what it is given. *)
Definition delivered (base : list byte) (bw : BodyWriter)
    (w0 : http.ResponseWriter) (bytes : list byte) : Prop :=
  http.rw_room w0 = None
  /\ match bw with
     | Direct => http.rw_body w0 = base ++ bytes
     | flushingBase64Writer enc => textState base enc w0 bytes
     end.

(** * Properties *)

(** ** Bytes, integers, buffers *)

Lemma byte_to_Z_range b : 0 <= byte_to_Z b < 256.
Proof.
  unfold byte_to_Z. pose proof (Byte.to_N_bounded b). lia.
Qed.

Lemma byte_of_to_Z b : byte_of_Z (byte_to_Z b) = b.
Proof.
  unfold byte_of_Z. pose proof (byte_to_Z_range b) as Hb.
  rewrite Z.mod_small by lia. unfold byte_to_Z.
  rewrite N2Z.id, Byte.of_to_N. reflexivity.
Qed.

Lemma byte_of_Z_mod v : byte_of_Z (v mod 256) = byte_of_Z v.
Proof. unfold byte_of_Z. rewrite Z.mod_mod by lia. reflexivity. Qed.

Lemma byte_of_Z_eq v b : v mod 256 = byte_to_Z b -> byte_of_Z v = b.
Proof.
  intros H. rewrite <- byte_of_Z_mod, H. apply byte_of_to_Z.
Qed.

Lemma lor_shiftl_add x y n :
  0 <= n -> 0 <= y < 2 ^ n -> Z.lor (Z.shiftl x n) y = x * 2 ^ n + y.
Proof.
  intros Hn Hy.
  assert (Hland : Z.land (Z.shiftl x n) y = 0).
  { apply Z.bits_inj'. intros i Hi. rewrite Z.land_spec, Z.bits_0.
    destruct (Z.lt_ge_cases i n) as [Hlt|Hge].
    - rewrite Z.shiftl_spec_low by lia. reflexivity.
    - replace y with (y mod 2 ^ n) by (apply Z.mod_small; lia).
      rewrite Z.mod_pow2_bits_high by lia. apply andb_false_r. }
  rewrite <- Z.lxor_lor by exact Hland.
  rewrite <- Z.add_nocarry_lxor by exact Hland.
  rewrite Z.shiftl_mul_pow2 by lia. reflexivity.
Qed.

Lemma byte_to_of_Z v : byte_to_Z (byte_of_Z v) = v mod 256.
Proof.
  unfold byte_of_Z, byte_to_Z.
  pose proof (Z.mod_pos_bound v 256 ltac:(lia)) as Hm.
  destruct (Byte.of_N (Z.to_N (v mod 256))) as [b|] eqn:E.
  - apply Byte.to_of_N in E. rewrite E. lia.
  - apply Byte.of_N_None_iff in E. lia.
Qed.

Lemma shiftr_div v n : 0 <= n -> Z.shiftr v n = v / 2 ^ n.
Proof. intros. apply Z.shiftr_div_pow2. lia. Qed.

Lemma Uint32_cons4 b0 b1 b2 b3 rest :
  BigEndian.Uint32 (b0 :: b1 :: b2 :: b3 :: rest)
  = byte_to_Z b0 * 2 ^ 24 + byte_to_Z b1 * 2 ^ 16 + byte_to_Z b2 * 2 ^ 8 + byte_to_Z b3.
Proof.
  unfold BigEndian.Uint32. cbn [nth].
  pose proof (byte_to_Z_range b0). pose proof (byte_to_Z_range b1).
  pose proof (byte_to_Z_range b2). pose proof (byte_to_Z_range b3).
  rewrite (Z.lor_comm (byte_to_Z b3)), lor_shiftl_add by lia.
  rewrite (Z.lor_comm _ (Z.shiftl (byte_to_Z b1) 16)), lor_shiftl_add by lia.
  rewrite (Z.lor_comm _ (Z.shiftl (byte_to_Z b0) 24)), lor_shiftl_add by lia.
  lia.
Qed.

Lemma Uint32_range b : 0 <= BigEndian.Uint32 b < 2 ^ 32.
Proof.
  assert (H0 : byte_to_Z x00 = 0) by reflexivity.
  assert (forall b0 b1 b2 b3,
             0 <= BigEndian.Uint32 [b0; b1; b2; b3] < 2 ^ 32) as Hfour.
  { intros. rewrite Uint32_cons4.
    pose proof (byte_to_Z_range b0). pose proof (byte_to_Z_range b1).
    pose proof (byte_to_Z_range b2). pose proof (byte_to_Z_range b3). lia. }
  destruct b as [|b0 [|b1 [|b2 [|b3 rest]]]].
  - apply (Hfour x00 x00 x00 x00).
  - apply (Hfour b0 x00 x00 x00).
  - apply (Hfour b0 b1 x00 x00).
  - apply (Hfour b0 b1 b2 x00).
  - change (BigEndian.Uint32 (b0 :: b1 :: b2 :: b3 :: rest))
      with (BigEndian.Uint32 [b0; b1; b2; b3]). apply Hfour.
Qed.

(** Writing a 32-bit value and reading it back. *)
Lemma Uint32_PutUint32 v rest :
  0 <= v < 2 ^ 32 -> BigEndian.Uint32 (BigEndian.PutUint32 v ++ rest) = v.
Proof.
  intros Hv. unfold BigEndian.PutUint32. cbn [app].
  rewrite Uint32_cons4, !byte_to_of_Z, !shiftr_div by lia.
  Z.div_mod_to_equations. lia.
Qed.

(** Reading four bytes and writing the value back. *)
Lemma PutUint32_Uint32 b0 b1 b2 b3 rest :
  BigEndian.PutUint32 (BigEndian.Uint32 (b0 :: b1 :: b2 :: b3 :: rest))
  = [b0; b1; b2; b3].
Proof.
  rewrite Uint32_cons4. unfold BigEndian.PutUint32.
  pose proof (byte_to_Z_range b0). pose proof (byte_to_Z_range b1).
  pose proof (byte_to_Z_range b2). pose proof (byte_to_Z_range b3).
  rewrite !shiftr_div by lia.
  repeat f_equal; apply byte_of_Z_eq; Z.div_mod_to_equations; lia.
Qed.

Lemma length_PutUint32 v : length (BigEndian.PutUint32 v) = 4%nat.
Proof. reflexivity. Qed.

Lemma takeZ_take {A} n (l : list A) : takeZ n l = take (Z.to_nat n) l.
Proof.
  revert n. induction l as [|x l IH]; intros n; simpl.
  - destruct (Z.to_nat n); reflexivity.
  - destruct (0 <? n) eqn:E.
    + apply Z.ltb_lt in E. rewrite IH.
      replace (Z.to_nat n) with (S (Z.to_nat (n - 1))) by lia. reflexivity.
    + apply Z.ltb_ge in E. replace (Z.to_nat n) with 0%nat by lia. reflexivity.
Qed.

Lemma dropZ_drop {A} n (l : list A) : dropZ n l = drop (Z.to_nat n) l.
Proof.
  revert n. induction l as [|x l IH]; intros n; simpl.
  - destruct (Z.to_nat n); reflexivity.
  - destruct (0 <? n) eqn:E.
    + apply Z.ltb_lt in E. rewrite IH.
      replace (Z.to_nat n) with (S (Z.to_nat (n - 1))) by lia. reflexivity.
    + apply Z.ltb_ge in E. replace (Z.to_nat n) with 0%nat by lia. reflexivity.
Qed.

Lemma len_app {A} (a b : list A) : len (a ++ b) = len a + len b.
Proof. unfold len. rewrite length_app. lia. Qed.

Lemma len_nonneg {A} (a : list A) : 0 <= len a.
Proof. unfold len. lia. Qed.

Lemma takeZ_app_len {A} (a b : list A) : takeZ (len a) (a ++ b) = a.
Proof.
  rewrite takeZ_take. unfold len. rewrite Nat2Z.id. apply take_app_length.
Qed.

Lemma dropZ_app_len {A} (a b : list A) : dropZ (len a) (a ++ b) = b.
Proof.
  rewrite dropZ_drop. unfold len. rewrite Nat2Z.id. apply drop_app_length.
Qed.

Lemma takeZ_short {A} n (l : list A) : len l <= n -> takeZ n l = l.
Proof.
  intros H. rewrite takeZ_take. apply take_ge. unfold len in H. lia.
Qed.

Lemma dropZ_short {A} n (l : list A) : len l <= n -> dropZ n l = [].
Proof.
  intros H. rewrite dropZ_drop. apply drop_ge. unfold len in H. lia.
Qed.

(** ** The status mapping *)

(** C5. [httpStatusToGrpcCode] is a function on all integers that maps
    200 to OK, 400 to Internal, 401 to Unauthenticated, 403 to
    PermissionDenied, 404 to Unimplemented, each of 429, 502, 503 and
    504 to Unavailable, and every other status to Unknown. *)
Theorem httpStatusToGrpcCode_table :
  httpStatusToGrpcCode 200 = codes.OK
  /\ httpStatusToGrpcCode 400 = codes.Internal
  /\ httpStatusToGrpcCode 401 = codes.Unauthenticated
  /\ httpStatusToGrpcCode 403 = codes.PermissionDenied
  /\ httpStatusToGrpcCode 404 = codes.Unimplemented
  /\ httpStatusToGrpcCode 429 = codes.Unavailable
  /\ httpStatusToGrpcCode 502 = codes.Unavailable
  /\ httpStatusToGrpcCode 503 = codes.Unavailable
  /\ httpStatusToGrpcCode 504 = codes.Unavailable
  /\ forall c : Z,
       ~ In c [200; 400; 401; 403; 404; 429; 502; 503; 504] ->
       httpStatusToGrpcCode c = codes.Unknown.
Proof.
  repeat split; try reflexivity.
  intros c Hc. cbn [In] in Hc. unfold httpStatusToGrpcCode.
  unfold http.StatusOK, http.StatusBadRequest, http.StatusUnauthorized,
    http.StatusForbidden, http.StatusNotFound, http.StatusTooManyRequests,
    http.StatusBadGateway, http.StatusServiceUnavailable,
    http.StatusGatewayTimeout.
  repeat match goal with
         | |- context [?a =? ?b] => destruct (Z.eqb_spec a b); [lia|]
         end.
  reflexivity.
Qed.

Lemma httpStatusToGrpcCode_table_witness :
  ~ In 500 [200; 400; 401; 403; 404; 429; 502; 503; 504]
  /\ httpStatusToGrpcCode 500 = codes.Unknown.
Proof.
  split.
  - cbn [In]. lia.
  - apply (proj2 (proj2 (proj2 (proj2 (proj2 (proj2 (proj2 (proj2 (proj2
             httpStatusToGrpcCode_table))))))))).
    cbn [In]. lia.
Defined.

(** Every status but 200 maps to a code other than OK. *)
Lemma httpStatusToGrpcCode_nonzero c :
  c <> 200 -> httpStatusToGrpcCode c <> codes.OK.
Proof.
  intros Hc. unfold httpStatusToGrpcCode, http.StatusOK.
  destruct (Z.eqb_spec c 200); [lia|].
  repeat match goal with
         | |- context [if ?b then _ else _] => destruct b
         end; discriminate.
Qed.

(** ** Negotiation *)

(** C10. A request whose Content-Type is exactly
    "application/grpc-web-text+proto" and whose Accept value does not
    contain "application/grpc-web-text" is not a text request: the
    content type does not end in "-text". *)
Theorem IsTextRequest_text_proto_is_false (r : http.Request) :
  http.Get (http.Header_ r) "Content-Type" = ContentTypeGRPCWebTextProto ->
  strings.Contains (http.Get (http.Header_ r) "Accept") ContentTypeGRPCWebText = false ->
  IsTextRequest r = false.
Proof.
  intros Hct Hacc. unfold IsTextRequest. rewrite Hct, Hacc. reflexivity.
Qed.

Lemma IsTextRequest_text_proto_is_false_witness :
  IsTextRequest
    {| http.Method := "POST";
       http.Header_ :=
         http.Set_ (http.Set_ ∅ "Content-Type" "application/grpc-web-text+proto")
                   "Accept" "*/*" |} = false.
Proof.
  apply IsTextRequest_text_proto_is_false; vm_compute; reflexivity.
Defined.

(** ** Header finalization *)

Lemma sameHead_refl w1 : sameHead w1 w1.
Proof. split; reflexivity. Qed.

Lemma sameHead_trans w1 w2 w3 : sameHead w1 w2 -> sameHead w2 w3 -> sameHead w1 w3.
Proof. intros [? ?] [? ?]. split; congruence. Qed.

Lemma rwWrite_head w1 p : sameHead w1 (fst (rwWrite w1 p)).
Proof.
  unfold rwWrite. destruct (http.rw_room w1) as [r|]; [|split; reflexivity].
  destruct (length p <=? r)%nat; split; reflexivity.
Qed.

Lemma writeGroups_head w1 p : sameHead w1 (snd (fst (base64.writeGroups w1 p))).
Proof.
  unfold base64.writeGroups. destruct (3 <=? length p)%nat; [|apply sameHead_refl].
  pose proof (rwWrite_head w1 (base64.Encode (take (length p - length p mod 3) p))) as H.
  destruct (rwWrite w1 _) as [w2 [e|]]; exact H.
Qed.

Lemma base64_Write_head enc w1 p : sameHead w1 (snd (fst (base64.Write enc w1 p))).
Proof.
  unfold base64.Write. destruct (base64.err enc); [apply sameHead_refl|].
  destruct (base64.buf enc) as [|b bs]; [apply writeGroups_head|].
  destruct (_ <? 3)%nat; [apply sameHead_refl|].
  match goal with |- context [rwWrite w1 ?q] => pose proof (rwWrite_head w1 q) as H end.
  destruct (rwWrite w1 _) as [w2 [e|]]; [exact H|].
  eapply sameHead_trans; [exact H|apply writeGroups_head].
Qed.

Lemma base64_Close_head enc w1 : sameHead w1 (snd (fst (base64.Close enc w1))).
Proof.
  unfold base64.Close. destruct (base64.err enc); [apply sameHead_refl|].
  destruct (base64.buf enc) as [|b bs]; [apply sameHead_refl|].
  match goal with |- context [rwWrite w1 ?q] => pose proof (rwWrite_head w1 q) as H end.
  destruct (rwWrite w1 _) as [w2 e]; exact H.
Qed.

Lemma bodyWrite_head bw w1 p : sameHead w1 (snd (fst (bodyWrite bw w1 p))).
Proof.
  destruct bw as [|enc]; simpl.
  - pose proof (rwWrite_head w1 p) as H. destruct (rwWrite w1 p); exact H.
  - pose proof (base64_Write_head enc w1 p) as H.
    destruct (base64.Write enc w1 p) as [[? ?] ?]; exact H.
Qed.

Lemma bodyCopyN_head bw w1 chunk n : sameHead w1 (snd (fst (bodyCopyN bw w1 chunk n))).
Proof.
  unfold bodyCopyN. destruct chunk as [|c chunk].
  - destruct (len [] <? n); apply sameHead_refl.
  - pose proof (bodyWrite_head bw w1 (c :: chunk)) as H.
    destruct (bodyWrite bw w1 (c :: chunk)) as [[? ?] [e|]]; [exact H|].
    destruct (_ <? n); exact H.
Qed.

(** Induction along the rounds of the loop of [Write]: the two ways it
    stops, the two ways it fails, and a completed round. *)
Lemma drain_rounds
    (P : BodyWriter -> http.ResponseWriter -> list byte ->
         BodyWriter * http.ResponseWriter * list byte * option error -> Prop) :
  (forall bw w0 b, len b < 5 -> P bw w0 b (bw, w0, b, None)) ->
  (forall bw w0 b,
      5 <= len b -> uint32 (len b) < uint32 (5 + declared b) ->
      P bw w0 b (bw, w0, b, None)) ->
  (forall bw w0 b bw1 w1 e,
      5 <= len b -> uint32 (5 + declared b) <= uint32 (len b) ->
      bodyWrite bw w0 (emittedHeader b) = (bw1, w1, Some e) ->
      P bw w0 b (bw1, w1, drop 5 b, Some e)) ->
  (forall bw w0 b bw1 w1 bw2 w2 e,
      5 <= len b -> uint32 (5 + declared b) <= uint32 (len b) ->
      bodyWrite bw w0 (emittedHeader b) = (bw1, w1, None) ->
      bodyCopyN bw1 w1 (takeZ (declared b) (drop 5 b)) (declared b)
      = (bw2, w2, Some e) ->
      P bw w0 b (bw2, w2, dropZ (declared b) (drop 5 b), Some e)) ->
  (forall bw w0 b bw1 w1 bw2 w2,
      5 <= len b -> uint32 (5 + declared b) <= uint32 (len b) ->
      bodyWrite bw w0 (emittedHeader b) = (bw1, w1, None) ->
      bodyCopyN bw1 w1 (takeZ (declared b) (drop 5 b)) (declared b)
      = (bw2, w2, None) ->
      P bw2 w2 (dropZ (declared b) (drop 5 b))
        (drain bw2 w2 (dropZ (declared b) (drop 5 b))) ->
      P bw w0 b (drain bw2 w2 (dropZ (declared b) (drop 5 b)))) ->
  forall bw w0 b, P bw w0 b (drain bw w0 b).
Proof.
  intros Hshort Hwait Hhdr Hcopy Hround bw w0 b.
  funelim (drain bw w0 b); [|apply Hshort; lia].
  clear Heqcall Heq.
  match goal with
  | IH : context [drain] |- P ?bw ?w ?fb _ =>
      rename IH into IHdrain;
      fold (declared fb) in *; fold (emittedHeader fb) in *;
      destruct (Z.ltb_spec (uint32 (len fb)) (uint32 (5 + declared fb)))
        as [Hlt|Hge]; [apply Hwait; assumption|];
      destruct (bodyWrite bw w (emittedHeader fb)) as [[bw1 w1] [e|]] eqn:Ehdr;
        [eapply Hhdr; eassumption|];
      destruct (bodyCopyN bw1 w1 (takeZ (declared fb) (drop 5 fb)) (declared fb))
        as [[bw2 w2] [e|]] eqn:Ecopy;
        [eapply Hcopy; eassumption|];
      eapply Hround; try eassumption
  end.
  apply (IHdrain (bw2, w2) None bw2 w2 (bw2, w2) None bw2 w2 P); assumption.
Qed.

Lemma drain_head bw w1 frameBuffer :
  sameHead w1 (snd (fst (fst (drain bw w1 frameBuffer)))).
Proof.
  apply (drain_rounds (fun bw w0 b r => sameHead w0 (snd (fst (fst r)))));
    clear; simpl; intros; try apply sameHead_refl.
  - pose proof (bodyWrite_head bw w0 (emittedHeader b)) as Hh.
    rewrite H1 in Hh. exact Hh.
  - pose proof (bodyWrite_head bw w0 (emittedHeader b)) as Hh.
    pose proof (bodyCopyN_head bw1 w1 (takeZ (declared b) (drop 5 b)) (declared b)) as Hc.
    rewrite H1 in Hh. rewrite H2 in Hc. eapply sameHead_trans; eassumption.
  - pose proof (bodyWrite_head bw w0 (emittedHeader b)) as Hh.
    pose proof (bodyCopyN_head bw1 w1 (takeZ (declared b) (drop 5 b)) (declared b)) as Hc.
    rewrite H1 in Hh. rewrite H2 in Hc.
    eapply sameHead_trans; [exact Hh|]. eapply sameHead_trans; [exact Hc|]. exact H3.
Qed.

(** One round of the loop, as an equation. *)
Lemma drain_round bw w0 b :
  drain bw w0 b =
  if decide (5 <= len b) then
    if uint32 (len b) <? uint32 (5 + declared b) then (bw, w0, b, None)
    else
      match bodyWrite bw w0 (emittedHeader b) with
      | (bw1, w1, Some e) => (bw1, w1, drop 5 b, Some e)
      | (bw1, w1, None) =>
          match bodyCopyN bw1 w1 (takeZ (declared b) (drop 5 b)) (declared b) with
          | (bw2, w2, Some e) => (bw2, w2, dropZ (declared b) (drop 5 b), Some e)
          | (bw2, w2, None) => drain bw2 w2 (dropZ (declared b) (drop 5 b))
          end
      end
  else (bw, w0, b, None).
Proof.
  rewrite drain_equation_1. destruct (decide (5 <= len b)) as [Hl|Hl]; simp drain.
  - reflexivity.
  - reflexivity.
Qed.

Lemma writeHeaders_written s : headersWritten (writeHeaders s) = true.
Proof.
  unfold writeHeaders. destruct (headersWritten s) eqn:E; [exact E|].
  destruct (fold_left promote _ _). reflexivity.
Qed.

Lemma writeHeaders_idem s : headersWritten s = true -> writeHeaders s = s.
Proof. intros H. unfold writeHeaders. rewrite H. reflexivity. Qed.

Lemma finalized_sameHead s s1 s2 :
  finalized s s1 -> sameHead (w s1) (w s2) -> headersWritten s2 = true ->
  finalized s s2.
Proof.
  intros (H1 & H2 & H3 & H4 & H5) [Hh Hs] Hw. unfold finalized, http.Get in *.
  rewrite <- Hh, <- Hs. auto.
Qed.

Lemma writeHeaders_finalized s :
  headersWritten s = false -> finalized s (writeHeaders s).
Proof.
  intros Hw. unfold finalized, writeHeaders. rewrite Hw.
  destruct (fold_left promote _ _) as [headers1 trailers1]. cbn.
  unfold http.Get, http.Add, http.Set_.
  change (http.CanonicalHeaderKey "Content-Type") with "Content-Type".
  change (http.CanonicalHeaderKey "Access-Control-Expose-Headers")
    with "Access-Control-Expose-Headers".
  rewrite lookup_insert_ne by discriminate. rewrite lookup_insert_eq.
  rewrite lookup_insert_eq.
  repeat split; eauto.
Qed.

Lemma Write_state s p :
  exists bw w1 b,
    fst (fst (Write s p)) = withBody (writeHeaders s) bw w1 b
    /\ sameHead (w (writeHeaders s)) w1.
Proof.
  unfold Write.
  pose proof (drain_head (bodyWriter (writeHeaders s)) (w (writeHeaders s))
                (frameBuffer (writeHeaders s) ++ p)) as Hh.
  destruct (drain _ _ _) as [[[bw w1] b] [e|]]; simpl in *; eauto.
Qed.

Lemma Flush_state s :
  exists w1, Flush s = withBody (writeHeaders s) (bodyWriter (writeHeaders s)) w1
                         (frameBuffer (writeHeaders s))
             /\ sameHead (w (writeHeaders s)) w1.
Proof.
  unfold Flush. destruct (flusher (writeHeaders s)).
  - eexists. split; [reflexivity|]. split; reflexivity.
  - exists (w (writeHeaders s)). split; [|apply sameHead_refl].
    destruct (writeHeaders s); reflexivity.
Qed.

(** [Finish] ends in the state header finalization and the trailer
    synthesis produce, up to the body writer and the transport's body. *)
Lemma Finish_state s :
  exists bw w1,
    fst (Finish s)
    = withBody (withTrailers (writeHeaders s)
                  (finalTrailers (trailers (writeHeaders s))
                                 (capturedStatusCode (writeHeaders s))))
               bw w1 (frameBuffer (writeHeaders s))
    /\ sameHead (w (writeHeaders s)) w1.
Proof.
  unfold Finish.
  set (s1 := writeHeaders s).
  set (s2 := withTrailers s1 _).
  assert (Hw2 : headersWritten s2 = true) by apply writeHeaders_written.
  set (hdr := grpcTrailerFrame :: _).
  pose proof (bodyWrite_head (bodyWriter s2) (w s2) hdr) as H1.
  destruct (bodyWrite (bodyWriter s2) (w s2) hdr) as [[bw1 w1] [e|]]; simpl in H1;
    [eexists _, _; split; [reflexivity|exact H1]|].
  pose proof (bodyWrite_head bw1 w1 (http.Write (trailers s2))) as H2.
  destruct (bodyWrite bw1 w1 _) as [[bw2 w2] [e|]]; simpl in H2;
    [eexists _, _; split; [reflexivity|eapply sameHead_trans; eassumption]|].
  assert (H12 : sameHead (w s1) w2) by (eapply sameHead_trans; eassumption).
  assert (Hflush : forall bw w3, sameHead (w s1) w3 ->
            exists bw' w',
              Flush (withBody s2 bw w3 (frameBuffer s2))
              = withBody s2 bw' w' (frameBuffer s1)
              /\ sameHead (w s1) w').
  { intros bw w3 Hs. destruct (Flush_state (withBody s2 bw w3 (frameBuffer s2)))
      as (w4 & Hf & Hs4).
    rewrite writeHeaders_idem in Hf, Hs4 by exact Hw2.
    exists bw, w4. split; [exact Hf|]. eapply sameHead_trans; eassumption. }
  destruct bw2 as [|enc].
  - simpl. apply Hflush. exact H12.
  - pose proof (base64_Close_head enc w2) as H3.
    destruct (base64.Close enc w2) as [[enc1 w3] [e|]]; simpl in H3.
    + eexists _, _. split; [reflexivity|]. eapply sameHead_trans; eassumption.
    + simpl. apply Hflush. eapply sameHead_trans; eassumption.
Qed.

(** C7. Whichever of [Write], [Flush] and [Finish] comes first
    finalizes the headers: the status written to the transport is 200
    whatever status was captured, Content-Type is the fixed value of
    the mode, and "grpc-status, grpc-message" is added to
    Access-Control-Expose-Headers. *)
Theorem first_call_finalizes_headers (s : t) (p : list byte) :
  headersWritten s = false ->
  finalized s (fst (fst (Write s p)))
  /\ finalized s (Flush s)
  /\ finalized s (fst (Finish s)).
Proof.
  intros Hw. pose proof (writeHeaders_finalized s Hw) as Hf.
  pose proof (writeHeaders_written s) as Hw1.
  split; [|split].
  - destruct (Write_state s p) as (bw & w1 & b & -> & Hs).
    eapply finalized_sameHead; [exact Hf|exact Hs|exact Hw1].
  - destruct (Flush_state s) as (w1 & -> & Hs).
    eapply finalized_sameHead; [exact Hf|exact Hs|exact Hw1].
  - destruct (Finish_state s) as (bw & w1 & -> & Hs).
    eapply finalized_sameHead; [exact Hf|exact Hs|exact Hw1].
Qed.

Lemma first_call_finalizes_headers_witness :
  let s := WriteHeader (NewStreamingResponseWriter NewRecorder true) 503 in
  finalized s (fst (fst (Write s [x00; x00; x00; x00; x00])))
  /\ finalized s (Flush s)
  /\ finalized s (fst (Finish s)).
Proof.
  apply first_call_finalizes_headers. reflexivity.
Defined.

(** Once the headers are out, no call writes a status or touches the
    transport's header map again. *)
Lemma later_calls_keep_head (s : t) (p : list byte) :
  headersWritten s = true ->
  sameHead (w s) (w (fst (fst (Write s p))))
  /\ sameHead (w s) (w (Flush s))
  /\ sameHead (w s) (w (fst (Finish s))).
Proof.
  intros Hw. split; [|split].
  - destruct (Write_state s p) as (bw & w1 & b & -> & Hs).
    rewrite writeHeaders_idem in Hs by exact Hw. exact Hs.
  - destruct (Flush_state s) as (w1 & -> & Hs).
    rewrite writeHeaders_idem in Hs by exact Hw. exact Hs.
  - destruct (Finish_state s) as (bw & w1 & -> & Hs).
    rewrite writeHeaders_idem in Hs by exact Hw. exact Hs.
Qed.

(** ** Trailer promotion *)

Lemma promote_keeps_moved keys : forall h tr k (v : list string),
  h !! k = None -> tr !! k = Some v ->
  fst (fold_left promote keys (h, tr)) !! k = None
  /\ snd (fold_left promote keys (h, tr)) !! k = Some v.
Proof.
  induction keys as [|key keys IH]; intros h tr k v Hh Ht; [auto|].
  cbn [fold_left]. remember (promote (h, tr) key) as ht eqn:Ep.
  unfold promote in Ep. cbn [fst snd] in Ep.
  destruct (h !! http.CanonicalHeaderKey (strings.TrimSpace key)) as [val|] eqn:E;
    subst ht; [|apply IH; assumption].
  assert (http.CanonicalHeaderKey (strings.TrimSpace key) <> k) by congruence.
  apply IH.
  - rewrite lookup_delete_ne by assumption. exact Hh.
  - rewrite lookup_insert_ne by assumption. exact Ht.
Qed.

Lemma promote_moves keys : forall h tr key k (v : list string),
  In key keys -> k = promotedKey key -> h !! k = Some v ->
  fst (fold_left promote keys (h, tr)) !! k = None
  /\ snd (fold_left promote keys (h, tr)) !! k = Some v.
Proof.
  induction keys as [|key0 keys IH]; intros h tr key k v Hin Hk Hh; [destruct Hin|].
  cbn [fold_left]. remember (promote (h, tr) key0) as ht eqn:Ep.
  unfold promote in Ep. cbn [fst snd] in Ep.
  fold (promotedKey key0) in Ep.
  destruct (decide (promotedKey key0 = k)) as [Heq|Hne].
  - rewrite Heq, Hh in Ep. subst ht.
    apply promote_keeps_moved.
    + apply lookup_delete_eq.
    + apply lookup_insert_eq.
  - destruct Hin as [->|Hin]; [congruence|].
    destruct (h !! promotedKey key0) as [val|] eqn:E; subst ht.
    + eapply IH; [exact Hin|exact Hk|].
      rewrite lookup_delete_ne by assumption. exact Hh.
    + eapply IH; eassumption.
Qed.

(** The transport's header map after finalization, away from the two
    fields the adapter sets itself: the forwarded headers over what
    was there. *)
Lemma writeHeaders_transport s k :
  headersWritten s = false ->
  k <> "Content-Type" -> k <> "Access-Control-Expose-Headers" ->
  http.rw_header (w (writeHeaders s)) !! k
  = match headers (writeHeaders s) !! k with
    | Some v => if forwarded k then Some v else http.rw_header (w s) !! k
    | None => http.rw_header (w s) !! k
    end.
Proof.
  intros Hw Hct Hex. unfold writeHeaders. rewrite Hw.
  destruct (fold_left promote _ _) as [headers1 trailers1]. cbn.
  unfold http.Add, http.Set_.
  change (http.CanonicalHeaderKey "Content-Type") with "Content-Type".
  change (http.CanonicalHeaderKey "Access-Control-Expose-Headers")
    with "Access-Control-Expose-Headers".
  rewrite !lookup_insert_ne by congruence.
  rewrite lookup_union.
  destruct (delete "Trailer" headers1 !! k) as [v|] eqn:E.
  - destruct (forwarded k) eqn:F.
    + erewrite (proj2 (map_lookup_filter_Some _ _ k v)) by (split; assumption).
      destruct (http.rw_header (w s) !! k); reflexivity.
    + rewrite (proj2 (map_lookup_filter_None _ _ k)).
      * destruct (http.rw_header (w s) !! k); reflexivity.
      * right. intros x Hx. cbn. congruence.
  - rewrite (proj2 (map_lookup_filter_None _ _ k)) by (left; exact E).
    destruct (http.rw_header (w s) !! k); reflexivity.
Qed.

(** C8. With "Trailer: X-Foo" and "X-Foo: bar" buffered, header
    finalization leaves neither X-Foo nor Trailer among the headers
    the transport gets and puts X-Foo: bar into the trailer set (and
    so into the trailer frame).  In general every field named in a
    Trailer value and present among the buffered headers is moved to
    the trailer set with its values and is not forwarded; the Trailer
    field itself is dropped. *)
Theorem trailer_promotion :
  (forall isText,
      let s' := writeHeaders (announcingXFoo isText) in
      http.rw_header (w s') !! "X-Foo" = None
      /\ http.rw_header (w s') !! "Trailer" = None
      /\ headers s' !! "X-Foo" = None
      /\ headers s' !! "Trailer" = None
      /\ trailers s' !! "X-Foo" = Some ["bar"])
  /\ (http.rw_body (w (fst (Finish (announcingXFoo false))))
      = [x80; x00; x00; x00; x1c]
          ++ list_byte_of_string "Grpc-Status: 0" ++ ["013"; "010"]%byte
          ++ list_byte_of_string "X-Foo: bar" ++ ["013"; "010"]%byte)
  /\ (forall (s : t) (key : string) (v : list string),
         headersWritten s = false ->
         In key (announced (headers s)) ->
         headers s !! promotedKey key = Some v ->
         trailers (writeHeaders s) !! promotedKey key = Some v
         /\ headers (writeHeaders s) !! promotedKey key = None
         /\ (promotedKey key <> "Content-Type" ->
             promotedKey key <> "Access-Control-Expose-Headers" ->
             http.rw_header (w (writeHeaders s)) !! promotedKey key
             = http.rw_header (w s) !! promotedKey key))
  /\ (forall s : t,
         headersWritten s = false ->
         headers (writeHeaders s) !! "Trailer" = None
         /\ http.rw_header (w (writeHeaders s)) !! "Trailer"
            = http.rw_header (w s) !! "Trailer").
Proof.
  split; [|split; [|split]].
  - intros [|]; vm_compute; auto.
  - vm_compute. reflexivity.
  - intros s key v Hw Hin Hv.
    assert (Hmoved : trailers (writeHeaders s) !! promotedKey key = Some v
                     /\ headers (writeHeaders s) !! promotedKey key = None).
    { destruct (promote_moves (announced (headers s)) (headers s) (trailers s)
                  key (promotedKey key) v Hin eq_refl Hv) as [Hh Ht].
      unfold writeHeaders. rewrite Hw.
      destruct (fold_left promote _ _) as [headers1 trailers1]. cbn in *.
      split; [exact Ht|].
      destruct (decide ("Trailer" = promotedKey key)) as [<-|Hne].
      - apply lookup_delete_eq.
      - rewrite lookup_delete_ne by exact Hne. exact Hh. }
    destruct Hmoved as [Ht Hh]. split; [exact Ht|]. split; [exact Hh|].
    intros Hct Hex. rewrite writeHeaders_transport by assumption.
    rewrite Hh. reflexivity.
  - intros s Hw.
    assert (Hh : headers (writeHeaders s) !! "Trailer" = None).
    { unfold writeHeaders. rewrite Hw.
      destruct (fold_left promote _ _) as [headers1 trailers1]. cbn.
      apply lookup_delete_eq. }
    split; [exact Hh|].
    rewrite writeHeaders_transport by (assumption || discriminate).
    rewrite Hh. reflexivity.
Qed.

Lemma trailer_promotion_witness :
  let s := step (step (NewStreamingResponseWriter NewRecorder false)
                      (CallHeaderAdd "Trailer" "Grpc-Status, x-checksum"))
                (CallHeaderSet "X-Checksum" "abc") in
  trailers (writeHeaders s) !! "X-Checksum" = Some ["abc"]
  /\ headers (writeHeaders s) !! "X-Checksum" = None
  /\ http.rw_header (w (writeHeaders s)) !! "X-Checksum" = None
  /\ headers (writeHeaders s) !! "Trailer" = None.
Proof.
  intros s.
  destruct trailer_promotion as (_ & _ & Hmove & Hdrop).
  destruct (Hmove s " x-checksum" ["abc"]) as (Ht & Hh & Hw).
  - reflexivity.
  - vm_compute. auto.
  - vm_compute. reflexivity.
  - destruct (Hdrop s eq_refl) as [Hd _].
    change (promotedKey " x-checksum") with "X-Checksum" in Ht, Hh, Hw.
    split; [exact Ht|]. split; [exact Hh|]. split; [|exact Hd].
    rewrite Hw by discriminate. reflexivity.
Defined.

(** ** Trailer synthesis *)

Lemma Get_Set_eq h k v : http.Get (http.Set_ h k v) k = v.
Proof. unfold http.Get, http.Set_. rewrite lookup_insert_eq. reflexivity. Qed.

Lemma Get_Set_ne h k k' v :
  http.CanonicalHeaderKey k <> http.CanonicalHeaderKey k' ->
  http.Get (http.Set_ h k v) k' = http.Get h k'.
Proof.
  intros Hne. unfold http.Get, http.Set_. rewrite lookup_insert_ne by exact Hne.
  reflexivity.
Qed.

(** The trailer set [Finish] leaves in the state is the synthesized one. *)
Lemma Finish_trailers s :
  trailers (fst (Finish s))
  = finalTrailers (trailers (writeHeaders s)) (capturedStatusCode (writeHeaders s)).
Proof.
  destruct (Finish_state s) as (bw & w1 & -> & _). reflexivity.
Qed.

Lemma writeHeaders_capturedStatusCode s :
  capturedStatusCode (writeHeaders s) = capturedStatusCode s.
Proof.
  unfold writeHeaders. destruct (headersWritten s); [reflexivity|].
  destruct (fold_left promote _ _). reflexivity.
Qed.

Lemma StatusText_registered c :
  registered c = true -> http.StatusText c <> "".
Proof.
  unfold registered, http.StatusText. intros H.
  assert (Hall : forallb (fun e => negb (String.eqb (snd e) "")) http.statusTexts = true)
    by reflexivity.
  induction http.statusTexts as [|e l IH]; [discriminate|].
  cbn [existsb find forallb] in *.
  apply andb_prop in Hall as [He Hl].
  destruct (fst e =? c).
  - intros Heq. rewrite Heq in He. discriminate.
  - apply IH; assumption.
Qed.

Lemma StatusText_unregistered c :
  registered c = false -> http.StatusText c = "".
Proof.
  unfold registered, http.StatusText. intros H.
  induction http.statusTexts as [|e l IH]; [reflexivity|].
  cbn [existsb find] in *. destruct (fst e =? c); [discriminate|].
  apply IH. exact H.
Qed.

(** C4, counterexample.  A backend answers 499, a status without a
    registered reason phrase: [Finish] synthesizes Grpc-Status 2 and an
    empty Grpc-Message. *)
Lemma synthesized_message_can_be_empty :
  let s := WriteHeader (NewStreamingResponseWriter NewRecorder false) 499 in
  http.Get (trailers (fst (Finish s))) "Grpc-Status" = "2"
  /\ trailers (fst (Finish s)) !! "Grpc-Message" = Some [""]
  /\ ~ synthesizesStatusAndMessage s.
Proof.
  split; [vm_compute; reflexivity|]. split; [vm_compute; reflexivity|].
  intros H. destruct (H eq_refl) as [_ H2].
  destruct H2 as (_ & _ & Hmsg); [vm_compute; discriminate|].
  apply Hmsg. vm_compute. reflexivity.
Qed.

(** C4, amended.  With no Grpc-Status among the trailers after header
    finalization, [Finish] sets it to 0 for a captured 200 (and adds no
    message), and otherwise to the nonzero mapped code; a Grpc-Message
    already there is kept, and a missing one is set to the reason
    phrase [http.StatusText] has for the captured status, which is not
    empty for every registered status and empty for the others. *)
Theorem trailer_synthesis (s : t) :
  http.Get (trailers (writeHeaders s)) "Grpc-Status" = "" ->
  let before := trailers (writeHeaders s) in
  let tr := trailers (fst (Finish s)) in
  (capturedStatusCode s = 200 ->
   http.Get tr "Grpc-Status" = "0"
   /\ http.Get tr "Grpc-Message" = http.Get before "Grpc-Message")
  /\ (capturedStatusCode s <> 200 ->
      http.Get tr "Grpc-Status" = Itoa (httpStatusToGrpcCode (capturedStatusCode s))
      /\ httpStatusToGrpcCode (capturedStatusCode s) <> 0
      /\ (http.Get before "Grpc-Message" <> "" ->
          http.Get tr "Grpc-Message" = http.Get before "Grpc-Message")
      /\ (http.Get before "Grpc-Message" = "" ->
          http.Get tr "Grpc-Message" = http.StatusText (capturedStatusCode s))
      /\ (registered (capturedStatusCode s) = true ->
          http.Get tr "Grpc-Message" <> "")).
Proof.
  intros Hnone before tr. subst tr. rewrite Finish_trailers.
  rewrite writeHeaders_capturedStatusCode. fold before in Hnone |- *.
  unfold finalTrailers. rewrite Hnone. cbn [String.eqb].
  assert (Hkeys : http.CanonicalHeaderKey "Grpc-Status"
                  <> http.CanonicalHeaderKey "Grpc-Message") by (vm_compute; discriminate).
  set (c := capturedStatusCode s).
  set (tr1 := http.Set_ before "Grpc-Status" (Itoa (httpStatusToGrpcCode c))).
  assert (Hmsg1 : http.Get tr1 "Grpc-Message" = http.Get before "Grpc-Message")
    by (apply Get_Set_ne; exact Hkeys).
  assert (Hst1 : http.Get tr1 "Grpc-Status" = Itoa (httpStatusToGrpcCode c))
    by apply Get_Set_eq.
  split.
  - intros Hc. rewrite Hc. cbn [Z.eqb http.StatusOK negb]. rewrite andb_false_r.
    rewrite Hc in Hst1. auto.
  - intros Hc.
    assert (Hneq : negb (c =? http.StatusOK) = true).
    { unfold http.StatusOK. destruct (Z.eqb_spec c 200); [contradiction|reflexivity]. }
    rewrite Hneq, andb_true_r.
    split; [|split; [apply httpStatusToGrpcCode_nonzero; exact Hc|]].
    + destruct (String.eqb _ ""); [|exact Hst1].
      rewrite Get_Set_ne by (intros E; apply Hkeys; symmetry; exact E). exact Hst1.
    + destruct (String.eqb_spec (http.Get tr1 "Grpc-Message") "") as [He|He].
      * rewrite Get_Set_eq. rewrite Hmsg1 in He.
        split; [intros; contradiction|]. split; [reflexivity|].
        apply StatusText_registered.
      * rewrite Hmsg1 in *. split; [reflexivity|]. split; [intros; contradiction|].
        intros _. exact He.
Qed.

Lemma trailer_synthesis_witness :
  let s := WriteHeader (NewStreamingResponseWriter NewRecorder false) 503 in
  http.Get (trailers (fst (Finish s))) "Grpc-Status" = "14"
  /\ http.Get (trailers (fst (Finish s))) "Grpc-Message" = "Service Unavailable".
Proof.
  intros s.
  destruct (trailer_synthesis s eq_refl) as [_ H].
  destruct H as (Hst & _ & _ & Hmsg & _); [vm_compute; discriminate|].
  split; [exact Hst|]. apply Hmsg. reflexivity.
Defined.

(** ** Truncated requests *)

(** C6, counterexample.  A frame whose flag is not DATA, cut in its
    payload: [Read] stops at the flag and reports a clean [io.EOF]. *)
Lemma cut_trailer_frame_reads_as_EOF :
  let body := {| io.pending := [x80; x00; x00; x00; x05; x01; x02]; io.final := EOF |} in
  cutInPayload (io.pending body)
  /\ snd (FrameReader.Read (FrameReader.NewFrameReader body false) 16) = Some EOF
  /\ ~ truncationIsHardFailure (FrameReader.NewFrameReader body false) 16.
Proof.
  assert (Hcut : cutInPayload [x80; x00; x00; x00; x05; x01; x02])
    by (split; vm_compute; [discriminate|reflexivity]).
  split; [exact Hcut|]. split; [reflexivity|].
  intros H. destruct (H eq_refl (or_intror Hcut)) as (_ & e & He & Hne).
  vm_compute in He. inversion He; subst e. discriminate.
Qed.

Lemma nth_take_0 (bs : list byte) k : nth 0 (take (S k) bs) x00 = nth 0 bs x00.
Proof. destruct bs; reflexivity. Qed.

(** C6, amended.  When the decoder turns to its source and the source
    ends or breaks after 1 to 4 bytes of a header, or before the
    payload declared by the header of a DATA frame is complete, [Read]
    delivers no bytes and fails with an error that is not [io.EOF]:
    [io.ErrUnexpectedEOF] or the source's own error in the header, the
    wrapped copy error in the payload. *)
Theorem truncation_is_hard_failure (fr : FrameReader.t) (n : nat) :
  FrameReader.buffer fr = [] ->
  cutInHeader (io.pending (FrameReader.source fr))
  \/ (cutInPayload (io.pending (FrameReader.source fr))
      /\ nth 0 (io.pending (FrameReader.source fr)) x00 = grpcDataFrame) ->
  hardFailure (FrameReader.Read fr n)
  /\ (cutInHeader (io.pending (FrameReader.source fr)) ->
      snd (FrameReader.Read fr n)
      = Some (if isEOF (io.final (FrameReader.source fr)) then ErrUnexpectedEOF
              else io.final (FrameReader.source fr)))
  /\ (cutInPayload (io.pending (FrameReader.source fr)) ->
      snd (FrameReader.Read fr n)
      = Some (Errorf "error copying frame data" (io.final (FrameReader.source fr)))).
Proof.
  intros Hbuf Hcut. unfold FrameReader.Read. rewrite Hbuf. cbn [length Nat.ltb Nat.leb].
  destruct fr as [[bs fin] b]. cbn [FrameReader.source io.pending io.final] in *.
  unfold cutInHeader, cutInPayload, len in *.
  destruct Hcut as [Hh|[[H5 Hp] Hflag]].
  - unfold io.ReadFull. cbn [io.pending io.final].
    destruct (Nat.leb_spec 5 (length bs)) as [Hle|Hlt]; [lia|].
    destruct bs as [|b0 bs]; [cbn in Hh; lia|]. cbn [take].
    split; [|split; [intros _; reflexivity|intros [H5 _]; lia]].
    split; [reflexivity|]. eexists. split; [reflexivity|].
    destruct fin; reflexivity.
  - unfold io.ReadFull. cbn [io.pending io.final].
    destruct (Nat.leb_spec 5 (length bs)) as [Hle|Hlt]; [|lia].
    rewrite nth_take_0, Hflag. cbn [Byte.eqb negb].
    change (BigEndian.Uint32 (drop 1 (take 5 bs))) with (declared bs).
    assert (H0 : (0 <? declared bs) = true) by (apply Z.ltb_lt; lia).
    replace (Byte.eqb grpcDataFrame grpcDataFrame) with true by reflexivity.
    cbn [negb]. rewrite H0. unfold io.CopyN. cbn [io.pending io.final].
    assert (Hshort : (declared bs <=? len (drop 5 bs)) = false).
    { apply Z.leb_gt. unfold len. rewrite length_drop. lia. }
    rewrite Hshort.
    split; [|split; [intros [_ H4]; lia|intros _; reflexivity]].
    split; [reflexivity|]. eexists. split; reflexivity.
Qed.

Lemma truncation_is_hard_failure_witness :
  let body := {| io.pending := [x00; x00; x00; x00; x0b] ++ list_byte_of_string "hello_w";
                 io.final := EOF |} in
  hardFailure (FrameReader.Read (FrameReader.NewFrameReader body false) 64)
  /\ snd (FrameReader.Read (FrameReader.NewFrameReader body false) 64)
     = Some (Errorf "error copying frame data" EOF).
Proof.
  intros body.
  assert (Hcut : cutInPayload
                   (io.pending (FrameReader.source (FrameReader.NewFrameReader body false))))
    by (split; vm_compute; [discriminate|reflexivity]).
  destruct (truncation_is_hard_failure (FrameReader.NewFrameReader body false) 64 eq_refl
              (or_intror (conj Hcut eq_refl))) as (Hhard & _ & He).
  split; [exact Hhard|exact (He Hcut)].
Defined.

(** A whole DATA frame at the head of the source, read with room for
    it: the native frame comes out, and the decoder is back at its
    source for the next header. *)
Lemma Read_whole_frame (fin : error) (p rest : list byte) (n : nat) :
  len p < 2 ^ 32 -> (5 + length p <= n)%nat ->
  FrameReader.Read
    {| FrameReader.source := {| io.pending := webDataFrame p ++ rest; io.final := fin |};
       FrameReader.buffer := [] |} n
  = ({| FrameReader.source := {| io.pending := rest; io.final := fin |};
        FrameReader.buffer := [] |},
     nativeFrame x00 p, None).
Proof.
  intros Hp Hn. pose proof (len_nonneg p) as Hp0.
  assert (Hrf : io.ReadFull {| io.pending := webDataFrame p ++ rest; io.final := fin |} 5
                = ({| io.pending := p ++ rest; io.final := fin |},
                   grpcDataFrame :: BigEndian.PutUint32 (len p), None)).
  { unfold io.ReadFull. cbn [io.pending io.final].
    replace (5 <=? length (webDataFrame p ++ rest))%nat with true; [reflexivity|].
    symmetry. apply Nat.leb_le. cbn [webDataFrame app length BigEndian.PutUint32]. lia. }
  unfold FrameReader.Read. cbn [FrameReader.buffer FrameReader.source].
  change (0 <? length (@nil byte))%nat with false. cbv iota. rewrite Hrf.
  assert (Hlen : BigEndian.Uint32 (drop 1 (grpcDataFrame :: BigEndian.PutUint32 (len p)))
                 = len p).
  { change (drop 1 (grpcDataFrame :: BigEndian.PutUint32 (len p)))
      with (BigEndian.PutUint32 (len p) ++ []).
    apply Uint32_PutUint32. lia. }
  cbv beta iota. rewrite !Hlen.
  change (nth 0 (grpcDataFrame :: BigEndian.PutUint32 (len p)) x00) with grpcDataFrame.
  change (Byte.eqb grpcDataFrame grpcDataFrame) with true. cbn [negb app].
  assert (Hout : forall b, b = nativeFrame x00 p ->
            Buffer.Read b n = ([], nativeFrame x00 p, None)).
  { intros b ->. unfold Buffer.Read, nativeFrame.
    rewrite take_ge, drop_ge; [reflexivity| |];
      cbn [length]; rewrite length_app, length_PutUint32; lia. }
  destruct (Z.ltb_spec 0 (len p)) as [Hpos|Hzero].
  - unfold io.CopyN. cbn [io.pending io.final].
    rewrite takeZ_app_len, dropZ_app_len.
    assert (Hle : (len p <=? len (p ++ rest)) = true).
    { apply Z.leb_le. rewrite len_app. pose proof (len_nonneg rest). lia. }
    rewrite Hle. erewrite Hout by reflexivity. reflexivity.
  - assert (p = []) as -> by (destruct p; [reflexivity|unfold len in Hzero; cbn in Hzero; lia]).
    cbn [app]. erewrite Hout by reflexivity. reflexivity.
Qed.

(** A source that is already at its clean end when a header is due is
    the one case of plain [io.EOF]. *)
Lemma clean_end_reads_as_EOF (fr : FrameReader.t) (n : nat) :
  FrameReader.buffer fr = [] -> io.pending (FrameReader.source fr) = [] ->
  snd (FrameReader.Read fr n) = Some (io.final (FrameReader.source fr)).
Proof.
  intros Hbuf Hp. unfold FrameReader.Read, io.ReadFull. rewrite Hbuf, Hp. reflexivity.
Qed.

(** ** Frames through [Write], binary mode *)

Lemma rwWrite_unlimited w0 q :
  http.rw_room w0 = None -> rwWrite w0 q = (accepted w0 q, None).
Proof.
  intros H. unfold rwWrite, accepted. rewrite H. reflexivity.
Qed.

Lemma accepted_accepted w0 a b : accepted (accepted w0 a) b = accepted w0 (a ++ b).
Proof. unfold accepted. cbn. rewrite <- app_assoc. reflexivity. Qed.

Lemma accepted_nil w0 : accepted w0 [] = w0.
Proof. unfold accepted. rewrite app_nil_r. destruct w0; reflexivity. Qed.

Lemma bodyCopyN_direct w0 chunk n :
  http.rw_room w0 = None ->
  bodyCopyN Direct w0 chunk n
  = (Direct, accepted w0 chunk, if len chunk <? n then Some EOF else None).
Proof.
  intros H. unfold bodyCopyN. destruct chunk as [|c chunk].
  - rewrite accepted_nil. reflexivity.
  - cbn [bodyWrite]. rewrite rwWrite_unlimited by exact H. reflexivity.
Qed.

Lemma declared_nativeFrame flag p rest :
  len p < 2 ^ 32 -> declared (nativeFrame flag p ++ rest) = len p.
Proof.
  intros Hp. unfold declared, nativeFrame.
  change (drop 1 (take 5 ((flag :: BigEndian.PutUint32 (len p) ++ p) ++ rest)))
    with (BigEndian.PutUint32 (len p)).
  rewrite <- (app_nil_r (BigEndian.PutUint32 (len p))).
  apply Uint32_PutUint32. pose proof (len_nonneg p). lia.
Qed.

Lemma len_nativeFrame flag p : len (nativeFrame flag p) = 5 + len p.
Proof.
  unfold nativeFrame, len. cbn [length]. rewrite length_app, length_PutUint32. lia.
Qed.

Lemma drop5_nativeFrame flag p rest : drop 5 (nativeFrame flag p ++ rest) = p ++ rest.
Proof. reflexivity. Qed.

(** A round of the loop on a whole frame: when the 32-bit comparison
    lets the frame at the head of the buffer through, it goes out as a
    web DATA frame, and the loop continues behind it. *)
Lemma drain_frame w0 flag p rest :
  http.rw_room w0 = None -> len p < 2 ^ 32 ->
  uint32 (5 + len p) <= uint32 (len (nativeFrame flag p ++ rest)) ->
  drain Direct w0 (nativeFrame flag p ++ rest)
  = drain Direct (accepted w0 (webDataFrame p)) rest.
Proof.
  intros Hroom Hp Hcmp. rewrite drain_round.
  pose proof (len_nonneg p) as Hp0. pose proof (len_nonneg rest) as Hr0.
  destruct (decide (5 <= len (nativeFrame flag p ++ rest))) as [_|Hn];
    [|rewrite len_app, len_nativeFrame in Hn; lia].
  unfold emittedHeader. rewrite declared_nativeFrame by exact Hp.
  destruct (Z.ltb_spec (uint32 (len (nativeFrame flag p ++ rest))) (uint32 (5 + len p)));
    [lia|].
  cbn [bodyWrite]. rewrite rwWrite_unlimited by exact Hroom.
  rewrite drop5_nativeFrame, takeZ_app_len, dropZ_app_len.
  rewrite bodyCopyN_direct by exact Hroom.
  rewrite Z.ltb_irrefl, accepted_accepted. reflexivity.
Qed.

Lemma drain_nil bw w0 : drain bw w0 [] = (bw, w0, [], None).
Proof.
  rewrite drain_round. destruct (decide (5 <= len [])) as [H|_]; [|reflexivity].
  unfold len in H. cbn in H. lia.
Qed.

Lemma writeHeaders_body s :
  http.rw_body (w (writeHeaders s)) = http.rw_body (w s)
  /\ http.rw_room (w (writeHeaders s)) = http.rw_room (w s)
  /\ http.rw_flushes (w (writeHeaders s)) = http.rw_flushes (w s)
  /\ bodyWriter (writeHeaders s) = bodyWriter s
  /\ frameBuffer (writeHeaders s) = frameBuffer s
  /\ flusher (writeHeaders s) = flusher s.
Proof.
  unfold writeHeaders. destruct (headersWritten s); [auto 10|].
  destruct (fold_left promote _ _). cbn. auto 10.
Qed.

(** One [Write] of one whole frame into an empty buffer. *)
Lemma Write_one_frame (s : t) (flag : byte) (p : list byte) :
  len p < 2 ^ 32 ->
  frameBuffer s = [] -> bodyWriter s = Direct -> http.rw_room (w s) = None ->
  Write s (nativeFrame flag p)
  = (withBody (writeHeaders s) Direct
       (accepted (w (writeHeaders s)) (webDataFrame p)) [],
     len (nativeFrame flag p), None).
Proof.
  intros Hp Hbuf Hbw Hroom. unfold Write.
  destruct (writeHeaders_body s) as (Hb & Hr & _ & Hw & Hf & _).
  rewrite Hw, Hf, Hbuf, Hbw. cbn [app].
  rewrite <- (app_nil_r (nativeFrame flag p)) at 1.
  rewrite drain_frame, drain_nil; [reflexivity | congruence | exact Hp |].
  rewrite app_nil_r, len_nativeFrame. lia.
Qed.

(** The client-side decoder on one web DATA frame. *)
Lemma readGrpcWebFrame_webDataFrame (p : list byte) :
  len p < 2 ^ 32 ->
  readGrpcWebFrame {| io.pending := webDataFrame p; io.final := EOF |}
  = ({| io.pending := []; io.final := EOF |}, grpcDataFrame, p, None).
Proof.
  intros Hp. unfold readGrpcWebFrame, io.ReadFull. cbn [io.pending io.final].
  pose proof (len_nonneg p) as Hp0.
  change (5 <=? length (webDataFrame p))%nat with true.
  cbn [take webDataFrame BigEndian.PutUint32 app nth drop].
  change (BigEndian.Uint32 _) with (BigEndian.Uint32 (BigEndian.PutUint32 (len p) ++ [])).
  rewrite Uint32_PutUint32 by lia.
  destruct (Z.eqb_spec (len p) 0) as [H0|H0].
  - destruct p; [reflexivity|]. unfold len in H0. cbn in H0. lia.
  - unfold len. cbn [io.pending io.final]. rewrite drop_0, Nat2Z.id, Nat.leb_refl.
    rewrite take_ge, drop_ge by lia. reflexivity.
Qed.

(** ** Reassembly of frames from partial writes *)

Lemma uint32_small v : 0 <= v < 2 ^ 32 -> uint32 v = v.
Proof. intros H. unfold uint32. apply Z.mod_small. exact H. Qed.

Lemma uint32_le v : 0 <= v -> 0 <= uint32 v <= v.
Proof.
  intros H. unfold uint32.
  pose proof (Z.mod_pos_bound v (2 ^ 32) ltac:(lia)).
  pose proof (Z.mod_le v (2 ^ 32) H ltac:(lia)). lia.
Qed.

Lemma declared_app x y : 5 <= len x -> declared (x ++ y) = declared x.
Proof.
  intros H. unfold declared. rewrite take_app_le; [reflexivity|].
  unfold len in H. lia.
Qed.

Lemma nativeStream_cons g G :
  nativeStream (g :: G) = nativeFrame (fst g) (snd g) ++ nativeStream G.
Proof. reflexivity. Qed.

Lemma webStream_app G1 G2 : webStream (G1 ++ G2) = webStream G1 ++ webStream G2.
Proof. unfold webStream. rewrite !flat_map_concat_map, map_app, concat_app. reflexivity. Qed.

Lemma nativeStream_app G1 G2 :
  nativeStream (G1 ++ G2) = nativeStream G1 ++ nativeStream G2.
Proof. unfold nativeStream. rewrite !flat_map_concat_map, map_app, concat_app. reflexivity. Qed.

(** Splitting an equation between appended lists at the shorter
    prefix. *)
Lemma app_split_prefix {A} (x y a b : list A) :
  x ++ y = a ++ b -> (length a <= length x)%nat ->
  exists x', x = a ++ x' /\ x' ++ y = b.
Proof.
  revert x. induction a as [|e a IH]; intros x Heq Hlen.
  - exists x. auto.
  - destruct x as [|e' x]; [cbn in Hlen; lia|].
    cbn in Heq. injection Heq as -> Heq.
    destruct (IH x Heq) as (x' & -> & Hx'); [cbn in Hlen; lia|].
    exists x'. auto.
Qed.

(** The loop on a prefix [x] of a stream of frames (shorter than
    4 GiB): the frames that are whole in [x] go out as web DATA
    frames, and the rest, less than a frame, stays in the buffer. *)
Lemma drain_stream G : forall w0 x y,
  http.rw_room w0 = None ->
  x ++ y = nativeStream G -> len (nativeStream G) < 2 ^ 32 ->
  exists G1 G2 P,
    G = G1 ++ G2 /\ x = nativeStream G1 ++ P /\ P ++ y = nativeStream G2
    /\ incomplete P G2
    /\ drain Direct w0 x = (Direct, accepted w0 (webStream G1), P, None).
Proof.
  induction G as [|g G IH]; intros w0 x y Hroom Heq Hlen.
  - apply app_eq_nil in Heq as [-> ->].
    exists [], [], []. rewrite drain_nil, accepted_nil. repeat split.
  - rewrite nativeStream_cons in Heq, Hlen. destruct g as [flag p]. cbn [fst snd] in *.
    rewrite len_app, len_nativeFrame in Hlen.
    pose proof (len_nonneg p) as Hp0. pose proof (len_nonneg (nativeStream G)) as HG0.
    pose proof (len_nonneg x) as Hx0.
    assert (Hxy : len x <= 5 + len p + len (nativeStream G)).
    { apply (f_equal len) in Heq. rewrite !len_app, len_nativeFrame in Heq.
      pose proof (len_nonneg y). lia. }
    destruct (Z.lt_ge_cases (len x) (5 + len p)) as [Hshort|Hwhole].
    + exists [], ((flag, p) :: G), x. cbn [app nativeStream_cons].
      rewrite nativeStream_cons. cbn [fst snd webStream flat_map].
      rewrite accepted_nil. repeat split; try assumption.
      * cbn. rewrite len_nativeFrame. exact Hshort.
      * rewrite drain_round. destruct (decide (5 <= len x)) as [H5|H5]; [|reflexivity].
        assert (Hd : declared x = len p).
        { rewrite <- (declared_app x y) by exact H5. rewrite Heq.
          apply declared_nativeFrame. lia. }
        rewrite Hd, !uint32_small by lia.
        destruct (Z.ltb_spec (len x) (5 + len p)); [reflexivity|lia].
    + destruct (app_split_prefix x y (nativeFrame flag p) (nativeStream G) Heq)
        as (x' & -> & Hx').
      { pose proof (len_nativeFrame flag p) as Hf. unfold len in *. lia. }
      destruct (IH (accepted w0 (webDataFrame p)) x' y Hroom Hx' ltac:(lia))
        as (G1 & G2 & P & -> & -> & HP & Hinc & Hdrain).
      exists ((flag, p) :: G1), G2, P.
      rewrite nativeStream_cons. cbn [fst snd].
      rewrite <- app_assoc. repeat split; try assumption.
      rewrite drain_frame; [| exact Hroom | lia |].
      * rewrite Hdrain, accepted_accepted. reflexivity.
      * pose proof (len_nonneg (nativeStream G1 ++ P)).
        rewrite len_app, len_nativeFrame in Hxy |- *.
        rewrite !uint32_small by lia. lia.
Qed.

Lemma incomplete_whole P G : incomplete P G -> P = nativeStream G -> G = [] /\ P = [].
Proof.
  destruct G as [|g G]; cbn [incomplete]; intros Hinc Heq; [auto|].
  rewrite Heq, nativeStream_cons, len_app in Hinc.
  pose proof (len_nonneg (nativeStream G)). lia.
Qed.

Lemma len_nativeStream_app_r G1 G2 :
  len (nativeStream G2) <= len (nativeStream (G1 ++ G2)).
Proof.
  rewrite nativeStream_app, len_app. pose proof (len_nonneg (nativeStream G1)). lia.
Qed.

(** [Write] once per chunk of a prefix of a stream of frames. *)
Lemma writeAll_stream chunks : forall s G y,
  bodyWriter s = Direct -> http.rw_room (w s) = None ->
  frameBuffer s ++ concat chunks ++ y = nativeStream G ->
  len (nativeStream G) < 2 ^ 32 ->
  incomplete (frameBuffer s) G ->
  exists s' G1 G2,
    writeAll s chunks = (s', None)
    /\ G = G1 ++ G2
    /\ frameBuffer s ++ concat chunks = nativeStream G1 ++ frameBuffer s'
    /\ frameBuffer s' ++ y = nativeStream G2
    /\ incomplete (frameBuffer s') G2
    /\ http.rw_body (w s') = http.rw_body (w s) ++ webStream G1
    /\ bodyWriter s' = Direct /\ http.rw_room (w s') = None.
Proof.
  induction chunks as [|c chunks IH]; intros s G y Hbw Hroom Heq Hlen Hinc.
  - exists s, [], G. cbn [concat app] in *. rewrite !app_nil_r.
    cbn [writeAll webStream flat_map nativeStream]. auto 10.
  - cbn [concat] in Heq. rewrite <- !app_assoc in Heq. rewrite app_assoc in Heq.
    destruct (writeHeaders_body s) as (Hb & Hr & _ & Hw & Hf & _).
    destruct (drain_stream G (w (writeHeaders s)) (frameBuffer s ++ c)
                (concat chunks ++ y) ltac:(congruence) Heq Hlen)
      as (G1 & G2 & P & -> & Hx & HP & HincP & Hdrain).
    cbn [writeAll]. unfold Write. rewrite Hw, Hf, Hbw, Hdrain.
    set (s1 := withBody (writeHeaders s) Direct
                 (accepted (w (writeHeaders s)) (webStream G1)) P).
    destruct (IH s1 G2 y eq_refl ltac:(cbn; congruence) HP) as
        (s' & G3 & G4 & Hall & -> & Hc & Hy & Hinc' & Hbody & Hbw' & Hroom').
    { pose proof (len_nativeStream_app_r G1 G2). lia. }
    { exact HincP. }
    exists s', (G1 ++ G3), G4. rewrite Hall.
    cbn [frameBuffer s1 withBody] in Hc. cbn [w s1 withBody accepted http.rw_body] in Hbody.
    repeat split; try assumption.
    + rewrite app_assoc. reflexivity.
    + cbn [concat]. rewrite app_assoc, Hx, <- app_assoc, Hc, nativeStream_app, <- app_assoc.
      reflexivity.
    + rewrite Hbody, Hb, webStream_app, <- app_assoc. reflexivity.
Qed.

(** X17. Reassembly, for streams shorter than 4 GiB.  For every sequence
    of complete native frames whose byte stream is shorter than 2^32
    bytes, and every way of cutting the stream into chunks, [Write]
    once per chunk and one [Write] of the whole stream both succeed,
    leave the buffer empty, and put the same web DATA frames on the
    transport. *)
Lemma chunked_writes_reassemble (s : t) (frames : list (byte * list byte))
    (chunks : list (list byte)) :
  bodyWriter s = Direct -> http.rw_room (w s) = None -> frameBuffer s = [] ->
  len (nativeStream frames) < 2 ^ 32 ->
  concat chunks = nativeStream frames ->
  exists s1 s2,
    writeAll s chunks = (s1, None)
    /\ Write s (nativeStream frames) = (s2, len (nativeStream frames), None)
    /\ http.rw_body (w s1) = http.rw_body (w s) ++ webStream frames
    /\ http.rw_body (w s2) = http.rw_body (w s) ++ webStream frames
    /\ frameBuffer s1 = [] /\ frameBuffer s2 = [].
Proof.
  intros Hbw Hroom Hbuf Hlen Hchunks.
  assert (Hinc0 : incomplete (frameBuffer s) frames).
  { rewrite Hbuf. destruct frames as [|g G]; cbn [incomplete]; [reflexivity|].
    rewrite len_nativeFrame. pose proof (len_nonneg (snd g)). unfold len at 1. cbn. lia. }
  destruct (writeAll_stream chunks s frames [] Hbw Hroom) as
      (s1 & G1 & G2 & Hall & HG & Hc & Hy & Hinc & Hbody & _); try assumption.
  { rewrite Hbuf, app_nil_r. exact Hchunks. }
  rewrite app_nil_r in Hy. destruct (incomplete_whole _ _ Hinc Hy) as [-> Hb1].
  rewrite app_nil_r in HG. subst G1.
  destruct (writeAll_stream [nativeStream frames] s frames [] Hbw Hroom) as
      (s2 & G1 & G2 & Hall2 & HG2 & Hc2 & Hy2 & Hinc2 & Hbody2 & _); try assumption.
  { rewrite Hbuf. cbn [concat app]. rewrite !app_nil_r. reflexivity. }
  rewrite app_nil_r in Hy2. destruct (incomplete_whole _ _ Hinc2 Hy2) as [-> Hb2].
  rewrite app_nil_r in HG2. subst G1.
  cbn [writeAll] in Hall2.
  destruct (Write s (nativeStream frames)) as [[s2' n] [e|]] eqn:EW; [discriminate|].
  injection Hall2 as ->.
  assert (Hn : n = len (nativeStream frames)).
  { unfold Write in EW. destruct (drain _ _ _) as [[[? ?] ?] [?|]]; congruence. }
  exists s1, s2. rewrite Hn. auto 10.
Qed.

Lemma chunked_writes_reassemble_witness :
  let s := NewStreamingResponseWriter NewRecorder false in
  let frames := [(x00, [x68; x69]); (x01, [])] in
  let chunks := [[x00; x00]; [x00; x00; x02; x68]; []; [x69; x01; x00; x00]; [x00; x00]] in
  exists s1 s2,
    writeAll s chunks = (s1, None)
    /\ Write s (nativeStream frames) = (s2, len (nativeStream frames), None)
    /\ http.rw_body (w s1) = http.rw_body (w s) ++ webStream frames
    /\ http.rw_body (w s2) = http.rw_body (w s) ++ webStream frames
    /\ frameBuffer s1 = [] /\ frameBuffer s2 = [].
Proof.
  intros s frames chunks.
  apply (chunked_writes_reassemble s frames chunks); reflexivity.
Defined.

(** X18. Nothing is discarded on the way: after any number of chunks of a
    stream shorter than 4 GiB, the bytes written so far are the frames
    emitted followed by the buffer. *)
Lemma partial_frames_are_retained (s : t) (frames : list (byte * list byte))
    (chunks : list (list byte)) (rest : list byte) :
  bodyWriter s = Direct -> http.rw_room (w s) = None -> frameBuffer s = [] ->
  len (nativeStream frames) < 2 ^ 32 ->
  concat chunks ++ rest = nativeStream frames ->
  exists s' done_,
    writeAll s chunks = (s', None)
    /\ concat chunks = nativeStream done_ ++ frameBuffer s'
    /\ http.rw_body (w s') = http.rw_body (w s) ++ webStream done_.
Proof.
  intros Hbw Hroom Hbuf Hlen Hchunks.
  assert (Hinc0 : incomplete (frameBuffer s) frames).
  { rewrite Hbuf. destruct frames as [|g G]; cbn [incomplete]; [reflexivity|].
    rewrite len_nativeFrame. pose proof (len_nonneg (snd g)). unfold len at 1. cbn. lia. }
  destruct (writeAll_stream chunks s frames rest Hbw Hroom) as
      (s1 & G1 & G2 & Hall & HG & Hc & Hy & Hinc & Hbody & _); try assumption.
  { rewrite Hbuf. exact Hchunks. }
  rewrite Hbuf in Hc. exists s1, G1. auto.
Qed.

Lemma partial_frames_are_retained_witness :
  let s := NewStreamingResponseWriter NewRecorder false in
  let frames := [(x00, [x68; x69]); (x00, [x21])] in
  let chunks := [[x00; x00; x00]; [x00; x02; x68; x69; x00; x00]] in
  exists s' done_,
    writeAll s chunks = (s', None)
    /\ concat chunks = nativeStream done_ ++ frameBuffer s'
    /\ http.rw_body (w s') = http.rw_body (w s) ++ webStream done_.
Proof.
  intros s frames chunks.
  apply (partial_frames_are_retained s frames chunks [x00; x00; x01; x21]); reflexivity.
Defined.

(** ** The 32-bit comparison at its limits *)

(** C2, at a failing input.  The first chunk of a frame that declares
    4294967295 payload bytes is its 5-byte header: 5 + 4294967295
    wraps to 4 in 32 bits, the comparison takes the frame for complete,
    and [Write] forwards the header alone, empties the buffer and
    fails with [io.EOF]; whatever chunks follow, writing chunk by
    chunk stops there. *)
Theorem wrapped_length_forwards_incomplete_frame :
  let s := NewStreamingResponseWriter NewRecorder false in
  declared largestFrameHeader = 4294967295
  /\ uint32 (5 + declared largestFrameHeader) = 4
  /\ snd (Write s largestFrameHeader) = Some EOF
  /\ snd (fst (Write s largestFrameHeader)) = 0
  /\ http.rw_body (w (fst (fst (Write s largestFrameHeader)))) = largestFrameHeader
  /\ frameBuffer (fst (fst (Write s largestFrameHeader))) = []
  /\ forall chunks,
       writeAll s (largestFrameHeader :: chunks)
       = (fst (fst (Write s largestFrameHeader)), Some EOF).
Proof.
  intros s.
  assert (HW : Write s largestFrameHeader
               = (fst (fst (Write s largestFrameHeader)), 0, Some EOF))
    by (vm_compute; reflexivity).
  do 6 (split; [vm_compute; reflexivity|]).
  intros chunks. cbn [writeAll]. rewrite HW. reflexivity.
Qed.

(** The same frame handed over in one [Write] goes through: the two
    sides of the comparison wrap alike. *)
Lemma largest_frame_in_one_write (payload : list byte) :
  len payload = 4294967295 ->
  let s := NewStreamingResponseWriter NewRecorder false in
  nativeFrame x00 payload = largestFrameHeader ++ payload
  /\ exists s',
       Write s (largestFrameHeader ++ payload) = (s', 5 + 4294967295, None)
       /\ http.rw_body (w s') = largestFrameHeader ++ payload
       /\ frameBuffer s' = [].
Proof.
  intros Hlen s.
  assert (Hframe : nativeFrame x00 payload = largestFrameHeader ++ payload).
  { unfold nativeFrame. rewrite Hlen. reflexivity. }
  split; [exact Hframe|]. rewrite <- Hframe.
  rewrite Write_one_frame by (try reflexivity; lia).
  eexists. split; [rewrite len_nativeFrame, Hlen; reflexivity|].
  split; [|reflexivity].
  cbn [withBody w accepted http.rw_body].
  change (http.rw_body (w (writeHeaders s))) with (@nil byte).
  unfold webDataFrame, nativeFrame. reflexivity.
Qed.

(** [Write] stops at a whole frame when the 32-bit length of the
    buffer falls below the 32-bit size of the frame at its head. *)
Lemma Write_stalls_when_length_wraps (s : t) (flag : byte) (p tail : list byte) :
  frameBuffer s = [] -> len p < 2 ^ 32 ->
  uint32 (len (nativeFrame flag p ++ tail)) < uint32 (5 + len p) ->
  Write s (nativeFrame flag p ++ tail)
  = (withBody (writeHeaders s) (bodyWriter s) (w (writeHeaders s))
       (nativeFrame flag p ++ tail),
     len (nativeFrame flag p ++ tail), None).
Proof.
  intros Hbuf Hp Hwrap. unfold Write.
  destruct (writeHeaders_body s) as (_ & _ & _ & Hw & Hf & _).
  rewrite Hw, Hf, Hbuf. cbn [app]. rewrite drain_round.
  pose proof (len_nonneg p). pose proof (len_nonneg tail).
  destruct (decide (5 <= len (nativeFrame flag p ++ tail))) as [_|Hn];
    [|rewrite len_app, len_nativeFrame in Hn; lia].
  rewrite declared_nativeFrame by exact Hp.
  destruct (Z.ltb_spec (uint32 (len (nativeFrame flag p ++ tail))) (uint32 (5 + len p)));
    [reflexivity|lia].
Qed.

(** C9, at a failing input.  One [Write] of 4294967302 bytes that
    start with a whole 7-byte frame returns successfully with all of
    them still in the buffer: the buffer length reads as 6 in 32 bits,
    below the 7 bytes of the frame. *)
Theorem buffer_past_4GiB_keeps_a_whole_frame :
  exists p : list byte,
    len p = 4294967302
    /\ take 7 p = nativeFrame x00 [x01; x02]
    /\ exists s',
         Write (NewStreamingResponseWriter NewRecorder false) p = (s', len p, None)
         /\ frameBuffer s' = p
         /\ http.rw_body (w s') = []
         /\ 5 <= len (frameBuffer s')
         /\ 5 + declared (frameBuffer s') <= len (frameBuffer s').
Proof.
  set (tail := replicate (Z.to_nat 4294967295) x00).
  assert (Htail : len tail = 4294967295).
  { unfold len, tail. rewrite length_replicate. apply Z2Nat.id. lia. }
  clearbody tail.
  assert (Hlen : len (nativeFrame x00 [x01; x02] ++ tail) = 4294967302).
  { rewrite len_app, Htail. reflexivity. }
  assert (Hdecl : declared (nativeFrame x00 [x01; x02] ++ tail) = 2).
  { rewrite declared_nativeFrame; reflexivity. }
  exists (nativeFrame x00 [x01; x02] ++ tail).
  split; [exact Hlen|]. split; [reflexivity|].
  eexists. split.
  { apply Write_stalls_when_length_wraps; [reflexivity|reflexivity|].
    rewrite Hlen. reflexivity. }
  split; [reflexivity|]. split; [reflexivity|].
  cbn [frameBuffer withBody]. rewrite Hdecl, Hlen. lia.
Qed.

Lemma len_dropZ_le {A} n (l : list A) : len (dropZ n l) <= len l.
Proof.
  rewrite dropZ_drop. unfold len. rewrite length_drop. lia.
Qed.

Lemma len_drop_le {A} n (l : list A) : len (drop n l) <= len l.
Proof. unfold len. rewrite length_drop. lia. Qed.

(** Below 4 GiB of buffered bytes the loop stops only at less than a
    whole frame. *)
Lemma drain_leaves_less_than_a_frame bw w0 b :
  len b < 2 ^ 32 ->
  snd (drain bw w0 b) = None ->
  let b' := snd (fst (drain bw w0 b)) in
  len b' < 5 \/ len b' < 5 + declared b'.
Proof.
  apply (drain_rounds
           (fun bw w0 b r =>
              len b < 2 ^ 32 -> snd r = None ->
              len (snd (fst r)) < 5 \/ len (snd (fst r)) < 5 + declared (snd (fst r))));
    clear; cbn [fst snd]; intros.
  - left. assumption.
  - right. pose proof (Uint32_range (drop 1 (take 5 b))) as Hd.
    fold (declared b) in Hd. pose proof (uint32_le (5 + declared b) ltac:(lia)).
    rewrite uint32_small in H0 by lia. lia.
  - discriminate.
  - discriminate.
  - apply H3; [|assumption].
    pose proof (len_dropZ_le (declared b) (drop 5 b)).
    pose proof (len_drop_le 5 b). lia.
Qed.

Lemma rwWrite_ok w0 q w1 :
  rwWrite w0 q = (w1, None) -> http.rw_body w1 = http.rw_body w0 ++ q.
Proof.
  unfold rwWrite. destruct (http.rw_room w0) as [r|].
  - destruct (length q <=? r)%nat; intros [= <-]; reflexivity.
  - intros [= <-]. reflexivity.
Qed.

Lemma bodyCopyN_direct_ok w0 chunk n bw1 w1 :
  bodyCopyN Direct w0 chunk n = (bw1, w1, None) ->
  bw1 = Direct /\ http.rw_body w1 = http.rw_body w0 ++ chunk /\ n <= len chunk.
Proof.
  unfold bodyCopyN. destruct chunk as [|c chunk].
  - destruct (Z.ltb_spec (len (@nil byte)) n); intros [= <- <-].
    rewrite app_nil_r. auto.
  - cbn [bodyWrite]. destruct (rwWrite w0 (c :: chunk)) as [w2 [e|]] eqn:E;
      [discriminate|].
    destruct (Z.ltb_spec (len (c :: chunk)) n); intros [= <- <-].
    apply rwWrite_ok in E. auto.
Qed.

Lemma len_takeZ_le {A} n (l : list A) : 0 <= n -> len (takeZ n l) <= n.
Proof.
  intros Hn. rewrite takeZ_take. unfold len. rewrite length_take. lia.
Qed.

Lemma takeZ_dropZ {A} n (l : list A) : takeZ n l ++ dropZ n l = l.
Proof. rewrite takeZ_take, dropZ_drop. apply take_drop. Qed.

(** The frame at the head of a buffer that holds all of it. *)
Lemma head_frame b :
  5 <= len b -> declared b <= len (takeZ (declared b) (drop 5 b)) ->
  exists flag,
    b = nativeFrame flag (takeZ (declared b) (drop 5 b))
        ++ dropZ (declared b) (drop 5 b)
    /\ emittedHeader b ++ takeZ (declared b) (drop 5 b)
       = webDataFrame (takeZ (declared b) (drop 5 b)).
Proof.
  intros H5 Hall.
  pose proof (Uint32_range (drop 1 (take 5 b))) as Hd. fold (declared b) in Hd.
  pose proof (len_takeZ_le (declared b) (drop 5 b) ltac:(lia)) as Hle.
  assert (Hlen : len (takeZ (declared b) (drop 5 b)) = declared b) by lia.
  destruct b as [|f [|b1 [|b2 [|b3 [|b4 rest]]]]]; try (unfold len in H5; cbn in H5; lia).
  exists f. unfold nativeFrame, webDataFrame, emittedHeader. rewrite Hlen.
  unfold declared. cbn [take drop]. rewrite PutUint32_Uint32.
  cbn [app]. split.
  - change (drop 5 (f :: b1 :: b2 :: b3 :: b4 :: rest)) with rest.
    rewrite takeZ_dropZ. reflexivity.
  - reflexivity.
Qed.

(** In binary mode the loop forwards whole frames only: what has left
    the buffer is a sequence of native frames, and the transport has
    got the web DATA frames of their payloads. *)
Lemma drain_forwards_whole_frames w0 b :
  snd (drain Direct w0 b) = None ->
  exists frames,
    b = nativeStream frames ++ snd (fst (drain Direct w0 b))
    /\ http.rw_body (snd (fst (fst (drain Direct w0 b))))
       = http.rw_body w0 ++ webStream frames.
Proof.
  apply (drain_rounds
           (fun bw w0 b r =>
              bw = Direct -> snd r = None ->
              exists frames,
                b = nativeStream frames ++ snd (fst r)
                /\ http.rw_body (snd (fst (fst r))) = http.rw_body w0 ++ webStream frames));
    clear; cbn [fst snd]; intros; try discriminate; try reflexivity.
  - exists []. cbn. rewrite app_nil_r. auto.
  - exists []. cbn. rewrite app_nil_r. auto.
  - subst bw. cbn [bodyWrite] in H1.
    destruct (rwWrite w0 (emittedHeader b)) as [w1' [e|]] eqn:Eh; [discriminate|].
    injection H1 as <- <-. apply rwWrite_ok in Eh.
    apply bodyCopyN_direct_ok in H2 as (-> & Hbody & Hall).
    destruct (H3 eq_refl H5) as (frames & Hrest & Hout).
    destruct (head_frame b H Hall) as (flag & Hb & Hweb).
    exists ((flag, takeZ (declared b) (drop 5 b)) :: frames). split.
    + rewrite nativeStream_cons. cbn [fst snd]. rewrite <- app_assoc, <- Hrest.
      exact Hb.
    + rewrite Hout, Hbody, Eh. cbn [webStream flat_map snd].
      rewrite <- Hweb, <- !app_assoc. reflexivity.
Qed.

(** X19. The invariant of the frame buffer, below 4 GiB.  After a [Write] that returns
    without error, with fewer than 2^32 bytes buffered on the way, the
    buffer holds less than one whole native frame; and in binary mode
    the bytes that left it went to the transport as whole web DATA
    frames. *)
Lemma Write_leaves_less_than_a_frame (s : t) (p : list byte) :
  len (frameBuffer s ++ p) < 2 ^ 32 ->
  snd (Write s p) = None ->
  let s' := fst (fst (Write s p)) in
  (len (frameBuffer s') < 5
   \/ len (frameBuffer s') < 5 + declared (frameBuffer s'))
  /\ (bodyWriter s = Direct ->
      exists frames,
        frameBuffer s ++ p = nativeStream frames ++ frameBuffer s'
        /\ http.rw_body (w s') = http.rw_body (w s) ++ webStream frames).
Proof.
  intros Hlen Hok. unfold Write in *.
  destruct (writeHeaders_body s) as (Hb & _ & _ & Hw & Hf & _).
  rewrite Hf in *. rewrite Hw in *.
  pose proof (drain_leaves_less_than_a_frame (bodyWriter s) (w (writeHeaders s))
                (frameBuffer s ++ p) Hlen) as Hinv.
  pose proof (drain_forwards_whole_frames (w (writeHeaders s)) (frameBuffer s ++ p))
    as Hwhole.
  destruct (drain (bodyWriter s) (w (writeHeaders s)) (frameBuffer s ++ p))
    as [[[bw w1] b] [e|]] eqn:E; [discriminate|].
  cbn [fst snd withBody frameBuffer w] in *.
  split; [apply Hinv; reflexivity|].
  intros Hdirect. rewrite Hdirect in E. rewrite E in Hwhole. cbn [fst snd] in Hwhole.
  rewrite <- Hb. apply Hwhole. reflexivity.
Qed.

Lemma Write_leaves_less_than_a_frame_witness :
  let s := NewStreamingResponseWriter NewRecorder false in
  let p := [x00; x00; x00; x00; x01; x2a; x00; x00; x00; x00; x03; x2b] in
  let s' := fst (fst (Write s p)) in
  (len (frameBuffer s') < 5
   \/ len (frameBuffer s') < 5 + declared (frameBuffer s'))
  /\ (bodyWriter s = Direct ->
      exists frames,
        frameBuffer s ++ p = nativeStream frames ++ frameBuffer s'
        /\ http.rw_body (w s') = http.rw_body (w s) ++ webStream frames).
Proof.
  intros s p.
  apply (Write_leaves_less_than_a_frame s p); reflexivity.
Defined.

(** ** Base64: encoding and decoding *)

Lemma decodeChar_encodeChar i :
  0 <= i < 64 -> base64.decodeChar (base64.encodeChar i) = Some i.
Proof.
  intros H. replace i with (Z.of_nat (Z.to_nat i)) by lia.
  assert (Hn : (Z.to_nat i < 64)%nat) by lia.
  generalize dependent (Z.to_nat i). clear. intros n Hn.
  do 64 (destruct n as [|n]; [reflexivity|]). lia.
Qed.

Lemma encodeChar_plain i :
  0 <= i < 64 ->
  Byte.eqb (base64.encodeChar i) base64.padChar = false
  /\ base64.isNewline (base64.encodeChar i) = false
  /\ base64.inAlphabet (base64.encodeChar i) = true.
Proof.
  intros H. replace i with (Z.of_nat (Z.to_nat i)) by lia.
  assert (Hn : (Z.to_nat i < 64)%nat) by lia.
  generalize dependent (Z.to_nat i). clear. intros n Hn.
  do 64 (destruct n as [|n]; [repeat split; reflexivity|]). lia.
Qed.

Lemma sextet_sixBits val shift :
  0 <= shift -> base64.sextet val shift = base64.encodeChar (sixBits val shift).
Proof.
  intros H. unfold base64.sextet, sixBits.
  rewrite shiftr_div by exact H.
  change 63 with (Z.ones 6). rewrite Z.land_ones by lia. reflexivity.
Qed.

Lemma sixBits_range val shift : 0 <= sixBits val shift < 64.
Proof. unfold sixBits. apply Z.mod_pos_bound. lia. Qed.

Lemma lor_add_low x y n :
  0 <= n -> 0 <= y < 2 ^ n -> x mod 2 ^ n = 0 -> Z.lor x y = x + y.
Proof.
  intros Hn Hy Hx.
  assert (x = Z.shiftl (x / 2 ^ n) n) as ->.
  { rewrite Z.shiftl_mul_pow2 by lia.
    pose proof (Z.div_mod x (2 ^ n) ltac:(lia)). lia. }
  rewrite lor_shiftl_add by lia. rewrite Z.shiftl_mul_pow2 by lia. reflexivity.
Qed.

(** The 24-bit value of a quantum, from its four six-bit digits. *)
Lemma quantum_value s0 s1 s2 s3 :
  0 <= s0 < 64 -> 0 <= s1 < 64 -> 0 <= s2 < 64 -> 0 <= s3 < 64 ->
  Z.lor (Z.lor (Z.lor (Z.shiftl s0 18) (Z.shiftl s1 12)) (Z.shiftl s2 6)) s3
  = s0 * 2 ^ 18 + s1 * 2 ^ 12 + s2 * 2 ^ 6 + s3.
Proof.
  intros H0 H1 H2 H3. rewrite !Z.shiftl_mul_pow2 by lia.
  rewrite (lor_add_low (s0 * 2 ^ 18) (s1 * 2 ^ 12) 18) by
      (try rewrite Z.mod_mul; lia).
  rewrite (lor_add_low _ (s2 * 2 ^ 6) 12); [|lia|lia|].
  2:{ replace (s0 * 2 ^ 18 + s1 * 2 ^ 12) with ((s0 * 2 ^ 6 + s1) * 2 ^ 12) by lia.
      apply Z.mod_mul. lia. }
  rewrite (lor_add_low _ s3 6); [reflexivity|lia|lia|].
  replace (s0 * 2 ^ 18 + s1 * 2 ^ 12 + s2 * 2 ^ 6)
    with ((s0 * 2 ^ 12 + s1 * 2 ^ 6 + s2) * 2 ^ 6) by lia.
  apply Z.mod_mul. lia.
Qed.

Lemma quantumValue_digits s0 s1 s2 s3 :
  0 <= s0 < 64 -> 0 <= s1 < 64 -> 0 <= s2 < 64 -> 0 <= s3 < 64 ->
  base64.quantumValue (base64.encodeChar s0) (base64.encodeChar s1)
    (Some (base64.encodeChar s2)) (Some (base64.encodeChar s3))
  = Some (s0 * 2 ^ 18 + s1 * 2 ^ 12 + s2 * 2 ^ 6 + s3).
Proof.
  intros. unfold base64.quantumValue.
  rewrite !decodeChar_encodeChar by assumption. cbn [mbind option_bind].
  rewrite quantum_value by assumption. reflexivity.
Qed.

(** Three bytes as one 24-bit value, as [Encode] packs them. *)
Lemma pack3 a b c :
  Z.lor (Z.lor (Z.shiftl (byte_to_Z a) 16) (Z.shiftl (byte_to_Z b) 8)) (byte_to_Z c)
  = byte_to_Z a * 2 ^ 16 + byte_to_Z b * 2 ^ 8 + byte_to_Z c.
Proof.
  pose proof (byte_to_Z_range a). pose proof (byte_to_Z_range b).
  pose proof (byte_to_Z_range c).
  rewrite !Z.shiftl_mul_pow2 by lia.
  rewrite (lor_add_low _ (byte_to_Z b * 2 ^ 8) 16) by (try rewrite Z.mod_mul; lia).
  rewrite (lor_add_low _ (byte_to_Z c) 8); [reflexivity|lia|lia|].
  replace (byte_to_Z a * 2 ^ 16 + byte_to_Z b * 2 ^ 8)
    with ((byte_to_Z a * 2 ^ 8 + byte_to_Z b) * 2 ^ 8) by lia.
  apply Z.mod_mul. lia.
Qed.

Lemma pack2 a b :
  Z.lor (Z.shiftl (byte_to_Z a) 16) (Z.shiftl (byte_to_Z b) 8)
  = byte_to_Z a * 2 ^ 16 + byte_to_Z b * 2 ^ 8.
Proof.
  pose proof (byte_to_Z_range a). pose proof (byte_to_Z_range b).
  rewrite !Z.shiftl_mul_pow2 by lia.
  apply (lor_add_low _ _ 16); try rewrite Z.mod_mul; lia.
Qed.

(** A 24-bit value is the sum of its four six-bit digits. *)
Lemma sixBits_sum val :
  0 <= val < 2 ^ 24 ->
  sixBits val 18 * 2 ^ 18 + sixBits val 12 * 2 ^ 12 + sixBits val 6 * 2 ^ 6
  + sixBits val 0 = val.
Proof.
  intros H. unfold sixBits. Z.div_mod_to_equations. lia.
Qed.

Lemma bytesOf_pack3 a b c :
  base64.bytesOf (byte_to_Z a * 2 ^ 16 + byte_to_Z b * 2 ^ 8 + byte_to_Z c) 3
  = [a; b; c].
Proof.
  pose proof (byte_to_Z_range a). pose proof (byte_to_Z_range b).
  pose proof (byte_to_Z_range c).
  unfold base64.bytesOf. cbn [take]. rewrite !shiftr_div by lia.
  repeat f_equal; apply byte_of_Z_eq; Z.div_mod_to_equations; lia.
Qed.

(** A full quantum decodes to its three bytes. *)
Lemma decodeFull_quantum a b c :
  let val := byte_to_Z a * 2 ^ 16 + byte_to_Z b * 2 ^ 8 + byte_to_Z c in
  base64.decodeFull (base64.encodeChar (sixBits val 18))
    (base64.encodeChar (sixBits val 12)) (base64.encodeChar (sixBits val 6))
    (base64.encodeChar (sixBits val 0))
  = Some [a; b; c].
Proof.
  intros val. unfold base64.decodeFull.
  rewrite quantumValue_digits by apply sixBits_range.
  cbn [mbind option_bind]. rewrite sixBits_sum.
  - subst val. rewrite bytesOf_pack3. reflexivity.
  - subst val. pose proof (byte_to_Z_range a). pose proof (byte_to_Z_range b).
    pose proof (byte_to_Z_range c). lia.
Qed.

Lemma Encode_cons3 a b c rest :
  base64.Encode (a :: b :: c :: rest) = quantum3 a b c ++ base64.Encode rest.
Proof.
  cbn [base64.Encode]. rewrite pack3, !sextet_sixBits by lia. reflexivity.
Qed.

Lemma Encode_two a b : base64.Encode [a; b] = quantum2 a b.
Proof.
  cbn [base64.Encode]. rewrite pack2, !sextet_sixBits by lia. reflexivity.
Qed.

Lemma Encode_one a : base64.Encode [a] = quantum1 a.
Proof.
  cbn [base64.Encode]. rewrite Z.shiftl_mul_pow2, !sextet_sixBits by lia. reflexivity.
Qed.

Lemma decodeQuantum_quantum3 a b c :
  match quantum3 a b c with
  | [c0; c1; c2; c3] =>
      base64.decodeQuantum c0 c1 c2 c3 = Some [a; b; c]
      /\ base64.decodeFull c0 c1 c2 c3 = Some [a; b; c]
  | _ => False
  end.
Proof.
  unfold quantum3. cbv zeta. unfold base64.decodeQuantum.
  rewrite (proj1 (encodeChar_plain _ (sixBits_range _ 0))).
  split; apply decodeFull_quantum.
Qed.

Lemma decodeQuantum_quantum2 a b :
  match quantum2 a b with
  | [c0; c1; c2; c3] => base64.decodeQuantum c0 c1 c2 c3 = Some [a; b]
  | _ => False
  end.
Proof.
  unfold quantum2. cbv zeta. unfold base64.decodeQuantum.
  change (Byte.eqb base64.padChar base64.padChar) with true. cbv iota.
  rewrite (proj1 (encodeChar_plain _ (sixBits_range _ 6))).
  pose proof (byte_to_Z_range a). pose proof (byte_to_Z_range b).
  set (val := byte_to_Z a * 2 ^ 16 + byte_to_Z b * 2 ^ 8).
  unfold base64.quantumValue.
  rewrite !decodeChar_encodeChar by apply sixBits_range. cbn [mbind option_bind].
  rewrite (quantum_value _ _ _ 0) by (try apply sixBits_range; lia).
  assert (Hsum : sixBits val 18 * 2 ^ 18 + sixBits val 12 * 2 ^ 12
                 + sixBits val 6 * 2 ^ 6 + 0 = val - val mod 64).
  { unfold sixBits. subst val. Z.div_mod_to_equations. lia. }
  rewrite Hsum. unfold base64.bytesOf. cbn [take]. rewrite !shiftr_div by lia.
  subst val. repeat f_equal; apply byte_of_Z_eq; Z.div_mod_to_equations; lia.
Qed.

Lemma decodeQuantum_quantum1 a :
  match quantum1 a with
  | [c0; c1; c2; c3] => base64.decodeQuantum c0 c1 c2 c3 = Some [a]
  | _ => False
  end.
Proof.
  unfold quantum1. cbv zeta. unfold base64.decodeQuantum.
  change (Byte.eqb base64.padChar base64.padChar) with true. cbv iota.
  pose proof (byte_to_Z_range a).
  set (val := byte_to_Z a * 2 ^ 16).
  unfold base64.quantumValue.
  rewrite !decodeChar_encodeChar by apply sixBits_range. cbn [mbind option_bind].
  rewrite (quantum_value _ _ 0 0) by (try apply sixBits_range; lia).
  assert (Hsum : sixBits val 18 * 2 ^ 18 + sixBits val 12 * 2 ^ 12
                 + 0 * 2 ^ 6 + 0 = val - val mod 4096).
  { unfold sixBits. subst val. Z.div_mod_to_equations. lia. }
  rewrite Hsum. unfold base64.bytesOf. cbn [take]. rewrite !shiftr_div by lia.
  subst val. repeat f_equal; apply byte_of_Z_eq; Z.div_mod_to_equations; lia.
Qed.

(** Induction over a list three elements at a time. *)
Lemma list_ind3 {A} (P : list A -> Prop) :
  P [] -> (forall a, P [a]) -> (forall a b, P [a; b]) ->
  (forall a b c rest, P rest -> P (a :: b :: c :: rest)) ->
  forall l, P l.
Proof.
  intros H0 H1 H2 H3 l.
  assert (Hall : P l /\ (forall a, P (a :: l)) /\ (forall a b, P (a :: b :: l))).
  { induction l as [|x l (IH0 & IH1 & IH2)].
    - auto.
    - split; [apply IH1|]. split; [intros a; apply IH2|].
      intros a b. apply H3. exact IH0. }
  apply Hall.
Qed.

Lemma Encode_nil_inv l : base64.Encode l = [] -> l = [].
Proof.
  destruct l as [|a [|b [|c rest]]]; [reflexivity|discriminate..].
Qed.

(** [Encode] goes through whole groups of three bytes. *)
Lemma Encode_app a b :
  (length a mod 3 = 0)%nat -> base64.Encode (a ++ b) = base64.Encode a ++ base64.Encode b.
Proof.
  induction a as [|x|x y|x y z rest IH] using list_ind3; intros Hlen.
  - reflexivity.
  - discriminate.
  - discriminate.
  - cbn [app]. rewrite !Encode_cons3, <- app_assoc. f_equal. apply IH.
    cbn [length] in Hlen.
    replace (S (S (S (length rest)))) with (length rest + 1 * 3)%nat in Hlen by lia.
    rewrite Nat.Div0.mod_add in Hlen. exact Hlen.
Qed.

Lemma decodeQuanta_more c0 c1 c2 c3 e rest :
  base64.decodeQuanta (c0 :: c1 :: c2 :: c3 :: e :: rest)
  = (bs ← base64.decodeFull c0 c1 c2 c3;
     tl ← base64.decodeQuanta (e :: rest);
     Some (bs ++ tl)).
Proof. reflexivity. Qed.

Lemma wellFormed_more c0 c1 c2 c3 e rest :
  base64.wellFormed (c0 :: c1 :: c2 :: c3 :: e :: rest)
  = base64.inAlphabet c0 && base64.inAlphabet c1 && base64.inAlphabet c2
    && base64.inAlphabet c3 && base64.wellFormed (e :: rest).
Proof. reflexivity. Qed.

(** What [Encode] writes is well-formed standard base64 without line
    breaks, and decodes to the bytes encoded. *)
Lemma Encode_decodes l :
  base64.decodeQuanta (base64.Encode l) = Some l
  /\ base64.wellFormed (base64.Encode l) = true
  /\ List.filter (fun c => negb (base64.isNewline c)) (base64.Encode l)
     = base64.Encode l.
Proof.
  induction l as [|x|x y|x y z rest (IHd & IHw & IHf)] using list_ind3.
  - repeat split.
  - rewrite Encode_one. pose proof (decodeQuantum_quantum1 x) as Hq.
    unfold quantum1 in *. cbv zeta in *.
    destruct (encodeChar_plain _ (sixBits_range (byte_to_Z x * 2 ^ 16) 18)) as (_ & Hn0 & Ha0).
    destruct (encodeChar_plain _ (sixBits_range (byte_to_Z x * 2 ^ 16) 12)) as (_ & Hn1 & Ha1).
    split; [exact Hq|]. cbn [base64.wellFormed List.filter].
    rewrite Hn0, Hn1, Ha0, Ha1. repeat split.
  - rewrite Encode_two. pose proof (decodeQuantum_quantum2 x y) as Hq.
    unfold quantum2 in *. cbv zeta in *.
    set (val := byte_to_Z x * 2 ^ 16 + byte_to_Z y * 2 ^ 8) in *.
    destruct (encodeChar_plain _ (sixBits_range val 18)) as (_ & Hn0 & Ha0).
    destruct (encodeChar_plain _ (sixBits_range val 12)) as (_ & Hn1 & Ha1).
    destruct (encodeChar_plain _ (sixBits_range val 6)) as (_ & Hn2 & Ha2).
    split; [exact Hq|]. cbn [base64.wellFormed List.filter].
    rewrite Hn0, Hn1, Hn2, Ha0, Ha1, Ha2. repeat split.
  - rewrite Encode_cons3. pose proof (decodeQuantum_quantum3 x y z) as Hq.
    unfold quantum3 in *. cbv zeta in *.
    set (val := byte_to_Z x * 2 ^ 16 + byte_to_Z y * 2 ^ 8 + byte_to_Z z) in *.
    destruct Hq as [Hq Hfull].
    destruct (encodeChar_plain _ (sixBits_range val 18)) as (_ & Hn0 & Ha0).
    destruct (encodeChar_plain _ (sixBits_range val 12)) as (_ & Hn1 & Ha1).
    destruct (encodeChar_plain _ (sixBits_range val 6)) as (_ & Hn2 & Ha2).
    destruct (encodeChar_plain _ (sixBits_range val 0)) as (_ & Hn3 & Ha3).
    cbn [app List.filter]. rewrite Hn0, Hn1, Hn2, Hn3. cbn [negb]. rewrite IHf.
    destruct (base64.Encode rest) as [|e erest] eqn:E.
    + apply Encode_nil_inv in E. subst rest.
      split; [exact Hq|]. cbn [base64.wellFormed].
      rewrite Ha0, Ha1, Ha2, Ha3. repeat split.
    + split; [|split; [|reflexivity]].
      * rewrite decodeQuanta_more, Hfull, IHd. reflexivity.
      * rewrite wellFormed_more, Ha0, Ha1, Ha2, Ha3, IHw. reflexivity.
Qed.

(** Round trip through the library: [DecodeString] undoes [Encode]. *)
Lemma DecodeString_Encode l : base64.DecodeString (base64.Encode l) = Some l.
Proof.
  unfold base64.DecodeString.
  destruct (Encode_decodes l) as (Hd & _ & Hf). rewrite Hf. exact Hd.
Qed.

(** ** Text mode against binary mode *)

Lemma sameMeta_refl w1 : sameMeta w1 w1.
Proof. repeat split. Qed.

Lemma sameMeta_trans w1 w2 w3 : sameMeta w1 w2 -> sameMeta w2 w3 -> sameMeta w1 w3.
Proof. intros (?&?&?&?&?) (?&?&?&?&?). repeat split; congruence. Qed.

Lemma sameMeta_accepted w1 q : sameMeta w1 (accepted w1 q).
Proof. repeat split. Qed.

Lemma mod3_sub n : ((n - n mod 3) mod 3 = 0)%nat.
Proof.
  pose proof (Nat.div_mod_eq n 3) as H.
  replace (n - n mod 3)%nat with (n / 3 * 3)%nat by lia.
  apply Nat.Div0.mod_mul.
Qed.

Lemma mod3_add a b : (a mod 3 = 0 -> b mod 3 = 0 -> (a + b) mod 3 = 0)%nat.
Proof.
  intros Ha Hb. rewrite Nat.Div0.add_mod, Ha, Hb. reflexivity.
Qed.

(** The whole groups of [p] go out, the rest waits. *)
Lemma writeGroups_stream base wt sent p :
  http.rw_room wt = None -> (length sent mod 3 = 0)%nat ->
  http.rw_body wt = base ++ base64.Encode sent ->
  exists enc' wt',
    base64.writeGroups wt p = (enc', wt', None)
    /\ textState base enc' wt' (sent ++ p)
    /\ sameMeta wt wt'.
Proof.
  intros Hroom Hsent Hbody. unfold base64.writeGroups.
  set (nn := (length p - length p mod 3)%nat).
  destruct (Nat.leb_spec 3 (length p)) as [H3|H3].
  - rewrite rwWrite_unlimited by exact Hroom.
    eexists _, _. split; [reflexivity|]. split; [|apply sameMeta_accepted].
    split; [reflexivity|]. split; [exact Hroom|]. cbn [base64.buf].
    split.
    { rewrite length_drop. subst nn.
      pose proof (Nat.mod_upper_bound (length p) 3 ltac:(lia)). lia. }
    exists (sent ++ take nn p). split; [|split].
    + rewrite <- app_assoc, take_drop. reflexivity.
    + rewrite length_app, length_take. apply mod3_add; [exact Hsent|].
      replace (nn `min` length p)%nat with nn by (subst nn; lia).
      apply mod3_sub.
    + cbn [accepted http.rw_body]. rewrite Hbody, <- app_assoc.
      rewrite (Encode_app sent) by exact Hsent. reflexivity.
  - eexists _, _. split; [reflexivity|]. split; [|apply sameMeta_refl].
    split; [reflexivity|]. split; [exact Hroom|]. cbn [base64.buf].
    split; [exact H3|]. exists sent. auto.
Qed.

(** [encoder.Write] on a transport that takes everything: it never
    fails, and the encoder stays in mid-stream. *)
Lemma base64_Write_stream base enc wt bin p :
  textState base enc wt bin ->
  exists enc' wt',
    base64.Write enc wt p = (enc', wt', None)
    /\ textState base enc' wt' (bin ++ p)
    /\ sameMeta wt wt'.
Proof.
  intros (Herr & Hroom & Hbuf & sent & -> & Hsent & Hbody).
  unfold base64.Write. rewrite Herr.
  destruct (base64.buf enc) as [|b0 bs] eqn:Eb.
  - rewrite app_nil_r. apply writeGroups_stream; assumption.
  - set (i := Nat.min (length p) (3 - length (b0 :: bs))).
    destruct (Nat.ltb_spec (length ((b0 :: bs) ++ take i p)) 3) as [Hlt|Hge].
    + eexists _, _. split; [reflexivity|]. split; [|apply sameMeta_refl].
      split; [reflexivity|]. split; [exact Hroom|]. cbn [base64.buf].
      split; [exact Hlt|]. exists sent. split; [|auto].
      rewrite <- app_assoc. do 2 f_equal. symmetry. apply take_ge.
      rewrite length_app, length_take in Hlt. subst i. cbn [length] in *. lia.
    + rewrite rwWrite_unlimited by exact Hroom.
      assert (Hfull : length ((b0 :: bs) ++ take i p) = 3%nat).
      { rewrite length_app, length_take in Hge |- *. subst i. cbn [length] in *. lia. }
      destruct (writeGroups_stream base
                  (accepted wt (base64.Encode ((b0 :: bs) ++ take i p)))
                  (sent ++ (b0 :: bs) ++ take i p) (drop i p))
        as (enc' & wt' & Hw & Hts & Hmeta).
      * exact Hroom.
      * rewrite length_app. apply mod3_add; [exact Hsent|]. rewrite Hfull. reflexivity.
      * cbn [accepted http.rw_body]. rewrite Hbody, <- app_assoc.
        rewrite (Encode_app sent) by exact Hsent. reflexivity.
      * exists enc', wt'. split; [exact Hw|]. split.
        -- rewrite <- !app_assoc in Hts. rewrite take_drop in Hts.
           rewrite <- app_assoc. exact Hts.
        -- eapply sameMeta_trans; [apply sameMeta_accepted|exact Hmeta].
Qed.

(** [encoder.Close] pads what waits: the transport then holds the
    encoding of everything written. *)
Lemma base64_Close_stream base enc wt bin :
  textState base enc wt bin ->
  exists enc' wt',
    base64.Close enc wt = (enc', wt', None)
    /\ http.rw_body wt' = base ++ base64.Encode bin
    /\ sameMeta wt wt'.
Proof.
  intros (Herr & Hroom & Hbuf & sent & -> & Hsent & Hbody).
  unfold base64.Close. rewrite Herr.
  destruct (base64.buf enc) as [|b0 bs] eqn:Eb.
  - exists enc, wt. rewrite app_nil_r. split; [reflexivity|].
    split; [exact Hbody|apply sameMeta_refl].
  - rewrite rwWrite_unlimited by exact Hroom.
    eexists _, _. split; [reflexivity|]. split; [|apply sameMeta_accepted].
    cbn [accepted http.rw_body]. rewrite Hbody, <- app_assoc.
    rewrite (Encode_app sent) by exact Hsent. reflexivity.
Qed.

Lemma bodyWrite_text base enc wt bin p :
  textState base enc wt bin ->
  exists enc' wt',
    bodyWrite (flushingBase64Writer enc) wt p = (flushingBase64Writer enc', wt', None)
    /\ textState base enc' wt' (bin ++ p).
Proof.
  intros Hts. destruct (base64_Write_stream base enc wt bin p Hts)
    as (enc' & wt' & Hw & Hts' & _).
  exists enc', wt'. cbn [bodyWrite]. rewrite Hw. auto.
Qed.

Lemma bodyCopyN_text base enc wt bin chunk n :
  textState base enc wt bin ->
  exists enc' wt',
    bodyCopyN (flushingBase64Writer enc) wt chunk n
    = (flushingBase64Writer enc', wt', if len chunk <? n then Some EOF else None)
    /\ textState base enc' wt' (bin ++ chunk).
Proof.
  intros Hts. unfold bodyCopyN. destruct chunk as [|c chunk].
  - exists enc, wt. rewrite app_nil_r. auto.
  - destruct (bodyWrite_text base enc wt bin (c :: chunk) Hts) as (enc' & wt' & Hw & Hts').
    exists enc', wt'. rewrite Hw. auto.
Qed.

(** Split the conjunctions of a goal and close what is at hand. *)
Ltac conjuncts :=
  repeat match goal with |- _ /\ _ => split end;
  cbn [headers trailers capturedStatusCode headersWritten frameBuffer flusher
       bodyWriter w withBody withHeader withTrailers];
  try assumption; try reflexivity; try congruence; try apply sameMeta_refl.

(** The loop of [Write] in the two modes, on the same buffer: the same
    rounds, the same rest, the same error, and the encoder has been
    given exactly the bytes the binary transport has got. *)
Lemma drain_mirrors base : forall n b, length b = n ->
  forall enc wt wb bin,
    textState base enc wt bin ->
    http.rw_room wb = None -> http.rw_body wb = base ++ bin ->
    exists enc' wt' wb' bin' b' e,
      drain (flushingBase64Writer enc) wt b = (flushingBase64Writer enc', wt', b', e)
      /\ drain Direct wb b = (Direct, wb', b', e)
      /\ textState base enc' wt' bin'
      /\ http.rw_room wb' = None /\ http.rw_body wb' = base ++ bin'
      /\ sameMeta wb wb'.
Proof.
  induction n as [n IH] using lt_wf_ind. intros b Hn enc wt wb bin Hts Hroom Hbody.
  rewrite (drain_round (flushingBase64Writer enc)), (drain_round Direct).
  destruct (decide (5 <= len b)) as [H5|H5];
    [|exists enc, wt, wb, bin, b, None; conjuncts].
  destruct (uint32 (len b) <? uint32 (5 + declared b));
    [exists enc, wt, wb, bin, b, None; conjuncts|].
  destruct (bodyWrite_text base enc wt bin (emittedHeader b) Hts)
    as (enc1 & wt1 & -> & Hts1).
  cbn [bodyWrite]. rewrite rwWrite_unlimited by exact Hroom.
  set (chunk := takeZ (declared b) (drop 5 b)).
  destruct (bodyCopyN_text base enc1 wt1 _ chunk (declared b) Hts1)
    as (enc2 & wt2 & -> & Hts2).
  rewrite bodyCopyN_direct by exact Hroom. rewrite accepted_accepted.
  set (wb2 := accepted wb (emittedHeader b ++ chunk)).
  assert (Hbody2 : http.rw_body wb2 = base ++ (bin ++ emittedHeader b) ++ chunk).
  { subst wb2. cbn [accepted http.rw_body]. rewrite Hbody, <- !app_assoc. reflexivity. }
  destruct (len chunk <? declared b).
  - exists enc2, wt2, wb2, ((bin ++ emittedHeader b) ++ chunk),
      (dropZ (declared b) (drop 5 b)), (Some EOF).
    conjuncts. apply sameMeta_accepted.
  - destruct (IH (length (dropZ (declared b) (drop 5 b)))) with
        (b := dropZ (declared b) (drop 5 b)) (enc := enc2) (wt := wt2) (wb := wb2)
        (bin := (bin ++ emittedHeader b) ++ chunk)
      as (enc' & wt' & wb' & bin' & b' & e & Ht & Hd & Hts' & Hroom' & Hbody' & Hmeta);
      try assumption; try reflexivity.
    + subst n. pose proof (len_dropZ_le (declared b) (drop 5 b)) as Hle.
      unfold len in *. rewrite length_drop in Hle. lia.
    + exists enc', wt', wb', bin', b', e. conjuncts.
Qed.

Lemma mirrors_New w0 :
  http.rw_room w0 = None ->
  mirrors (http.rw_body w0)
          (NewStreamingResponseWriter w0 true) (NewStreamingResponseWriter w0 false).
Proof.
  intros Hroom. unfold mirrors. conjuncts.
  exists base64.NewEncoder, []. conjuncts.
  - symmetry. apply app_nil_r.
  - unfold textState. conjuncts.
    + cbn. lia.
    + exists []. conjuncts. cbn. symmetry. apply app_nil_r.
Qed.

Lemma textState_meta base enc w1 w2 bin :
  textState base enc w1 bin ->
  http.rw_room w2 = http.rw_room w1 -> http.rw_body w2 = http.rw_body w1 ->
  textState base enc w2 bin.
Proof.
  intros (He & Hr & Hb & sent & Hbin & Hs & Hbody) Hroom Hbd.
  split; [exact He|]. split; [congruence|]. split; [exact Hb|].
  exists sent. split; [exact Hbin|]. split; [exact Hs|congruence].
Qed.

Lemma mirrors_writeHeaders base st sb :
  mirrors base st sb -> mirrors base (writeHeaders st) (writeHeaders sb).
Proof.
  intros (Hh & Ht & Hc & Hw & Hf & Hfl & Hd & Hroom & enc & bin & Hbw & Hbody & Hts).
  unfold writeHeaders. rewrite Hw, Hh, Ht.
  destruct (headersWritten sb) eqn:Hsb.
  - unfold mirrors. conjuncts. exists enc, bin. conjuncts.
  - destruct (fold_left promote _ _) as [headers1 trailers1].
    unfold mirrors. conjuncts. exists enc, bin. conjuncts.
Qed.

Lemma mirrors_withHeader base st sb h :
  mirrors base st sb -> mirrors base (withHeader st h) (withHeader sb h).
Proof.
  intros (Hh & Ht & Hc & Hw & Hf & Hfl & Hd & Hroom & enc & bin & Hbw & Hbody & Hts).
  unfold mirrors. conjuncts. exists enc, bin. conjuncts.
Qed.

Lemma mirrors_WriteHeader base st sb c :
  mirrors base st sb -> mirrors base (WriteHeader st c) (WriteHeader sb c).
Proof.
  intros (Hh & Ht & Hc & Hw & Hf & Hfl & Hd & Hroom & enc & bin & Hbw & Hbody & Hts).
  unfold WriteHeader. rewrite Hw. destruct (headersWritten sb) eqn:Hsb.
  - unfold mirrors. conjuncts. exists enc, bin. conjuncts.
  - unfold mirrors. conjuncts. exists enc, bin. conjuncts.
Qed.

Lemma mirrors_Flush base st sb :
  mirrors base st sb -> mirrors base (Flush st) (Flush sb).
Proof.
  intros H. apply mirrors_writeHeaders in H.
  destruct H as (Hh & Ht & Hc & Hw & Hf & Hfl & Hd & Hroom & enc & bin & Hbw & Hbody & Hts).
  unfold Flush. rewrite Hfl. destruct (flusher (writeHeaders sb)) eqn:Hfsb.
  - unfold mirrors. conjuncts. exists enc, bin. conjuncts.
  - unfold mirrors. conjuncts. exists enc, bin. conjuncts.
Qed.

Lemma mirrors_Write base st sb p :
  mirrors base st sb ->
  mirrors base (fst (fst (Write st p))) (fst (fst (Write sb p)))
  /\ snd (Write st p) = snd (Write sb p).
Proof.
  intros H. apply mirrors_writeHeaders in H.
  destruct H as (Hh & Ht & Hc & Hw & Hf & Hfl & Hd & Hroom & enc & bin & Hbw & Hbody & Hts).
  unfold Write. rewrite Hbw, Hd, Hf.
  destruct (drain_mirrors base _ (frameBuffer (writeHeaders sb) ++ p) eq_refl
              enc (w (writeHeaders st)) (w (writeHeaders sb)) bin Hts Hroom Hbody)
    as (enc' & wt' & wb' & bin' & b' & e & -> & -> & Hts' & Hroom' & Hbody' & _).
  assert (Hm : mirrors base
                 (withBody (writeHeaders st) (flushingBase64Writer enc') wt' b')
                 (withBody (writeHeaders sb) Direct wb' b')).
  { unfold mirrors. conjuncts. exists enc', bin'. conjuncts. }
  destruct e; auto.
Qed.

Lemma mirrors_step base st sb c :
  mirrors base st sb -> mirrors base (step st c) (step sb c).
Proof.
  intros H. destruct c; cbn [step].
  - unfold Header. rewrite (proj1 H). apply mirrors_withHeader. exact H.
  - unfold Header. rewrite (proj1 H). apply mirrors_withHeader. exact H.
  - unfold Header. rewrite (proj1 H). apply mirrors_withHeader. exact H.
  - unfold Header. rewrite (proj1 H). apply mirrors_withHeader. exact H.
  - apply mirrors_WriteHeader. exact H.
  - apply mirrors_Write. exact H.
  - apply mirrors_Flush. exact H.
Qed.

Lemma mirrors_run base calls : forall st sb,
  mirrors base st sb -> mirrors base (run st calls) (run sb calls).
Proof.
  induction calls as [|c calls IH]; intros st sb H; [exact H|].
  cbn [run fold_left]. apply IH. apply mirrors_step. exact H.
Qed.

Lemma bodyWrite_direct w0 q :
  http.rw_room w0 = None -> bodyWrite Direct w0 q = (Direct, accepted w0 q, None).
Proof. intros H. cbn [bodyWrite]. rewrite rwWrite_unlimited by exact H. reflexivity. Qed.

Lemma Flush_body s :
  headersWritten s = true -> http.rw_body (w (Flush s)) = http.rw_body (w s).
Proof.
  intros H. unfold Flush. rewrite writeHeaders_idem by exact H.
  destruct (flusher s); reflexivity.
Qed.

(** [Finish] in the two modes: neither fails, and the text transport
    ends with the padded encoding of everything the binary transport
    has got. *)
Lemma Finish_mirrors base st sb :
  mirrors base st sb ->
  snd (Finish st) = None /\ snd (Finish sb) = None
  /\ exists bin,
       http.rw_body (w (fst (Finish sb))) = base ++ bin
       /\ http.rw_body (w (fst (Finish st))) = base ++ base64.Encode bin.
Proof.
  intros H. apply mirrors_writeHeaders in H.
  destruct H as (Hh & Ht & Hc & Hw & Hf & Hfl & Hd & Hroom & enc & bin & Hbw & Hbody & Hts).
  unfold Finish.
  assert (Hwt : headersWritten (writeHeaders st) = true) by apply writeHeaders_written.
  assert (Hwb : headersWritten (writeHeaders sb) = true) by apply writeHeaders_written.
  rewrite Ht, Hc.
  set (tr := finalTrailers (trailers (writeHeaders sb)) (capturedStatusCode (writeHeaders sb))).
  cbn [bodyWriter w withTrailers trailers frameBuffer].
  set (hdr := grpcTrailerFrame :: BigEndian.PutUint32 (uint32 (len (http.Write tr)))).
  rewrite Hbw, Hd.
  destruct (bodyWrite_text base enc (w (writeHeaders st)) bin hdr Hts)
    as (enc1 & wt1 & -> & Hts1).
  destruct (bodyWrite_text base enc1 wt1 (bin ++ hdr) (http.Write tr) Hts1)
    as (enc2 & wt2 & -> & Hts2).
  destruct (base64_Close_stream base enc2 wt2 _ Hts2) as (enc3 & wt3 & -> & Hbody3 & _).
  rewrite !bodyWrite_direct by exact Hroom.
  cbn [fst snd]. conjuncts.
  exists ((bin ++ hdr) ++ http.Write tr). split.
  - rewrite Flush_body by exact Hwb. cbn [w withBody accepted http.rw_body].
    rewrite Hbody, <- !app_assoc. reflexivity.
  - rewrite Flush_body by exact Hwt. exact Hbody3.
Qed.

(** C3. For every sequence of calls followed by [Finish], on a
    transport that accepts what it is given: neither mode fails, and
    the bytes the text mode emits, trailer frame and closing padding
    included, are well-formed standard base64 (no line breaks) that
    decodes to exactly the bytes the binary mode emits for the same
    calls. *)
Theorem text_mode_is_base64_of_binary_mode (w0 : http.ResponseWriter) (calls : list call) :
  http.rw_room w0 = None ->
  let text := Finish (run (NewStreamingResponseWriter w0 true) calls) in
  let binary := Finish (run (NewStreamingResponseWriter w0 false) calls) in
  snd text = None /\ snd binary = None
  /\ exists textOut binaryOut,
       http.rw_body (w (fst text)) = http.rw_body w0 ++ textOut
       /\ http.rw_body (w (fst binary)) = http.rw_body w0 ++ binaryOut
       /\ base64.wellFormed textOut = true
       /\ base64.DecodeString textOut = Some binaryOut.
Proof.
  intros Hroom text binary. subst text binary.
  pose proof (mirrors_run (http.rw_body w0) calls _ _ (mirrors_New w0 Hroom)) as Hm.
  destruct (Finish_mirrors _ _ _ Hm) as (Ht & Hb & bin & Hbin & Htext).
  split; [exact Ht|]. split; [exact Hb|].
  exists (base64.Encode bin), bin.
  split; [exact Htext|]. split; [exact Hbin|].
  split; [apply Encode_decodes|apply DecodeString_Encode].
Qed.

Lemma text_mode_is_base64_of_binary_mode_witness :
  let calls := [CallHeaderSet "Content-Type" "application/grpc";
                CallWriteHeader 200;
                CallWrite [x00; x00; x00];
                CallFlush;
                CallWrite ([x00; x0a] ++ list_byte_of_string "hello_back")] in
  let text := Finish (run (NewStreamingResponseWriter NewRecorder true) calls) in
  let binary := Finish (run (NewStreamingResponseWriter NewRecorder false) calls) in
  snd text = None /\ snd binary = None
  /\ exists textOut binaryOut,
       http.rw_body (w (fst text)) = http.rw_body NewRecorder ++ textOut
       /\ http.rw_body (w (fst binary)) = http.rw_body NewRecorder ++ binaryOut
       /\ base64.wellFormed textOut = true
       /\ base64.DecodeString textOut = Some binaryOut.
Proof.
  intros calls. apply (text_mode_is_base64_of_binary_mode NewRecorder calls). reflexivity.
Defined.

(** The scenario of the test suite, evaluated: the response
    "hello_back" in binary mode and in text mode. *)
Example scenario_hello_back :
  let calls := [CallWrite ([x00; x00; x00; x00; x0a] ++ list_byte_of_string "hello_back")] in
  http.rw_body (w (fst (Finish (run (NewStreamingResponseWriter NewRecorder false) calls))))
  = [x00; x00; x00; x00; x0a] ++ list_byte_of_string "hello_back"
    ++ [x80; x00; x00; x00; x10] ++ list_byte_of_string "Grpc-Status: 0"
    ++ ["013"; "010"]%byte
  /\ http.rw_body (w (fst (Finish (run (NewStreamingResponseWriter NewRecorder true) calls))))
     = list_byte_of_string "AAAAAApoZWxsb19iYWNrgAAAABBHcnBjLVN0YXR1czogMA0K".
Proof. split; vm_compute; reflexivity. Qed.

(** The request of the scenario: one DATA frame around "hello_world"
    comes out as the native frame, byte for byte. *)
Example scenario_hello_world :
  let body := {| io.pending := [x00; x00; x00; x00; x0b] ++ list_byte_of_string "hello_world";
                 io.final := EOF |} in
  snd (fst (FrameReader.Read (FrameReader.NewFrameReader body false) 64))
  = [x00; x00; x00; x00; x0b] ++ list_byte_of_string "hello_world"
  /\ snd (fst (FrameReader.Read
                 (FrameReader.NewFrameReader
                    {| io.pending := list_byte_of_string "AAAAAAtoZWxsb193b3JsZA==";
                       io.final := EOF |} true) 64))
     = [x00; x00; x00; x00; x0b] ++ list_byte_of_string "hello_world".
Proof. split; vm_compute; reflexivity. Qed.

(** ** One frame through [Write], either mode *)

Lemma delivered_bodyWrite base bw w0 bytes p :
  delivered base bw w0 bytes ->
  exists bw' w1,
    bodyWrite bw w0 p = (bw', w1, None)
    /\ delivered base bw' w1 (bytes ++ p)
    /\ (bw = Direct -> bw' = Direct).
Proof.
  intros [Hroom Hd]. destruct bw as [|enc].
  - exists Direct, (accepted w0 p). rewrite bodyWrite_direct by exact Hroom.
    split; [reflexivity|]. split; [|reflexivity]. split; [exact Hroom|].
    cbn [accepted http.rw_body]. rewrite Hd, <- app_assoc. reflexivity.
  - destruct (bodyWrite_text base enc w0 bytes p Hd) as (enc' & w1 & Hw & Hts).
    exists (flushingBase64Writer enc'), w1. split; [exact Hw|].
    split; [|discriminate]. split; [apply Hts|exact Hts].
Qed.

Lemma delivered_bodyCopyN base bw w0 bytes chunk n :
  delivered base bw w0 bytes -> n <= len chunk ->
  exists bw' w1,
    bodyCopyN bw w0 chunk n = (bw', w1, None)
    /\ delivered base bw' w1 (bytes ++ chunk)
    /\ (bw = Direct -> bw' = Direct).
Proof.
  intros Hd Hn. unfold bodyCopyN.
  assert (Hlt : (len chunk <? n) = false) by (apply Z.ltb_ge; exact Hn).
  destruct chunk as [|c chunk].
  - exists bw, w0. rewrite Hlt, app_nil_r. auto.
  - destruct (delivered_bodyWrite base bw w0 bytes (c :: chunk) Hd)
      as (bw' & w1 & -> & Hd' & Hk).
    exists bw', w1. rewrite Hlt. auto.
Qed.

Lemma delivered_writeHeaders base s bytes :
  delivered base (bodyWriter s) (w s) bytes ->
  delivered base (bodyWriter (writeHeaders s)) (w (writeHeaders s)) bytes.
Proof.
  intros [Hroom Hd]. destruct (writeHeaders_body s) as (Hb & Hr & _ & Hw & _).
  rewrite Hw. split; [congruence|].
  destruct (bodyWriter s) as [|enc]; [congruence|].
  eapply textState_meta; [exact Hd|exact Hr|exact Hb].
Qed.

(** C1. A native frame with compression flag 0 around a payload [p]
    (of any length a 4-byte length can state: 0, 1, or more than any
    transport chunk), written in one [Write] to a writer whose buffer
    is empty and whose body writer is in working order, hands the body
    writer exactly the web DATA frame 0x00, the same four length
    bytes, [p]; in binary mode these are the bytes the transport
    gets; and the client-side decoder reads [p] back from the frame. *)
Theorem Write_frame_roundtrip (s : t) (p base sofar : list byte) :
  len p < 2 ^ 32 ->
  frameBuffer s = [] ->
  delivered base (bodyWriter s) (w s) sofar ->
  let frame := nativeFrame x00 p in
  let '(s', n, err) := Write s frame in
  err = None /\ n = len frame
  /\ frameBuffer s' = []
  /\ delivered base (bodyWriter s') (w s') (sofar ++ webDataFrame p)
  /\ (bodyWriter s = Direct ->
      http.rw_body (w s') = http.rw_body (w s) ++ webDataFrame p)
  /\ webDataFrame p = x00 :: BigEndian.PutUint32 (len p) ++ p
  /\ (let '(_, frameType, payload, rerr) :=
        readGrpcWebFrame {| io.pending := webDataFrame p; io.final := EOF |} in
      frameType = grpcDataFrame /\ payload = p /\ rerr = None).
Proof.
  intros Hp Hbuf Hd frame. subst frame.
  rewrite readGrpcWebFrame_webDataFrame by exact Hp.
  assert (Hbefore : bodyWriter s = Direct -> http.rw_body (w s) = base ++ sofar).
  { intros Hdir. destruct Hd as [_ Hd]. rewrite Hdir in Hd. exact Hd. }
  unfold Write.
  apply delivered_writeHeaders in Hd.
  destruct (writeHeaders_body s) as (_ & _ & _ & Hw & Hf & _).
  rewrite Hf, Hbuf. cbn [app].
  rewrite drain_round.
  pose proof (len_nonneg p) as Hp0.
  destruct (decide (5 <= len (nativeFrame x00 p))) as [_|Hn];
    [|rewrite len_nativeFrame in Hn; lia].
  assert (Hdecl : declared (nativeFrame x00 p) = len p).
  { rewrite <- (app_nil_r (nativeFrame x00 p)). apply declared_nativeFrame. exact Hp. }
  unfold emittedHeader. rewrite Hdecl, len_nativeFrame, Z.ltb_irrefl.
  destruct (delivered_bodyWrite base _ _ sofar
              (grpcDataFrame :: BigEndian.PutUint32 (len p)) Hd)
    as (bw1 & w1 & -> & Hd1 & Hk1).
  change (drop 5 (nativeFrame x00 p)) with p.
  rewrite takeZ_short, dropZ_short by lia.
  destruct (delivered_bodyCopyN base bw1 w1 _ p (len p) Hd1 ltac:(lia))
    as (bw2 & w2 & -> & Hd2 & Hk2).
  rewrite drain_nil. rewrite <- app_assoc in Hd2.
  cbn [withBody frameBuffer bodyWriter w]. conjuncts.
  intros Hdir. rewrite (Hbefore Hdir).
  rewrite Hw in Hk1. rewrite (Hk2 (Hk1 Hdir)) in Hd2.
  destruct Hd2 as [_ Hd2]. rewrite Hd2, <- app_assoc. reflexivity.
Qed.

Lemma Write_frame_roundtrip_witness :
  let s := NewStreamingResponseWriter NewRecorder true in
  let p := list_byte_of_string "hello_back" in
  let '(s', n, err) := Write s (nativeFrame x00 p) in
  err = None /\ n = len (nativeFrame x00 p)
  /\ frameBuffer s' = []
  /\ delivered [] (bodyWriter s') (w s') ([] ++ webDataFrame p)
  /\ (bodyWriter s = Direct ->
      http.rw_body (w s') = http.rw_body (w s) ++ webDataFrame p)
  /\ webDataFrame p = x00 :: BigEndian.PutUint32 (len p) ++ p
  /\ (let '(_, frameType, payload, rerr) :=
        readGrpcWebFrame {| io.pending := webDataFrame p; io.final := EOF |} in
      frameType = grpcDataFrame /\ payload = p /\ rerr = None).
Proof.
  intros s p.
  apply (Write_frame_roundtrip s p [] []); [vm_compute; reflexivity|reflexivity|].
  split; [reflexivity|]. cbn [bodyWriter s NewStreamingResponseWriter newFlushingBase64Writer].
  unfold textState. conjuncts.
  - cbn. lia.
  - exists []. conjuncts.
Defined.

(** * Further properties of the code *)

(** ** The request decoder, read to the end *)

Lemma readsToEnd_error fr n fr' out e :
  FrameReader.Read fr n = (fr', out, Some e) -> readsToEnd fr n out e.
Proof.
  intros H. exists 1%nat. intros fuel Hf. destruct fuel as [|fuel]; [lia|].
  cbn [readAll]. rewrite H. reflexivity.
Qed.

Lemma readsToEnd_more fr n fr' out rest e :
  FrameReader.Read fr n = (fr', out, None) -> readsToEnd fr' n rest e ->
  readsToEnd fr n (out ++ rest) e.
Proof.
  intros H [fuel0 Hrest]. exists (S fuel0). intros fuel Hf.
  destruct fuel as [|fuel]; [lia|]. cbn [readAll]. rewrite H, Hrest by lia.
  reflexivity.
Qed.

Lemma Read_buffered src x b n :
  FrameReader.Read {| FrameReader.source := src; FrameReader.buffer := x :: b |} n
  = ({| FrameReader.source := src; FrameReader.buffer := drop n (x :: b) |},
     take n (x :: b), None).
Proof. reflexivity. Qed.

(** What waits in the decoder's buffer is delivered first, in pieces
    of at most [n] bytes, before the source is asked again. *)
Lemma readsToEnd_buffer src n rest e :
  (0 < n)%nat ->
  readsToEnd {| FrameReader.source := src; FrameReader.buffer := [] |} n rest e ->
  forall b,
    readsToEnd {| FrameReader.source := src; FrameReader.buffer := b |} n (b ++ rest) e.
Proof.
  intros Hn Hrest b.
  remember (length b) as k eqn:Hk. revert b Hk.
  induction k as [k IH] using lt_wf_ind. intros b Hk.
  destruct b as [|x b]; [exact Hrest|].
  replace ((x :: b) ++ rest) with (take n (x :: b) ++ (drop n (x :: b) ++ rest))
    by (rewrite app_assoc, take_drop; reflexivity).
  eapply readsToEnd_more; [apply Read_buffered|].
  apply (IH (length (drop n (x :: b)))); [|reflexivity].
  subst k. rewrite length_drop. cbn [length]. lia.
Qed.

(** A whole DATA frame at the head of the source, read into a buffer
    of any size: the first [n] bytes of the native frame come out, the
    others wait in the decoder. *)
Lemma Read_frame (fin : error) (p tail : list byte) (n : nat) :
  len p < 2 ^ 32 ->
  FrameReader.Read
    {| FrameReader.source := {| io.pending := webDataFrame p ++ tail; io.final := fin |};
       FrameReader.buffer := [] |} n
  = ({| FrameReader.source := {| io.pending := tail; io.final := fin |};
        FrameReader.buffer := drop n (nativeFrame x00 p) |},
     take n (nativeFrame x00 p), None).
Proof.
  intros Hp. pose proof (len_nonneg p) as Hp0.
  assert (Hrf : io.ReadFull {| io.pending := webDataFrame p ++ tail; io.final := fin |} 5
                = ({| io.pending := p ++ tail; io.final := fin |},
                   grpcDataFrame :: BigEndian.PutUint32 (len p), None)).
  { unfold io.ReadFull. cbn [io.pending io.final].
    replace (5 <=? length (webDataFrame p ++ tail))%nat with true; [reflexivity|].
    symmetry. apply Nat.leb_le. cbn [webDataFrame app length BigEndian.PutUint32]. lia. }
  unfold FrameReader.Read. cbn [FrameReader.buffer FrameReader.source].
  change (0 <? length (@nil byte))%nat with false. cbv iota. rewrite Hrf.
  assert (Hlen : BigEndian.Uint32 (drop 1 (grpcDataFrame :: BigEndian.PutUint32 (len p)))
                 = len p).
  { change (drop 1 (grpcDataFrame :: BigEndian.PutUint32 (len p)))
      with (BigEndian.PutUint32 (len p) ++ []).
    apply Uint32_PutUint32. lia. }
  cbv beta iota. rewrite !Hlen.
  change (nth 0 (grpcDataFrame :: BigEndian.PutUint32 (len p)) x00) with grpcDataFrame.
  change (Byte.eqb grpcDataFrame grpcDataFrame) with true. cbn [negb app].
  destruct (Z.ltb_spec 0 (len p)) as [Hpos|Hzero].
  - unfold io.CopyN. cbn [io.pending io.final].
    rewrite takeZ_app_len, dropZ_app_len.
    assert (Hle : (len p <=? len (p ++ tail)) = true).
    { apply Z.leb_le. rewrite len_app. pose proof (len_nonneg tail). lia. }
    rewrite Hle. reflexivity.
  - assert (p = []) as -> by (destruct p; [reflexivity|unfold len in Hzero; cbn in Hzero; lia]).
    reflexivity.
Qed.

Lemma readsToEnd_frame fin p tail n rest e :
  (0 < n)%nat -> len p < 2 ^ 32 ->
  readsToEnd {| FrameReader.source := {| io.pending := tail; io.final := fin |};
                FrameReader.buffer := [] |} n rest e ->
  readsToEnd {| FrameReader.source := {| io.pending := webDataFrame p ++ tail;
                                         io.final := fin |};
                FrameReader.buffer := [] |} n (nativeFrame x00 p ++ rest) e.
Proof.
  intros Hn Hp Hrest.
  replace (nativeFrame x00 p ++ rest)
    with (take n (nativeFrame x00 p) ++ (drop n (nativeFrame x00 p) ++ rest))
    by (rewrite app_assoc, take_drop; reflexivity).
  eapply readsToEnd_more; [apply Read_frame; exact Hp|].
  apply readsToEnd_buffer; assumption.
Qed.

Lemma readsToEnd_frames fin payloads : forall tail n rest e,
  (0 < n)%nat -> Forall (fun p => len p < 2 ^ 32) payloads ->
  readsToEnd {| FrameReader.source := {| io.pending := tail; io.final := fin |};
                FrameReader.buffer := [] |} n rest e ->
  readsToEnd {| FrameReader.source := {| io.pending := webFrames payloads ++ tail;
                                         io.final := fin |};
                FrameReader.buffer := [] |} n (nativeFrames payloads ++ rest) e.
Proof.
  induction payloads as [|p payloads IH]; intros tail n rest e Hn Hall Hrest.
  - exact Hrest.
  - apply Forall_cons in Hall as [Hp Hall].
    cbn [webFrames nativeFrames flat_map]. rewrite <- !app_assoc.
    apply readsToEnd_frame; [exact Hn|exact Hp|].
    apply IH; assumption.
Qed.

(** X1. A request body of complete web DATA frames, read to the end
    into a buffer of any positive size, comes out as the native
    frames of the same payloads, compression flag 0, in the same
    order, and the loop ends with [io.EOF]. *)
Theorem request_frames_are_translated (payloads : list (list byte)) (n : nat) :
  (0 < n)%nat -> Forall (fun p => len p < 2 ^ 32) payloads ->
  readsToEnd
    (FrameReader.NewFrameReader {| io.pending := webFrames payloads; io.final := EOF |} false)
    n (nativeFrames payloads) EOF.
Proof.
  intros Hn Hall.
  rewrite <- (app_nil_r (webFrames payloads)), <- (app_nil_r (nativeFrames payloads)).
  apply readsToEnd_frames; [exact Hn|exact Hall|].
  eapply readsToEnd_error. reflexivity.
Qed.

Lemma request_frames_are_translated_witness :
  readsToEnd
    (FrameReader.NewFrameReader
       {| io.pending := webFrames [list_byte_of_string "hello_world"; []];
          io.final := EOF |} false)
    3 (nativeFrames [list_byte_of_string "hello_world"; []]) EOF.
Proof.
  apply request_frames_are_translated; [lia|].
  repeat constructor.
Defined.

(** The read that meets a cut, for the lemmas on whole bodies. *)
Lemma Read_at_cut (fr : FrameReader.t) (n : nat) :
  FrameReader.buffer fr = [] ->
  cutInHeader (io.pending (FrameReader.source fr))
  \/ (cutInPayload (io.pending (FrameReader.source fr))
      /\ nth 0 (io.pending (FrameReader.source fr)) x00 = grpcDataFrame) ->
  hardFailure (FrameReader.Read fr n)
  /\ (cutInHeader (io.pending (FrameReader.source fr)) ->
      snd (FrameReader.Read fr n)
      = Some (if isEOF (io.final (FrameReader.source fr)) then ErrUnexpectedEOF
              else io.final (FrameReader.source fr)))
  /\ (cutInPayload (io.pending (FrameReader.source fr)) ->
      snd (FrameReader.Read fr n)
      = Some (Errorf "error copying frame data" (io.final (FrameReader.source fr)))).
Proof.
  intros Hbuf Hcut. unfold FrameReader.Read. rewrite Hbuf. cbn [length Nat.ltb Nat.leb].
  destruct fr as [[bs fin] b]. cbn [FrameReader.source io.pending io.final] in *.
  unfold cutInHeader, cutInPayload, len in *.
  destruct Hcut as [Hh|[[H5 Hp] Hflag]].
  - unfold io.ReadFull. cbn [io.pending io.final].
    destruct (Nat.leb_spec 5 (length bs)) as [Hle|Hlt]; [lia|].
    destruct bs as [|b0 bs]; [cbn in Hh; lia|]. cbn [take].
    split; [|split; [intros _; reflexivity|intros [H5 _]; lia]].
    split; [reflexivity|]. eexists. split; [reflexivity|].
    destruct fin; reflexivity.
  - unfold io.ReadFull. cbn [io.pending io.final].
    destruct (Nat.leb_spec 5 (length bs)) as [Hle|Hlt]; [|lia].
    rewrite nth_take_0, Hflag. cbn [Byte.eqb negb].
    change (BigEndian.Uint32 (drop 1 (take 5 bs))) with (declared bs).
    assert (H0 : (0 <? declared bs) = true) by (apply Z.ltb_lt; lia).
    replace (Byte.eqb grpcDataFrame grpcDataFrame) with true by reflexivity.
    cbn [negb]. rewrite H0. unfold io.CopyN. cbn [io.pending io.final].
    assert (Hshort : (declared bs <=? len (drop 5 bs)) = false).
    { apply Z.leb_gt. unfold len. rewrite length_drop. lia. }
    rewrite Hshort.
    split; [|split; [intros [_ H4]; lia|intros _; reflexivity]].
    split; [reflexivity|]. eexists. split; reflexivity.
Qed.

(** X2. When the body is cut after some complete DATA frames, in the
    next header or in the payload of the next DATA frame, the loop
    still delivers the native frames of the complete ones and then
    ends with an error that is not [io.EOF]. *)
Theorem request_cut_after_frames (payloads : list (list byte)) (cut : list byte)
    (fin : error) (n : nat) :
  (0 < n)%nat -> Forall (fun p => len p < 2 ^ 32) payloads ->
  cutInHeader cut \/ (cutInPayload cut /\ nth 0 cut x00 = grpcDataFrame) ->
  exists e,
    readsToEnd
      (FrameReader.NewFrameReader
         {| io.pending := webFrames payloads ++ cut; io.final := fin |} false)
      n (nativeFrames payloads) e
    /\ isEOF e = false.
Proof.
  intros Hn Hall Hcut.
  set (fr := {| FrameReader.source := {| io.pending := cut; io.final := fin |};
                FrameReader.buffer := [] |}).
  destruct (Read_at_cut fr n eq_refl Hcut) as ((Hout & e & He & Hne) & _).
  exists e. split; [|exact Hne].
  rewrite <- (app_nil_r (nativeFrames payloads)).
  apply readsToEnd_frames; [exact Hn|exact Hall|].
  destruct (FrameReader.Read fr n) as [[fr' out] oe] eqn:ER. cbn [fst snd] in *.
  subst out oe. eapply readsToEnd_error. exact ER.
Qed.

Lemma request_cut_after_frames_witness :
  exists e,
    readsToEnd
      (FrameReader.NewFrameReader
         {| io.pending := webFrames [list_byte_of_string "hello"]
                          ++ [x00; x00; x00; x00; x0b] ++ list_byte_of_string "hello_w";
            io.final := EOF |} false)
      4 (nativeFrames [list_byte_of_string "hello"]) e
    /\ isEOF e = false.
Proof.
  apply (request_cut_after_frames [list_byte_of_string "hello"]
           ([x00; x00; x00; x00; x0b] ++ list_byte_of_string "hello_w") EOF 4).
  - lia.
  - repeat constructor.
  - right. split; [split; vm_compute; [discriminate|reflexivity]|reflexivity].
Defined.

(** X3. A frame whose flag byte is not 0x00 (a trailer frame, but a
    compressed DATA frame 0x01 as well) ends the translation: [Read]
    takes the five header bytes, delivers nothing, reports [io.EOF],
    and leaves the payload and whatever follows unread. *)
Theorem other_flag_ends_the_stream (hdr rest : list byte) (fin : error) (n : nat) :
  length hdr = 5%nat -> nth 0 hdr x00 <> grpcDataFrame ->
  FrameReader.Read
    {| FrameReader.source := {| io.pending := hdr ++ rest; io.final := fin |};
       FrameReader.buffer := [] |} n
  = ({| FrameReader.source := {| io.pending := rest; io.final := fin |};
        FrameReader.buffer := [] |}, [], Some EOF).
Proof.
  intros Hlen Hflag. unfold FrameReader.Read, io.ReadFull.
  cbn [FrameReader.buffer FrameReader.source io.pending io.final].
  change (0 <? length (@nil byte))%nat with false. cbv iota.
  replace (5 <=? length (hdr ++ rest))%nat with true
    by (symmetry; apply Nat.leb_le; rewrite length_app; lia).
  rewrite <- Hlen, take_app_length, drop_app_length.
  destruct (Byte.eqb (nth 0 hdr x00) grpcDataFrame) eqn:E.
  - apply Byte.byte_dec_bl in E. contradiction.
  - reflexivity.
Qed.

Lemma other_flag_ends_the_stream_witness :
  FrameReader.Read
    {| FrameReader.source :=
         {| io.pending := [x01; x00; x00; x00; x02] ++ [x0a; x0b]; io.final := EOF |};
       FrameReader.buffer := [] |} 16
  = ({| FrameReader.source := {| io.pending := [x0a; x0b]; io.final := EOF |};
        FrameReader.buffer := [] |}, [], Some EOF).
Proof.
  apply other_flag_ends_the_stream; [reflexivity|discriminate].
Defined.

(** X4. After the [Read] that fails because the payload of a DATA
    frame is cut, the translated header and the part of the payload
    that did arrive stay in the decoder: the next [Read] hands them
    out without an error. *)
Theorem failed_read_leaves_partial_frame (bs : list byte) (fin : error) (n m : nat) :
  cutInPayload bs -> nth 0 bs x00 = grpcDataFrame ->
  let fr := {| FrameReader.source := {| io.pending := bs; io.final := fin |};
               FrameReader.buffer := [] |} in
  let kept := (x00 :: BigEndian.PutUint32 (declared bs)) ++ drop 5 bs in
  FrameReader.Read fr n
  = ({| FrameReader.source := {| io.pending := []; io.final := fin |};
        FrameReader.buffer := kept |},
     [], Some (Errorf "error copying frame data" fin))
  /\ FrameReader.Read (fst (fst (FrameReader.Read fr n))) m
     = ({| FrameReader.source := {| io.pending := []; io.final := fin |};
           FrameReader.buffer := drop m kept |},
        take m kept, None).
Proof.
  intros [H5 Hp] Hflag fr kept.
  assert (Hfirst : FrameReader.Read fr n
    = ({| FrameReader.source := {| io.pending := []; io.final := fin |};
          FrameReader.buffer := kept |},
       [], Some (Errorf "error copying frame data" fin))).
  { subst fr kept. unfold FrameReader.Read, io.ReadFull.
    cbn [FrameReader.buffer FrameReader.source io.pending io.final].
    change (0 <? length (@nil byte))%nat with false. cbv iota.
    replace (5 <=? length bs)%nat with true
      by (symmetry; apply Nat.leb_le; unfold len in H5; lia).
    rewrite nth_take_0, Hflag.
    change (Byte.eqb grpcDataFrame grpcDataFrame) with true. cbn [negb].
    change (BigEndian.Uint32 (drop 1 (take 5 bs))) with (declared bs).
    assert (H0 : (0 <? declared bs) = true).
    { apply Z.ltb_lt. unfold len in *. lia. }
    rewrite H0. unfold io.CopyN. cbn [io.pending io.final].
    assert (Hshort : (declared bs <=? len (drop 5 bs)) = false).
    { apply Z.leb_gt. unfold len in *. rewrite length_drop. lia. }
    rewrite Hshort.
    assert (Hlen : len (drop 5 bs) <= declared bs).
    { unfold len in *. rewrite length_drop. lia. }
    rewrite takeZ_short, dropZ_short by exact Hlen. reflexivity. }
  split; [exact Hfirst|]. rewrite Hfirst. cbn [fst]. subst kept.
  cbn [app]. apply Read_buffered.
Qed.

Lemma failed_read_leaves_partial_frame_witness :
  let bs := [x00; x00; x00; x00; x0b] ++ list_byte_of_string "hello_w" in
  let fr := {| FrameReader.source := {| io.pending := bs; io.final := EOF |};
               FrameReader.buffer := [] |} in
  FrameReader.Read (fst (fst (FrameReader.Read fr 64))) 64
  = ({| FrameReader.source := {| io.pending := []; io.final := EOF |};
        FrameReader.buffer := [] |},
     [x00; x00; x00; x00; x0b] ++ list_byte_of_string "hello_w", None).
Proof.
  intros bs fr.
  assert (Hcut : cutInPayload bs) by (split; vm_compute; [discriminate|reflexivity]).
  exact (proj2 (failed_read_leaves_partial_frame bs EOF 64 64 Hcut eq_refl)).
Defined.

(** ** Text requests *)

(** The decoding reader over the encoding of [l]: the bytes [l], then
    what the source reports at its end. *)
Lemma decodeStream_Encode l fin :
  base64.decodeStream (base64.Encode l) fin = (l, fin).
Proof.
  induction l as [|x|x y|x y z rest IH] using list_ind3.
  - reflexivity.
  - rewrite Encode_one. pose proof (decodeQuantum_quantum1 x) as Hq.
    unfold quantum1 in *. cbv zeta in *. cbn [base64.decodeStream].
    rewrite Hq. change (Byte.eqb base64.padChar base64.padChar) with true. reflexivity.
  - rewrite Encode_two. pose proof (decodeQuantum_quantum2 x y) as Hq.
    unfold quantum2 in *. cbv zeta in *. cbn [base64.decodeStream].
    rewrite Hq. change (Byte.eqb base64.padChar base64.padChar) with true. reflexivity.
  - rewrite Encode_cons3. pose proof (decodeQuantum_quantum3 x y z) as [Hq _].
    unfold quantum3 in *. cbv zeta in *.
    set (val := byte_to_Z x * 2 ^ 16 + byte_to_Z y * 2 ^ 8 + byte_to_Z z) in *.
    cbn [app base64.decodeStream]. rewrite Hq.
    rewrite (proj1 (encodeChar_plain _ (sixBits_range val 0))).
    rewrite IH. reflexivity.
Qed.

Lemma NewFrameReader_Encode (body : list byte) (fin : error) :
  FrameReader.NewFrameReader
    {| io.pending := base64.Encode body; io.final := fin |} true
  = FrameReader.NewFrameReader {| io.pending := body; io.final := fin |} false.
Proof.
  unfold FrameReader.NewFrameReader, base64.NewDecoder. cbn [io.pending io.final].
  rewrite (proj2 (proj2 (Encode_decodes body))), decodeStream_Encode. reflexivity.
Qed.

(** X5. A text request is read as the binary request it encodes: the
    decoder made for the standard base64 encoding of a body, with
    [isTextEncoded] set, is the decoder made for the body itself,
    whatever the source reports at its end. *)
Theorem text_request_reads_as_binary (body : list byte) (fin : error) :
  FrameReader.NewFrameReader
    {| io.pending := base64.Encode body; io.final := fin |} true
  = FrameReader.NewFrameReader {| io.pending := body; io.final := fin |} false.
Proof.
  unfold FrameReader.NewFrameReader, base64.NewDecoder. cbn [io.pending io.final].
  destruct (Encode_decodes body) as (_ & _ & Hplain).
  rewrite Hplain, decodeStream_Encode. reflexivity.
Qed.

Lemma uint32_len (p : list byte) : len p < 2 ^ 32 -> uint32 (len p) = len p.
Proof. intros H. apply uint32_small. pose proof (len_nonneg p). lia. Qed.

Lemma readGrpcFrame_nativeFrame (p : list byte) :
  len p < 2 ^ 32 ->
  readGrpcFrame {| io.pending := nativeFrame x00 p; io.final := EOF |}
  = ({| io.pending := []; io.final := EOF |}, p, None).
Proof.
  intros Hp. unfold readGrpcFrame, io.ReadFull. cbn [io.pending io.final].
  pose proof (len_nonneg p) as Hp0.
  change (5 <=? length (nativeFrame x00 p))%nat with true.
  cbn [take nativeFrame BigEndian.PutUint32 app nth drop].
  change (BigEndian.Uint32 _) with (BigEndian.Uint32 (BigEndian.PutUint32 (len p) ++ [])).
  rewrite Uint32_PutUint32 by lia.
  destruct (Z.eqb_spec (len p) 0) as [H0|H0].
  - destruct p; [reflexivity|]. unfold len in H0. cbn in H0. lia.
  - unfold len. cbn [io.pending io.final]. rewrite drop_0, Nat2Z.id, Nat.leb_refl.
    rewrite take_ge, drop_ge by lia. reflexivity.
Qed.

(** X6. The request path of the test suite, for any payload a 4-byte
    length can state and in either mode: the body
    [createGrpcWebRequestBody] builds, read to the end through the
    decoder, is the frame [writeGrpcFrame] writes for the payload, and
    [readGrpcFrame] gets the payload back from it. *)
Theorem request_roundtrip (payload : list byte) (isText : bool) (n : nat) :
  (0 < n)%nat -> len payload < 2 ^ 32 ->
  readsToEnd
    (FrameReader.NewFrameReader
       {| io.pending := createGrpcWebRequestBody payload isText; io.final := EOF |} isText)
    n (writeGrpcFrame payload) EOF
  /\ readGrpcFrame {| io.pending := writeGrpcFrame payload; io.final := EOF |}
     = ({| io.pending := []; io.final := EOF |}, payload, None).
Proof.
  intros Hn Hp. unfold createGrpcWebRequestBody, writeGrpcFrame.
  rewrite uint32_len by exact Hp.
  change ((x00 :: BigEndian.PutUint32 (len payload)) ++ payload)
    with (nativeFrame x00 payload).
  split; [|apply readGrpcFrame_nativeFrame; exact Hp].
  assert (Hbin : readsToEnd
            (FrameReader.NewFrameReader
               {| io.pending := nativeFrame x00 payload; io.final := EOF |} false)
            n (nativeFrame x00 payload) EOF).
  { pose proof (readsToEnd_frames EOF [payload] [] n [] EOF Hn) as H.
    cbn [webFrames nativeFrames flat_map] in H. rewrite !app_nil_r in H.
    apply H; [repeat constructor; exact Hp|].
    eapply readsToEnd_error. reflexivity. }
  destruct isText; [|exact Hbin].
  rewrite NewFrameReader_Encode. exact Hbin.
Qed.

Lemma request_roundtrip_witness :
  let payload := list_byte_of_string "hello_world" in
  readsToEnd
    (FrameReader.NewFrameReader
       {| io.pending := createGrpcWebRequestBody payload true; io.final := EOF |} true)
    4 (writeGrpcFrame payload) EOF
  /\ readGrpcFrame {| io.pending := writeGrpcFrame payload; io.final := EOF |}
     = ({| io.pending := []; io.final := EOF |}, payload, None).
Proof.
  apply request_roundtrip; [lia | reflexivity].
Defined.

(** X7. A DATA frame whose payload is cut at a clean end of the source
    is reported as a wrapped [io.EOF]: the error is not [io.EOF]
    itself, so a caller comparing with [==] sees a failure, although
    [errors.Is] still finds [io.EOF] inside. *)
Theorem cut_payload_wraps_EOF (fr : FrameReader.t) (n : nat) :
  FrameReader.buffer fr = [] ->
  cutInPayload (io.pending (FrameReader.source fr)) ->
  nth 0 (io.pending (FrameReader.source fr)) x00 = grpcDataFrame ->
  io.final (FrameReader.source fr) = EOF ->
  exists e, snd (FrameReader.Read fr n) = Some e /\ isEOF e = false /\ Is e EOF = true.
Proof.
  intros Hbuf Hcut Hflag Hfin.
  destruct (Read_at_cut fr n Hbuf (or_intror (conj Hcut Hflag))) as (_ & _ & He).
  rewrite (He Hcut), Hfin. eexists. repeat split.
Qed.

Lemma cut_payload_wraps_EOF_witness :
  exists e,
    snd (FrameReader.Read
           (FrameReader.NewFrameReader
              {| io.pending := [x00; x00; x00; x00; x03; x41]; io.final := EOF |} false) 32)
    = Some e /\ isEOF e = false /\ Is e EOF = true.
Proof.
  apply cut_payload_wraps_EOF; [reflexivity | | reflexivity | reflexivity].
  split; vm_compute; [discriminate | reflexivity].
Defined.

(** ** The status line and the headers over a whole response *)

(** Over the calls of a handler, either nothing has reached the
    transport yet, or the headers are out with status 200 on top of
    what the transport's status log held. *)
Lemma step_status w0 s c :
  (headersWritten s = false /\ w s = w0)
  \/ (headersWritten s = true
      /\ http.rw_status (w s) = http.StatusOK :: http.rw_status w0) ->
  (headersWritten (step s c) = false /\ w (step s c) = w0)
  \/ (headersWritten (step s c) = true
      /\ http.rw_status (w (step s c)) = http.StatusOK :: http.rw_status w0).
Proof.
  intros Hinv.
  assert (Hfin : forall s', sameHead (w (writeHeaders s)) (w s') ->
                   headersWritten s' = true ->
                   headersWritten s' = true
                   /\ http.rw_status (w s') = http.StatusOK :: http.rw_status w0).
  { intros s' [_ Hs] Hw'. split; [exact Hw'|]. rewrite <- Hs.
    destruct Hinv as [[Hw <-]|[Hw Hst]].
    - apply (writeHeaders_finalized s Hw).
    - rewrite writeHeaders_idem by exact Hw. exact Hst. }
  destruct c; cbn [step]; try exact Hinv.
  - unfold WriteHeader. destruct Hinv as [[Hw <-]|[Hw Hst]]; rewrite Hw.
    + left. split; reflexivity.
    + right. split; assumption.
  - right. destruct (Write_state s p) as (bw & w1 & b & -> & Hs).
    apply Hfin; [exact Hs|apply writeHeaders_written].
  - right. destruct (Flush_state s) as (w1 & -> & Hs).
    apply Hfin; [exact Hs|apply writeHeaders_written].
Qed.

Lemma run_status w0 calls : forall s,
  (headersWritten s = false /\ w s = w0)
  \/ (headersWritten s = true
      /\ http.rw_status (w s) = http.StatusOK :: http.rw_status w0) ->
  (headersWritten (run s calls) = false /\ w (run s calls) = w0)
  \/ (headersWritten (run s calls) = true
      /\ http.rw_status (w (run s calls)) = http.StatusOK :: http.rw_status w0).
Proof.
  induction calls as [|c calls IH]; intros s Hinv; [exact Hinv|].
  apply IH, step_status, Hinv.
Qed.

(** X8. Over a whole response, whatever the handler calls (header
    changes, [WriteHeader] with any code, [Write], [Flush]) and in
    either mode, the transport is given exactly one status, 200: the
    codes passed to [WriteHeader] never reach it.  And as long as no
    [Write] or [Flush] has run, the transport is untouched. *)
Theorem status_is_written_once (w0 : http.ResponseWriter) (isText : bool)
    (calls : list call) :
  let s := run (NewStreamingResponseWriter w0 isText) calls in
  http.rw_status (w (fst (Finish s))) = http.StatusOK :: http.rw_status w0
  /\ (headersWritten s = false -> w s = w0).
Proof.
  intros s.
  destruct (run_status w0 calls (NewStreamingResponseWriter w0 isText)) as [[Hw Hw0]|[Hw Hst]];
    [left; split; reflexivity| |]; fold s in Hw |- *.
  - fold s in Hw0. split; [|intros _; exact Hw0].
    destruct (Finish_state s) as (bw & w1 & -> & [_ Hs]). cbn [w withBody].
    rewrite <- Hs, <- Hw0. apply (writeHeaders_finalized s Hw).
  - fold s in Hst. split; [|congruence].
    destruct (Finish_state s) as (bw & w1 & -> & [_ Hs]). cbn [w withBody].
    rewrite <- Hs, writeHeaders_idem by exact Hw. exact Hst.
Qed.





(** The lookups [Finish] leaves alone. *)
Lemma finalTrailers_other tr c k :
  k <> "Grpc-Status" -> k <> "Grpc-Message" ->
  finalTrailers tr c !! k = tr !! k.
Proof.
  intros Hs Hm. unfold finalTrailers, http.Set_.
  change (http.CanonicalHeaderKey "Grpc-Status") with "Grpc-Status".
  change (http.CanonicalHeaderKey "Grpc-Message") with "Grpc-Message".
  destruct (String.eqb (http.Get tr "Grpc-Status") "");
    destruct (_ && _); rewrite ?lookup_insert_ne by congruence; reflexivity.
Qed.

(** X10. A Grpc-Status the handler supplied (one that is among the
    trailers after header finalization and not empty) goes out as it
    is, whatever status was captured: no mapping is applied.  The
    message is still filled in from the captured status when that is
    not 200 and no message was supplied, and otherwise the trailer set
    is sent unchanged. *)
Theorem explicit_status_is_kept (s : t) :
  http.Get (trailers (writeHeaders s)) "Grpc-Status" <> "" ->
  let before := trailers (writeHeaders s) in
  let tr := trailers (fst (Finish s)) in
  http.Get tr "Grpc-Status" = http.Get before "Grpc-Status"
  /\ (capturedStatusCode s <> 200 -> http.Get before "Grpc-Message" = "" ->
      tr = http.Set_ before "Grpc-Message" (http.StatusText (capturedStatusCode s)))
  /\ (capturedStatusCode s = 200 \/ http.Get before "Grpc-Message" <> "" ->
      tr = before).
Proof.
  intros Hst before tr. subst tr. rewrite Finish_trailers.
  rewrite writeHeaders_capturedStatusCode. fold before in Hst |- *.
  unfold finalTrailers.
  destruct (String.eqb_spec (http.Get before "Grpc-Status") "") as [E|_];
    [contradiction|].
  split; [|split].
  - destruct (_ && _); [|reflexivity].
    apply Get_Set_ne. vm_compute. discriminate.
  - intros Hc Hm. rewrite Hm. cbn [String.eqb andb].
    unfold http.StatusOK.
    destruct (Z.eqb_spec (capturedStatusCode s) 200); [contradiction|reflexivity].
  - intros [Hc|Hm].
    + rewrite Hc. cbn [Z.eqb http.StatusOK negb]. rewrite andb_false_r. reflexivity.
    + destruct (String.eqb_spec (http.Get before "Grpc-Message") "") as [E|_];
        [contradiction|reflexivity].
Qed.

Lemma explicit_status_is_kept_witness :
  let s := run (NewStreamingResponseWriter NewRecorder true)
               [CallHeaderSet "Trailer" "grpc-status";
                CallHeaderSet "Grpc-Status" "5";
                CallWriteHeader 503] in
  http.Get (trailers (fst (Finish s))) "Grpc-Status" = "5"
  /\ http.Get (trailers (fst (Finish s))) "Grpc-Message" = "Service Unavailable".
Proof.
  intros s.
  assert (Hst : http.Get (trailers (writeHeaders s)) "Grpc-Status" <> "")
    by (vm_compute; discriminate).
  destruct (explicit_status_is_kept s Hst) as (H1 & H2 & _).
  split; [rewrite H1; reflexivity|].
  rewrite H2; [reflexivity | vm_compute; discriminate | reflexivity].
Defined.

(** X11. [Finish] changes no trailer but Grpc-Status and Grpc-Message:
    every other field a handler announced in Trailer and set before
    the headers went out is in the trailer set [Finish] serializes,
    with its values. *)
Theorem announced_trailers_reach_Finish (s : t) (key : string) (v : list string) :
  headersWritten s = false ->
  In key (announced (headers s)) ->
  headers s !! promotedKey key = Some v ->
  promotedKey key <> "Grpc-Status" -> promotedKey key <> "Grpc-Message" ->
  trailers (fst (Finish s)) !! promotedKey key = Some v.
Proof.
  intros Hw Hin Hv Hs Hm. rewrite Finish_trailers, finalTrailers_other by assumption.
  destruct (promote_moves (announced (headers s)) (headers s) (trailers s)
              key (promotedKey key) v Hin eq_refl Hv) as [_ Ht].
  unfold writeHeaders. rewrite Hw.
  destruct (fold_left promote _ _) as [headers1 trailers1]. exact Ht.
Qed.

Lemma announced_trailers_reach_Finish_witness :
  let s := run (NewStreamingResponseWriter NewRecorder false)
               [CallHeaderAdd "Trailer" "Grpc-Status, x-checksum";
                CallHeaderAdd "X-Checksum" "abc";
                CallHeaderAdd "X-Checksum" "def"] in
  trailers (fst (Finish s)) !! "X-Checksum" = Some ["abc"; "def"].
Proof.
  intros s.
  apply (announced_trailers_reach_Finish s " x-checksum" ["abc"; "def"]);
    [reflexivity | vm_compute; auto | reflexivity | discriminate | discriminate].
Defined.

(** ** The trailer frame *)

(** The client-side decoder on one frame of any type. *)
Lemma readGrpcWebFrame_frame (flag : byte) (p : list byte) :
  len p < 2 ^ 32 ->
  readGrpcWebFrame {| io.pending := nativeFrame flag p; io.final := EOF |}
  = ({| io.pending := []; io.final := EOF |}, flag, p, None).
Proof.
  intros Hp. unfold readGrpcWebFrame, io.ReadFull. cbn [io.pending io.final].
  pose proof (len_nonneg p) as Hp0.
  change (5 <=? length (nativeFrame flag p))%nat with true.
  cbn [take nativeFrame BigEndian.PutUint32 app nth drop].
  change (BigEndian.Uint32 _) with (BigEndian.Uint32 (BigEndian.PutUint32 (len p) ++ [])).
  rewrite Uint32_PutUint32 by lia.
  destruct (Z.eqb_spec (len p) 0) as [H0|H0].
  - destruct p; [reflexivity|]. unfold len in H0. cbn in H0. lia.
  - unfold len. cbn [io.pending io.final]. rewrite drop_0, Nat2Z.id, Nat.leb_refl.
    rewrite take_ge, drop_ge by lia. reflexivity.
Qed.

(** [Finish] in binary mode on a transport that takes what it is
    given. *)
Lemma Finish_direct (s : t) :
  bodyWriter s = Direct -> http.rw_room (w s) = None ->
  let trailerBuf := http.Write (trailers (fst (Finish s))) in
  snd (Finish s) = None
  /\ http.rw_body (w (fst (Finish s)))
     = http.rw_body (w s)
         ++ grpcTrailerFrame :: BigEndian.PutUint32 (uint32 (len trailerBuf)) ++ trailerBuf
  /\ frameBuffer (fst (Finish s)) = frameBuffer s.
Proof.
  intros Hbw Hroom. rewrite Finish_trailers. cbv zeta.
  destruct (writeHeaders_body s) as (Hb & Hr & _ & Hw & Hf & _).
  assert (Hwr : headersWritten (writeHeaders s) = true) by apply writeHeaders_written.
  unfold Finish.
  set (tr := finalTrailers (trailers (writeHeaders s)) (capturedStatusCode (writeHeaders s))).
  cbn [bodyWriter w withTrailers trailers frameBuffer].
  rewrite Hw, Hbw.
  rewrite !bodyWrite_direct by (cbn [accepted http.rw_room]; congruence).
  cbn [fst snd]. split; [reflexivity|]. split.
  - rewrite Flush_body by exact Hwr. cbn [w withBody accepted http.rw_body].
    rewrite Hb, <- app_assoc. reflexivity.
  - unfold Flush. rewrite writeHeaders_idem by exact Hwr.
    cbn [flusher withBody withTrailers frameBuffer].
    destruct (flusher (writeHeaders s)); exact Hf.
Qed.

(** X12. [Finish] in binary mode, on a transport that takes what it is
    given: it does not fail, and it appends to the body exactly one
    frame, the type byte 0x80, the length of the serialized trailers
    in four bytes, and the serialized trailers, which the client-side
    decoder reads back as a frame of type 0x80.  What is left in the
    frame buffer (a frame the backend never completed) is not sent. *)
Theorem Finish_appends_the_trailer_frame (s : t) :
  bodyWriter s = Direct -> http.rw_room (w s) = None ->
  let trailerBuf := http.Write (trailers (fst (Finish s))) in
  let frame :=
    grpcTrailerFrame :: BigEndian.PutUint32 (uint32 (len trailerBuf)) ++ trailerBuf in
  snd (Finish s) = None
  /\ http.rw_body (w (fst (Finish s))) = http.rw_body (w s) ++ frame
  /\ frameBuffer (fst (Finish s)) = frameBuffer s
  /\ (len trailerBuf < 2 ^ 32 ->
      readGrpcWebFrame {| io.pending := frame; io.final := EOF |}
      = ({| io.pending := []; io.final := EOF |}, grpcTrailerFrame, trailerBuf, None)).
Proof.
  intros Hbw Hroom. cbv zeta.
  destruct (Finish_direct s Hbw Hroom) as (He & Hbody & Hbuf).
  split; [exact He|]. split; [exact Hbody|]. split; [exact Hbuf|].
  intros Hlen. rewrite uint32_len by exact Hlen.
  apply (readGrpcWebFrame_frame grpcTrailerFrame _ Hlen).
Qed.

Lemma Finish_appends_the_trailer_frame_witness :
  let s := fst (fst (Write (NewStreamingResponseWriter NewRecorder false)
                           [x00; x00; x00; x00; x02; x2a])) in
  http.rw_body (w (fst (Finish s)))
  = http.rw_body (w s)
      ++ [x80; x00; x00; x00; x10] ++ list_byte_of_string "Grpc-Status: 0" ++ [x0d; x0a]
  /\ frameBuffer (fst (Finish s)) = [x00; x00; x00; x00; x02; x2a].
Proof.
  intros s.
  destruct (Finish_appends_the_trailer_frame s eq_refl eq_refl) as (_ & Hbody & Hbuf & _).
  split; [rewrite Hbody; reflexivity | rewrite Hbuf; reflexivity].
Defined.

(** Every field with a valid name has its lines in the serialized
    header set. *)
Lemma Write_has_lines (h : http.Header) (k : string) (vs : list string) :
  h !! k = Some vs -> http.ValidHeaderFieldName k = true ->
  exists pre post, http.Write h = pre ++ flat_map (http.headerLine k) vs ++ post.
Proof.
  intros Hk Hvalid. unfold http.Write, http.sortedKeyValues.
  assert (Hin : (k, vs) ∈ merge_sort http.keyOrder (map_to_list h)).
  { rewrite merge_sort_Permutation. apply elem_of_map_to_list. exact Hk. }
  apply list_elem_of_split in Hin. destruct Hin as (l1 & l2 & ->).
  rewrite flat_map_app. cbn [flat_map fst snd]. rewrite Hvalid.
  eexists _, _. reflexivity.
Qed.

Lemma statusLine_plain c :
  http.headerLine "Grpc-Status" (Itoa (httpStatusToGrpcCode c))
  = list_byte_of_string ("Grpc-Status: " ++ Itoa (httpStatusToGrpcCode c)) ++ [x0d; x0a].
Proof.
  unfold httpStatusToGrpcCode.
  repeat match goal with
         | |- context [if ?b then _ else _] => destruct b
         end; vm_compute; reflexivity.
Qed.

(** X13. When the handler supplied no Grpc-Status, the trailer block
    [Finish] serializes holds the line "Grpc-Status: <code>" + CR LF
    with the code the mapping gives for the captured status, in
    decimal. *)
Theorem trailer_block_has_the_status_line (s : t) :
  http.Get (trailers (writeHeaders s)) "Grpc-Status" = "" ->
  exists pre post,
    http.Write (trailers (fst (Finish s)))
    = pre ++ (list_byte_of_string
                ("Grpc-Status: " ++ Itoa (httpStatusToGrpcCode (capturedStatusCode s)))
              ++ [x0d; x0a]) ++ post.
Proof.
  intros Hnone. rewrite Finish_trailers, writeHeaders_capturedStatusCode.
  set (c := capturedStatusCode s).
  assert (Hk : finalTrailers (trailers (writeHeaders s)) c !! "Grpc-Status"
               = Some [Itoa (httpStatusToGrpcCode c)]).
  { unfold finalTrailers. rewrite Hnone. cbn [String.eqb]. unfold http.Set_.
    change (http.CanonicalHeaderKey "Grpc-Status") with "Grpc-Status".
    change (http.CanonicalHeaderKey "Grpc-Message") with "Grpc-Message".
    destruct (_ && _); rewrite ?lookup_insert_ne by discriminate;
      apply lookup_insert_eq. }
  destruct (Write_has_lines _ _ _ Hk eq_refl) as (pre & post & ->).
  cbn [flat_map]. rewrite app_nil_r, statusLine_plain.
  exists pre, post. reflexivity.
Qed.

Lemma trailer_block_has_the_status_line_witness :
  let s := WriteHeader (NewStreamingResponseWriter NewRecorder false) 404 in
  exists pre post,
    http.Write (trailers (fst (Finish s)))
    = pre ++ (list_byte_of_string "Grpc-Status: 12" ++ [x0d; x0a]) ++ post.
Proof.
  intros s. exact (trailer_block_has_the_status_line s eq_refl).
Defined.

(** ** What [Write] does with the flag byte, and with less than a frame *)

Lemma drain_flag bw w0 (flag flag' : byte) (tl : list byte) :
  let r := drain bw w0 (flag :: tl) in
  let r' := drain bw w0 (flag' :: tl) in
  fst (fst (fst r)) = fst (fst (fst r'))
  /\ snd (fst (fst r)) = snd (fst (fst r'))
  /\ snd r = snd r'.
Proof.
  cbv zeta. rewrite !drain_round.
  change (len (flag' :: tl)) with (len (flag :: tl)).
  change (declared (flag' :: tl)) with (declared (flag :: tl)).
  change (emittedHeader (flag' :: tl)) with (emittedHeader (flag :: tl)).
  change (drop 5 (flag' :: tl)) with (drop 5 (flag :: tl)).
  destruct (decide (5 <= len (flag :: tl))); [|auto].
  destruct (_ <? _); [auto|].
  destruct (bodyWrite bw w0 _) as [[bw1 w1] [e|]]; [auto|].
  destruct (bodyCopyN bw1 w1 _ _) as [[bw2 w2] [e|]]; auto.
Qed.

(** X14. What [Write] sends does not depend on the flag byte of the
    frame at the head of its buffer: with any flag the transport and
    the body writer end as they do with flag 0, with the same error,
    in either mode and on any transport.  So a whole frame that the
    backend flagged as compressed (0x01) goes out as a web DATA frame
    flagged 0x00, its payload as it was. *)
Theorem frame_flag_is_dropped (s : t) (flag : byte) (tl : list byte) :
  frameBuffer s = [] ->
  (let r := Write s (flag :: tl) in
   let r' := Write s (grpcDataFrame :: tl) in
   w (fst (fst r)) = w (fst (fst r'))
   /\ bodyWriter (fst (fst r)) = bodyWriter (fst (fst r'))
   /\ snd r = snd r')
  /\ (forall p, tl = BigEndian.PutUint32 (len p) ++ p -> len p < 2 ^ 32 ->
                bodyWriter s = Direct -> http.rw_room (w s) = None ->
                http.rw_body (w (fst (fst (Write s (flag :: tl)))))
                = http.rw_body (w s) ++ webDataFrame p).
Proof.
  intros Hbuf. split.
  - unfold Write. destruct (writeHeaders_body s) as (_ & _ & _ & _ & Hf & _).
    rewrite Hf, Hbuf. cbn [app].
    pose proof (drain_flag (bodyWriter (writeHeaders s)) (w (writeHeaders s))
                  flag grpcDataFrame tl) as Hfl. cbv zeta in Hfl.
    destruct (drain _ _ (flag :: tl)) as [[[bw1 w1] b1] e1].
    destruct (drain _ _ (grpcDataFrame :: tl)) as [[[bw2 w2] b2] e2].
    cbn [fst snd] in Hfl. destruct Hfl as (-> & -> & ->).
    destruct e2; cbn; auto.
  - intros p -> Hp Hbw Hroom.
    change (flag :: BigEndian.PutUint32 (len p) ++ p) with (nativeFrame flag p).
    rewrite Write_one_frame by assumption. cbn [fst w withBody accepted http.rw_body].
    rewrite (proj1 (writeHeaders_body s)). reflexivity.
Qed.

Lemma frame_flag_is_dropped_witness :
  let s := NewStreamingResponseWriter NewRecorder false in
  http.rw_body (w (fst (fst (Write s (x01 :: [x00; x00; x00; x02; x1f; x8b])))))
  = [x00; x00; x00; x00; x02; x1f; x8b].
Proof.
  intros s.
  destruct (frame_flag_is_dropped s x01 [x00; x00; x00; x02; x1f; x8b] eq_refl) as [_ H].
  apply (H [x1f; x8b]); reflexivity.
Defined.

(** X15. A [Write] that leaves the buffer short of a header, or short
    of the frame its header declares, sends no body byte: the bytes
    are kept in the buffer, in either mode and whatever the state of
    the transport, and the call reports all of [p] as written.  The
    headers are finalized by the call all the same. *)
Theorem incomplete_frame_is_only_buffered (s : t) (p : list byte) :
  len (frameBuffer s ++ p) < 5
  \/ (len (frameBuffer s ++ p) < 5 + declared (frameBuffer s ++ p)
      /\ 5 + declared (frameBuffer s ++ p) < 2 ^ 32) ->
  Write s p
  = (withBody (writeHeaders s) (bodyWriter s) (w (writeHeaders s)) (frameBuffer s ++ p),
     len p, None)
  /\ http.rw_body (w (fst (fst (Write s p)))) = http.rw_body (w s)
  /\ headersWritten (fst (fst (Write s p))) = true.
Proof.
  intros Hshort.
  assert (HW : Write s p
    = (withBody (writeHeaders s) (bodyWriter s) (w (writeHeaders s)) (frameBuffer s ++ p),
       len p, None)).
  { unfold Write. destruct (writeHeaders_body s) as (_ & _ & _ & Hw & Hf & _).
    rewrite Hw, Hf, drain_round.
    set (b := frameBuffer s ++ p) in *.
    destruct (decide (5 <= len b)) as [H5|H5]; [|reflexivity].
    destruct Hshort as [Hlt|[Hlt Hmax]]; [lia|].
    pose proof (Uint32_range (drop 1 (take 5 b))) as Hd. fold (declared b) in Hd.
    rewrite !uint32_small by lia.
    destruct (Z.ltb_spec (len b) (5 + declared b)); [reflexivity|lia]. }
  rewrite HW. cbn [fst w withBody headersWritten].
  split; [reflexivity|]. split; [apply writeHeaders_body|apply writeHeaders_written].
Qed.

Lemma incomplete_frame_is_only_buffered_witness :
  let s := NewStreamingResponseWriter
             {| http.rw_header := ∅; http.rw_status := []; http.rw_body := [];
                http.rw_room := Some 0%nat; http.rw_flusher := false;
                http.rw_flushes := 0 |} true in
  snd (Write s [x00; x00; x00; x00; x05; x68; x65]) = None
  /\ frameBuffer (fst (fst (Write s [x00; x00; x00; x00; x05; x68; x65])))
     = [x00; x00; x00; x00; x05; x68; x65].
Proof.
  intros s.
  destruct (incomplete_frame_is_only_buffered s [x00; x00; x00; x00; x05; x68; x65])
    as (HW & _ & _).
  - right. vm_compute. split; reflexivity.
  - rewrite HW. split; reflexivity.
Defined.

(** ** Text mode: what a flush leaves in the encoder *)

Lemma bodyWrite_text_kind enc w0 p :
  exists enc', fst (fst (bodyWrite (flushingBase64Writer enc) w0 p))
               = flushingBase64Writer enc'.
Proof.
  cbn [bodyWrite]. destruct (base64.Write enc w0 p) as [[enc' w1] e].
  exists enc'. reflexivity.
Qed.

(** One [Write] of one whole frame, of any flag, into an empty buffer,
    in either mode. *)
Lemma Write_frame_delivered (s : t) (flag : byte) (p base sofar : list byte) :
  len p < 2 ^ 32 -> frameBuffer s = [] ->
  delivered base (bodyWriter s) (w s) sofar ->
  exists bw1 w1,
    Write s (nativeFrame flag p)
    = (withBody (writeHeaders s) bw1 w1 [], len (nativeFrame flag p), None)
    /\ delivered base bw1 w1 (sofar ++ webDataFrame p)
    /\ (bodyWriter s = Direct -> bw1 = Direct)
    /\ ((exists enc, bodyWriter s = flushingBase64Writer enc) ->
        exists enc1, bw1 = flushingBase64Writer enc1).
Proof.
  intros Hp Hbuf Hd. unfold Write.
  apply delivered_writeHeaders in Hd.
  destruct (writeHeaders_body s) as (_ & _ & _ & Hw & Hf & _).
  rewrite Hf, Hbuf. cbn [app].
  rewrite drain_round.
  pose proof (len_nonneg p) as Hp0.
  destruct (decide (5 <= len (nativeFrame flag p))) as [_|Hn];
    [|rewrite len_nativeFrame in Hn; lia].
  assert (Hdecl : declared (nativeFrame flag p) = len p).
  { rewrite <- (app_nil_r (nativeFrame flag p)). apply declared_nativeFrame. exact Hp. }
  unfold emittedHeader. rewrite Hdecl, len_nativeFrame, Z.ltb_irrefl.
  destruct (delivered_bodyWrite base _ _ sofar
              (grpcDataFrame :: BigEndian.PutUint32 (len p)) Hd)
    as (bw1 & w1 & Hw1 & Hd1 & Hk1).
  rewrite Hw1.
  change (drop 5 (nativeFrame flag p)) with p.
  rewrite takeZ_short, dropZ_short by lia.
  destruct (delivered_bodyCopyN base bw1 w1 _ p (len p) Hd1 ltac:(lia))
    as (bw2 & w2 & Hw2 & Hd2 & Hk2).
  rewrite Hw2.
  rewrite drain_nil. rewrite <- app_assoc in Hd2.
  exists bw2, w2. split; [reflexivity|]. split; [exact Hd2|]. split.
  - intros Hdir. apply Hk2, Hk1. congruence.
  - intros [enc Henc]. rewrite Hw, Henc in Hw1.
    destruct (bodyWrite_text_kind enc (w (writeHeaders s))
                (grpcDataFrame :: BigEndian.PutUint32 (len p))) as (enc1 & He1).
    rewrite Hw1 in He1. cbn [fst] in He1. subst bw1.
    unfold bodyCopyN in Hw2. destruct p as [|c p'].
    + exists enc1. congruence.
    + destruct (bodyWrite_text_kind enc1 w1 (c :: p')) as (enc2 & He2).
      destruct (bodyWrite _ w1 (c :: p')) as [[bw' w'] [e|]]; cbn [fst] in He2;
        [discriminate|].
      exists enc2. congruence.
Qed.

Lemma Flush_keeps s :
  http.rw_body (w (Flush s)) = http.rw_body (w s)
  /\ bodyWriter (Flush s) = bodyWriter s
  /\ frameBuffer (Flush s) = frameBuffer s.
Proof.
  destruct (writeHeaders_body s) as (Hb & _ & _ & Hw & Hf & _).
  unfold Flush. destruct (flusher (writeHeaders s)); cbn; auto.
Qed.

(** X16. Text mode keeps one base64 encoder over the whole body, and
    [Flush] does not reach into it: after a whole frame has been
    written to a fresh writer and flushed, the transport holds the
    encoding of the longest prefix of the web frame that is a whole
    number of 3-byte groups, and the one or two bytes behind it wait
    in the encoder for the next [Write] or for [Finish]. *)
Theorem text_flush_holds_back_the_tail (w0 : http.ResponseWriter) (flag : byte)
    (p : list byte) :
  http.rw_room w0 = None -> len p < 2 ^ 32 ->
  let s := Flush (fst (fst (Write (NewStreamingResponseWriter w0 true)
                                  (nativeFrame flag p)))) in
  let k := (length (webDataFrame p) / 3 * 3)%nat in
  http.rw_body (w s) = http.rw_body w0 ++ base64.Encode (take k (webDataFrame p))
  /\ bodyWriter s
     = flushingBase64Writer
         {| base64.err := None; base64.buf := drop k (webDataFrame p) |}.
Proof.
  intros Hroom Hp s k.
  assert (Hd0 : delivered (http.rw_body w0)
                  (bodyWriter (NewStreamingResponseWriter w0 true))
                  (w (NewStreamingResponseWriter w0 true)) []).
  { split; [exact Hroom|]. cbn [bodyWriter w NewStreamingResponseWriter newFlushingBase64Writer].
    unfold textState. split; [reflexivity|]. split; [exact Hroom|].
    split; [cbn; lia|]. exists []. split; [reflexivity|]. split; [reflexivity|].
    change (base64.Encode []) with (@nil byte). symmetry. apply app_nil_r. }
  destruct (Write_frame_delivered (NewStreamingResponseWriter w0 true) flag p
              (http.rw_body w0) [] Hp eq_refl Hd0)
    as (bw1 & w1 & HW & [_ Hd1] & _ & Htext).
  destruct Htext as (enc1 & ->); [eexists; reflexivity|].
  destruct (Flush_keeps (fst (fst (Write (NewStreamingResponseWriter w0 true)
                                         (nativeFrame flag p))))) as (Hb & Hbw & _).
  fold s in Hb, Hbw. rewrite Hb, Hbw, HW. cbn [fst w bodyWriter withBody].
  cbn [app] in Hd1.
  destruct Hd1 as (Herr & _ & Hlt & sent & Hsplit & Hmod & Hbody).
  assert (Hk : k = length sent).
  { subst k. rewrite Hsplit, length_app.
    pose proof (Nat.div_mod_eq (length sent) 3) as Hdm. rewrite Hmod in Hdm.
    rewrite <- (Nat.div_unique (length sent + length (base64.buf enc1)) 3
                  (length sent / 3) (length (base64.buf enc1))); lia. }
  rewrite Hk, Hsplit, take_app_length, drop_app_length. split; [exact Hbody|].
  destruct enc1 as [e b]. cbn in Herr. subst e. reflexivity.
Qed.

Lemma text_flush_holds_back_the_tail_witness :
  let p := list_byte_of_string "hello" in
  let s := Flush (fst (fst (Write (NewStreamingResponseWriter NewRecorder true)
                                  (nativeFrame x00 p)))) in
  http.rw_body (w s) = base64.Encode [x00; x00; x00; x00; x05; x68; x65; x6c; x6c]
  /\ bodyWriter s
     = flushingBase64Writer {| base64.err := None; base64.buf := [x6f] |}.
Proof.
  intros p s.
  exact (text_flush_holds_back_the_tail NewRecorder x00 p eq_refl eq_refl).
Defined.

(** ** The [flushingBase64Writer] on its own *)

Lemma flushingBase64Writer_Flush_textState base enc w0 bin :
  textState base enc w0 bin ->
  textState base enc (flushingBase64Writer_Flush w0) bin.
Proof.
  intros H. unfold flushingBase64Writer_Flush.
  destruct (http.rw_flusher w0); [|exact H].
  eapply textState_meta; [exact H|reflexivity|reflexivity].
Qed.

Lemma writeFlushed_stream base chunks : forall enc w0 bin,
  textState base enc w0 bin ->
  exists enc' w1,
    writeFlushed enc w0 chunks = (enc', w1, None)
    /\ http.rw_body w1 = base ++ base64.Encode (bin ++ concat chunks).
Proof.
  induction chunks as [|p chunks IH]; intros enc w0 bin Hts.
  - cbn [writeFlushed concat]. rewrite app_nil_r.
    destruct (base64_Close_stream base enc w0 bin Hts) as (enc' & w1 & -> & Hb & _).
    eauto.
  - cbn [writeFlushed concat].
    destruct (base64_Write_stream base enc w0 bin p Hts) as (enc1 & w1 & -> & Hts1 & _).
    apply flushingBase64Writer_Flush_textState in Hts1.
    destruct (IH _ _ _ Hts1) as (enc' & w2 & -> & Hb).
    rewrite <- app_assoc in Hb. eauto.
Qed.

(** X20. The [flushingBase64Writer] encodes the stream, not the
    chunks: however the bytes are cut into [Write] calls, and with a
    [Flush] after each, [Close] leaves on a transport that takes what
    it is given the standard base64 encoding, padded once at the end,
    of all the bytes written, and nothing fails. *)
Theorem flushingBase64Writer_encodes_the_stream (w0 : http.ResponseWriter)
    (chunks : list (list byte)) :
  http.rw_room w0 = None ->
  exists enc w1,
    writeFlushed base64.NewEncoder w0 chunks = (enc, w1, None)
    /\ http.rw_body w1 = http.rw_body w0 ++ base64.Encode (concat chunks).
Proof.
  intros Hroom.
  apply (writeFlushed_stream (http.rw_body w0) chunks base64.NewEncoder w0 []).
  unfold textState. split; [reflexivity|]. split; [exact Hroom|].
  split; [cbn; lia|]. exists []. split; [reflexivity|]. split; [reflexivity|].
  change (base64.Encode []) with (@nil byte). symmetry. apply app_nil_r.
Qed.

Lemma flushingBase64Writer_encodes_the_stream_witness :
  exists enc w1,
    writeFlushed base64.NewEncoder NewRecorder
      [[x68]; []; [x65; x6c; x6c; x6f; x5f]; [x77; x6f; x72; x6c; x64]]
    = (enc, w1, None)
    /\ http.rw_body w1 = list_byte_of_string "aGVsbG9fd29ybGQ=".
Proof.
  exact (flushingBase64Writer_encodes_the_stream NewRecorder
           [[x68]; []; [x65; x6c; x6c; x6f; x5f]; [x77; x6f; x72; x6c; x64]] eq_refl).
Defined.

(** ** Failures of the transport *)

Lemma rwWrite_flushes w0 p :
  http.rw_flushes (fst (rwWrite w0 p)) = http.rw_flushes w0.
Proof.
  unfold rwWrite. destruct (http.rw_room w0) as [r|]; [|reflexivity].
  destruct (length p <=? r)%nat; reflexivity.
Qed.

Lemma writeGroups_flushes w0 p :
  http.rw_flushes (snd (fst (base64.writeGroups w0 p))) = http.rw_flushes w0.
Proof.
  unfold base64.writeGroups. destruct (3 <=? length p)%nat; [|reflexivity].
  pose proof (rwWrite_flushes w0
                (base64.Encode (take (length p - length p mod 3) p))) as H.
  destruct (rwWrite w0 _) as [w1 [e|]]; exact H.
Qed.

Lemma base64_Write_flushes enc w0 p :
  http.rw_flushes (snd (fst (base64.Write enc w0 p))) = http.rw_flushes w0.
Proof.
  unfold base64.Write. destruct (base64.err enc); [reflexivity|].
  destruct (base64.buf enc) as [|b0 bs]; [apply writeGroups_flushes|].
  destruct (_ <? 3)%nat; [reflexivity|].
  pose proof (rwWrite_flushes w0
                (base64.Encode ((b0 :: bs) ++ take (Nat.min (length p) (3 - length (b0 :: bs))) p)))
    as H.
  destruct (rwWrite w0 _) as [w1 [e|]]; [exact H|].
  rewrite writeGroups_flushes. exact H.
Qed.

Lemma base64_Close_flushes enc w0 :
  http.rw_flushes (snd (fst (base64.Close enc w0))) = http.rw_flushes w0.
Proof.
  unfold base64.Close. destruct (base64.err enc); [reflexivity|].
  destruct (base64.buf enc) as [|b0 bs]; [reflexivity|].
  pose proof (rwWrite_flushes w0 (base64.Encode (b0 :: bs))) as H.
  destruct (rwWrite w0 _) as [w1 r]. exact H.
Qed.

Lemma bodyWrite_flushes bw w0 p :
  http.rw_flushes (snd (fst (bodyWrite bw w0 p))) = http.rw_flushes w0.
Proof.
  destruct bw as [|enc]; cbn [bodyWrite].
  - pose proof (rwWrite_flushes w0 p) as H. destruct (rwWrite w0 p) as [w1 e]. exact H.
  - pose proof (base64_Write_flushes enc w0 p) as H.
    destruct (base64.Write enc w0 p) as [[enc1 w1] e]. exact H.
Qed.

(** X21. When [Finish] fails, the error it returns wraps the cause
    under one of its three messages (trailer frame header, trailer
    payload, closing the body writer), the transport has not been
    flushed by the call, and the headers are out all the same. *)
Theorem Finish_failure_is_wrapped (s : t) (e : error) :
  snd (Finish s) = Some e ->
  (exists cause,
      e = Errorf "failed to write trailer frame header" cause
      \/ e = Errorf "failed to write trailer payload" cause
      \/ e = Errorf "failed closing body writer" cause)
  /\ http.rw_flushes (w (fst (Finish s))) = http.rw_flushes (w s)
  /\ headersWritten (fst (Finish s)) = true.
Proof.
  destruct (writeHeaders_body s) as (_ & _ & Hfl & _).
  pose proof (writeHeaders_written s) as Hwr.
  unfold Finish.
  set (s2 := withTrailers (writeHeaders s) _).
  assert (Hfl2 : http.rw_flushes (w s2) = http.rw_flushes (w s)) by exact Hfl.
  assert (Hwr2 : headersWritten s2 = true) by exact Hwr.
  clearbody s2.
  set (hdr := grpcTrailerFrame :: _).
  pose proof (bodyWrite_flushes (bodyWriter s2) (w s2) hdr) as H1.
  destruct (bodyWrite (bodyWriter s2) (w s2) hdr) as [[bw1 w1] [e1|]]; cbn [fst snd] in *.
  { intros [= <-]. cbn [w withBody headersWritten].
    split; [eauto|]. split; [congruence|exact Hwr2]. }
  pose proof (bodyWrite_flushes bw1 w1 (http.Write (trailers s2))) as H2.
  destruct (bodyWrite bw1 w1 _) as [[bw2 w2] [e2|]]; cbn [fst snd] in *.
  { intros [= <-]. cbn [w withBody headersWritten].
    split; [eauto|]. split; [congruence|exact Hwr2]. }
  destruct bw2 as [|enc]; [discriminate|].
  pose proof (base64_Close_flushes enc w2) as H3.
  destruct (base64.Close enc w2) as [[enc1 w3] [e3|]]; cbn [fst snd] in *;
    [|discriminate].
  intros [= <-]. cbn [w withBody headersWritten].
  split; [eauto|]. split; [congruence|exact Hwr2].
Qed.

Lemma Finish_failure_is_wrapped_witness :
  let s := NewStreamingResponseWriter
             {| http.rw_header := ∅; http.rw_status := []; http.rw_body := [];
                http.rw_room := Some 3%nat; http.rw_flusher := true;
                http.rw_flushes := 0 |} false in
  snd (Finish s) = Some (Errorf "failed to write trailer frame header" (ErrBroken "write"))
  /\ http.rw_flushes (w (fst (Finish s))) = 0%nat
  /\ http.rw_status (w (fst (Finish s))) = [200].
Proof.
  intros s.
  assert (He : snd (Finish s)
               = Some (Errorf "failed to write trailer frame header" (ErrBroken "write")))
    by reflexivity.
  destruct (Finish_failure_is_wrapped s _ He) as (_ & Hfl & _).
  split; [exact He|]. split; [exact Hfl|reflexivity].
Defined.

(** X22. A [Write] whose frame header the transport refuses (binary
    mode, fewer than five bytes of room) returns 0 and the transport's
    error, and the five header bytes have already left the frame
    buffer: what the buffer starts with afterwards is the payload, so
    the frame cannot be sent again by a later [Write]. *)
Theorem failed_header_write_loses_the_header (s : t) (flag : byte)
    (p rest : list byte) (room : nat) :
  frameBuffer s = [] -> bodyWriter s = Direct ->
  http.rw_room (w s) = Some room -> (room < 5)%nat ->
  len (nativeFrame flag p ++ rest) < 2 ^ 32 ->
  let r := Write s (nativeFrame flag p ++ rest) in
  snd r = Some (ErrBroken "write")
  /\ snd (fst r) = 0
  /\ frameBuffer (fst (fst r)) = p ++ rest
  /\ http.rw_body (w (fst (fst r)))
     = http.rw_body (w s) ++ take room (grpcDataFrame :: BigEndian.PutUint32 (len p)).
Proof.
  intros Hbuf Hbw Hroom Hlt Hlen. cbv zeta. unfold Write.
  destruct (writeHeaders_body s) as (Hb & Hr & _ & Hw & Hf & _).
  rewrite Hw, Hf, Hbuf, Hbw. cbn [app]. rewrite drain_round.
  pose proof (len_nonneg p) as Hp0. pose proof (len_nonneg rest) as Hr0.
  rewrite len_app, len_nativeFrame in Hlen.
  destruct (decide (5 <= len (nativeFrame flag p ++ rest))) as [_|Hn];
    [|rewrite len_app, len_nativeFrame in Hn; lia].
  unfold emittedHeader. rewrite declared_nativeFrame by lia.
  rewrite len_app, len_nativeFrame, !uint32_small by lia.
  destruct (Z.ltb_spec (5 + len p + len rest) (5 + len p)); [lia|].
  cbn [bodyWrite]. unfold rwWrite. rewrite Hr, Hroom.
  cbn [length BigEndian.PutUint32].
  destruct (Nat.leb_spec 5 room); [lia|].
  cbn [fst snd withBody frameBuffer w http.rw_body].
  rewrite drop5_nativeFrame, Hb. auto.
Qed.

Lemma failed_header_write_loses_the_header_witness :
  let s := NewStreamingResponseWriter
             {| http.rw_header := ∅; http.rw_status := []; http.rw_body := [];
                http.rw_room := Some 2%nat; http.rw_flusher := true;
                http.rw_flushes := 0 |} false in
  let r := Write s (nativeFrame x00 [x68; x69] ++ []) in
  snd r = Some (ErrBroken "write")
  /\ snd (fst r) = 0
  /\ frameBuffer (fst (fst r)) = [x68; x69] ++ []
  /\ http.rw_body (w (fst (fst r)))
     = http.rw_body (w s) ++ take 2 (grpcDataFrame :: BigEndian.PutUint32 (len [x68; x69])).
Proof.
  intros s.
  apply (failed_header_write_loses_the_header s x00 [x68; x69] [] 2);
    [reflexivity | reflexivity | reflexivity | lia | reflexivity].
Defined.

(** ** Negotiation, by the shape of the header values *)

Lemma append_cons (c : ascii) (a b : string) :
  String c a +:+ b = String c (a +:+ b).
Proof. reflexivity. Qed.

Lemma HasPrefix_app (s p : string) :
  strings.HasPrefix s p = true <-> exists rest, s = p +:+ rest.
Proof.
  unfold strings.HasPrefix. revert s. induction p as [|a p IH]; intros s.
  - destruct s; cbn; split; eauto.
  - destruct s as [|b s]; cbn.
    + split; [discriminate|]. intros [rest H]. discriminate.
    + destruct (ascii_dec a b) as [->|Hne].
      * rewrite IH. split; intros [rest H]; exists rest;
          rewrite append_cons in *; congruence.
      * split; [discriminate|]. intros [rest H]. rewrite append_cons in H. congruence.
Qed.

Lemma length_append (a b : string) :
  String.length (a +:+ b) = (String.length a + String.length b)%nat.
Proof.
  induction a as [|c a IH]; [reflexivity|].
  rewrite append_cons. cbn [String.length]. rewrite IH. reflexivity.
Qed.

Lemma substring_whole (s : string) : String.substring 0 (String.length s) s = s.
Proof. induction s as [|c s IH]; cbn; [reflexivity|]. rewrite IH. reflexivity. Qed.

Lemma substring_append (pre suf : string) :
  String.substring (String.length pre) (String.length suf) (pre +:+ suf) = suf.
Proof.
  induction pre as [|c pre IH]; [apply substring_whole|].
  rewrite append_cons. exact IH.
Qed.

Lemma substring_split (s : string) : forall n, (n <= String.length s)%nat ->
  s = String.substring 0 n s +:+ String.substring n (String.length s - n) s.
Proof.
  induction s as [|c s IH]; intros n Hn.
  - destruct n; reflexivity.
  - destruct n as [|n].
    + rewrite Nat.sub_0_r, (substring_whole (String c s)). reflexivity.
    + cbn [String.length] in *. cbn [String.substring Nat.sub].
      rewrite append_cons, <- IH by lia. reflexivity.
Qed.

Lemma HasSuffix_app (s suf : string) :
  strings.HasSuffix s suf = true <-> exists pre, s = pre +:+ suf.
Proof.
  unfold strings.HasSuffix. rewrite andb_true_iff, Nat.leb_le, String.eqb_eq. split.
  - intros [Hle Heq].
    exists (String.substring 0 (String.length s - String.length suf) s).
    pose proof (substring_split s (String.length s - String.length suf) ltac:(lia)) as H.
    replace (String.length s - (String.length s - String.length suf))%nat
      with (String.length suf) in H by lia.
    rewrite Heq in H. exact H.
  - intros [pre ->]. rewrite length_append. split; [lia|].
    replace (String.length pre + String.length suf - String.length suf)%nat
      with (String.length pre) by lia.
    apply substring_append.
Qed.

Lemma Contains_app (s sub : string) :
  strings.Contains s sub = true <-> exists pre post, s = pre +:+ sub +:+ post.
Proof.
  induction s as [|c s IH].
  - cbn [strings.Contains]. rewrite orb_false_r.
    fold (strings.HasPrefix "" sub). rewrite HasPrefix_app. split.
    + intros [rest H]. exists "", rest. exact H.
    + intros (pre & post & H). destruct pre; [|discriminate]. exists post. exact H.
  - cbn [strings.Contains]. rewrite orb_true_iff.
    fold (strings.HasPrefix (String c s) sub). rewrite HasPrefix_app, IH. split.
    + intros [[rest H]|(pre & post & H)].
      * exists "", rest. exact H.
      * exists (String c pre), post. rewrite append_cons. congruence.
    + intros (pre & post & H). destruct pre as [|c' pre].
      * left. exists post. exact H.
      * right. exists pre, post. rewrite append_cons in H. congruence.
Qed.

(** X23. [IsGRPCWebRequest] holds exactly for a POST whose first
    Content-Type value starts with "application/grpc-web": the four
    content types of the protocol, and anything else with that
    prefix; parameters and case are not looked at. *)
Theorem IsGRPCWebRequest_by_shape (r : http.Request) :
  IsGRPCWebRequest r = true
  <-> http.Method r = "POST"
      /\ exists rest,
           http.Get (http.Header_ r) "Content-Type" = "application/grpc-web" +:+ rest.
Proof.
  unfold IsGRPCWebRequest. rewrite andb_true_iff, String.eqb_eq, HasPrefix_app.
  reflexivity.
Qed.

(** X24. [IsTextRequest] holds exactly when the first Content-Type
    value ends in "-text" or "application/grpc-web-text" occurs in the
    first Accept value.  Neither the method nor the gRPC-Web prefix is
    looked at. *)
Theorem IsTextRequest_by_shape (r : http.Request) :
  IsTextRequest r = true
  <-> (exists pre, http.Get (http.Header_ r) "Content-Type" = pre +:+ "-text")
      \/ (exists pre post,
             http.Get (http.Header_ r) "Accept"
             = pre +:+ "application/grpc-web-text" +:+ post).
Proof.
  unfold IsTextRequest. cbv zeta.
  rewrite orb_true_iff, HasSuffix_app, Contains_app. reflexivity.
Qed.

(** ** The two directions together *)

Lemma webStream_webFrames frames : webStream frames = webFrames (map snd frames).
Proof.
  induction frames as [|g frames IH]; [reflexivity|].
  change (webStream (g :: frames)) with (webDataFrame (snd g) ++ webStream frames).
  rewrite IH. reflexivity.
Qed.

Lemma nativeStream_payloads frames :
  len (nativeStream frames) < 2 ^ 32 ->
  Forall (fun p => len p < 2 ^ 32) (map snd frames).
Proof.
  induction frames as [|g frames IH]; intros Hlen; [constructor|].
  rewrite nativeStream_cons, len_app, len_nativeFrame in Hlen.
  pose proof (len_nonneg (nativeStream frames)). pose proof (len_nonneg (snd g)).
  cbn [map]. constructor; [lia|]. apply IH. lia.
Qed.

(** X25. The response encoder and the request decoder are inverse on
    DATA frames.  For any native frames (less than 4 GiB in all) a
    backend writes in any chunking to a binary-mode writer on a fresh
    transport, followed by [Finish]: nothing fails, and the body the
    transport holds, read to the end through a [FrameReader], gives
    back the native frames of the same payloads with flag 0, and ends
    with [io.EOF] at the trailer frame, whose content the decoder
    never delivers. *)
Theorem response_reads_back (w0 : http.ResponseWriter)
    (frames : list (byte * list byte)) (chunks : list (list byte)) (n : nat) :
  http.rw_room w0 = None -> http.rw_body w0 = [] ->
  len (nativeStream frames) < 2 ^ 32 -> concat chunks = nativeStream frames ->
  (0 < n)%nat ->
  exists s1 s2,
    writeAll (NewStreamingResponseWriter w0 false) chunks = (s1, None)
    /\ Finish s1 = (s2, None)
    /\ readsToEnd
         (FrameReader.NewFrameReader
            {| io.pending := http.rw_body (w s2); io.final := EOF |} false)
         n (nativeFrames (map snd frames)) EOF.
Proof.
  intros Hroom Hbody Hlen Hchunks Hn.
  set (s := NewStreamingResponseWriter w0 false).
  destruct (writeAll_stream chunks s frames [] eq_refl Hroom) as
      (s1 & G1 & G2 & Hall & HG & Hc & Hy & Hinc & Hb1 & Hbw1 & Hroom1).
  { cbn [frameBuffer s NewStreamingResponseWriter app]. rewrite app_nil_r. exact Hchunks. }
  { exact Hlen. }
  { destruct frames as [|g G]; cbn [incomplete]; [reflexivity|].
    rewrite len_nativeFrame. pose proof (len_nonneg (snd g)). unfold len at 1. cbn. lia. }
  rewrite app_nil_r in Hy. destruct (incomplete_whole _ _ Hinc Hy) as [-> _].
  rewrite app_nil_r in HG. subst G1.
  destruct (Finish_direct s1 Hbw1 Hroom1) as (He & Hb2 & _).
  exists s1, (fst (Finish s1)). split; [exact Hall|].
  split; [destruct (Finish s1) as [s2 e2]; cbn [fst snd] in *; congruence|].
  rewrite Hb2, Hb1. cbn [w s NewStreamingResponseWriter]. rewrite Hbody. cbn [app].
  rewrite webStream_webFrames.
  rewrite <- (app_nil_r (nativeFrames (map snd frames))).
  unfold FrameReader.NewFrameReader.
  apply readsToEnd_frames; [exact Hn|apply nativeStream_payloads; exact Hlen|].
  eapply readsToEnd_error. reflexivity.
Qed.

Lemma response_reads_back_witness :
  exists s1 s2,
    writeAll (NewStreamingResponseWriter NewRecorder false)
      [[x01; x00; x00]; [x00; x02; x68; x69; x00; x00; x00]; [x00; x00]] = (s1, None)
    /\ Finish s1 = (s2, None)
    /\ readsToEnd
         (FrameReader.NewFrameReader
            {| io.pending := http.rw_body (w s2); io.final := EOF |} false)
         3 (nativeFrames (map snd [(x01, [x68; x69]); (x00, [])])) EOF.
Proof.
  apply (response_reads_back NewRecorder [(x01, [x68; x69]); (x00, [])]);
    [reflexivity | reflexivity | reflexivity | reflexivity | lia].
Defined.
